(** * personal-semantic-search: chunking, chunk identity, index store and sync

    A shallow embedding of the indexing and retrieval core of the
    repository ([text_chunker.py], [vector_store.py], [search.py]) together
    with the properties its specification states about it.

    Conventions of the embedding:
    - a Python [str] is a [string]; its characters are the code points
      0..255, so indices and lengths count characters as Python does;
    - a Python [int] is a [Z];
    - a Python [float] is a binary64 [float] of the kernel, with the
      IEEE 754 operations Python uses;
    - a [dict] is a [gmap], a [set] a [gset];
    - a raised exception is the [Err] outcome of [result]. *)

From Stdlib Require Import ZArith List String Ascii Lia.
From Stdlib Require Import Floats Reals Lra.
From stdpp Require Import base option list gmap strings pretty.

Local Open Scope Z_scope.
#[local] Set Warnings "-clear-no-such-hyp".

(** ** Outcomes of fallible code *)

Inductive py_error : Type :=
| KeyError (key : string)
| IndexError
| TypeError (key : string)
| ZeroDivisionError
| EmbeddingError (msg : string)
| StoreError (msg : string).

Inductive result (A : Type) : Type :=
| Ok (a : A)
| Err (e : py_error).
Arguments Ok {A} a.
Arguments Err {A} e.

Global Instance result_ret : MRet result := λ A a, Ok a.
Global Instance result_bind : MBind result := λ A B k r,
  match r with
  | Ok a => k a
  | Err e => Err e
  end.

(** [d[k]]: a missing key raises [KeyError]. *)
Definition getitem {V} (d : gmap string V) (k : string) : result V :=
  match d !! k with
  | Some v => Ok v
  | None => Err (KeyError k)
  end.

(** [l[i]]: an index out of range raises [IndexError]. *)
Definition getindex {A} (l : list A) (i : nat) : result A :=
  match l !! i with
  | Some a => Ok a
  | None => Err IndexError
  end.

(** A [for] loop that updates one variable and may raise. *)
Fixpoint foldlM {A B} (f : B → A → result B) (b : B) (l : list A) : result B :=
  match l with
  | [] => Ok b
  | a :: l' => f b a ≫= λ b', foldlM f b' l'
  end.

(** ** The operations of Python's [str] that the source uses *)

Module PyStr.

Definition len (s : string) : Z := Z.of_nat (String.length s).

(** The line feed, Python's ['\n']. *)
Definition LF : string := String (ascii_of_nat 10) EmptyString.

(** [s.replace(a, b)] for one-character [a] and [b]. *)
Fixpoint replace_char (a b : ascii) (s : string) : string :=
  match s with
  | EmptyString => EmptyString
  | String c s' =>
      String (if Ascii.eqb c a then b else c) (replace_char a b s')
  end.

(** [s.startswith(p)]. *)
Definition startswith (s p : string) : bool := String.prefix p s.

(** [s[:k]], with Python's reading of a negative or too large [k]. *)
Definition slice_to (s : string) (k : Z) : string :=
  let stop := if k <? 0 then Z.max 0 (len s + k) else Z.min k (len s) in
  String.substring 0 (Z.to_nat stop) s.

(** [s[k:]] for [k >= 0]. *)
Fixpoint drop (k : nat) (s : string) : string :=
  match k, s with
  | O, _ => s
  | S k', EmptyString => EmptyString
  | S k', String _ s' => drop k' s'
  end.

(** [s.split(sep)] for a non-empty [sep]: the pieces between the
    leftmost non-overlapping occurrences of [sep]. [skip] counts the
    characters of a matched separator still to be passed over, [cur] is
    the piece being read. *)
Fixpoint split_go (sep : string) (skip : nat) (cur s : string) : list string :=
  match s with
  | EmptyString => [cur]
  | String c s' =>
      match skip with
      | S k => split_go sep k cur s'
      | O =>
          if String.prefix sep s
          then cur :: split_go sep (String.length sep - 1) EmptyString s'
          else split_go sep 0 (cur +:+ String c EmptyString) s'
      end
  end.

Definition split (s sep : string) : list string := split_go sep 0 EmptyString s.

(** [sep.join(l)]. *)
Definition join (sep : string) (l : list string) : string := String.concat sep l.

(** [str.isspace] on one character. *)
Definition isspace (c : ascii) : bool :=
  let n := N_of_ascii c in
  ((9 <=? n) && (n <=? 13) || (28 <=? n) && (n <=? 32)
   || (n =? 133) || (n =? 160))%N.

Fixpoint lstrip (s : string) : string :=
  match s with
  | EmptyString => EmptyString
  | String c s' => if isspace c then lstrip s' else s
  end.

(** [s.strip()]. *)
Definition strip (s : string) : string :=
  String.rev (lstrip (String.rev (lstrip s))).

(** The lowest index [>= i] at which [sub] occurs, [s] being the text
    from index [i] on. *)
Fixpoint find_from (sub s : string) (i : nat) : option nat :=
  if String.prefix sub s then Some i
  else match s with
       | EmptyString => None
       | String _ s' => find_from sub s' (S i)
       end.

(** [s.find(sub, start)]. *)
Definition find (s sub : string) (start : Z) : Z :=
  let st := if start <? 0 then Z.max 0 (len s + start) else start in
  if len s <? st then -1
  else match find_from sub (drop (Z.to_nat st) s) (Z.to_nat st) with
       | Some i => Z.of_nat i
       | None => -1
       end.

(** The text after the last occurrence of [c] in [s], if [c] occurs. *)
Fixpoint after_last (c : ascii) (s : string) : option string :=
  match s with
  | EmptyString => None
  | String x s' =>
      match after_last c s' with
      | Some t => Some t
      | None => if Ascii.eqb x c then Some s' else None
      end
  end.

(** [sub in s]. *)
Fixpoint contains (sub s : string) : bool :=
  String.prefix sub s
  || match s with
     | EmptyString => false
     | String _ s' => contains sub s'
     end.

(** [s.endswith(suf)]. *)
Fixpoint endswith (s suf : string) : bool :=
  String.eqb s suf
  || match s with
     | EmptyString => false
     | String _ s' => endswith s' suf
     end.

(** A non-empty string is true, the empty one and [None] are false. *)
Definition truthy (o : option string) : bool :=
  match o with
  | Some (String _ _) => true
  | _ => false
  end.

End PyStr.


(** ** text_chunker.py *)

Module TextChunker.

(** [file_reader.Document]. *)
Record Document : Type := {
  path : string;
  doc_content : string;
  doc_file_type : string;
  doc_modified : float
}.

Record Chunk : Type := {
  content : string;
  source_path : string;
  file_type : string;
  chunk_index : Z;
  total_chunks : Z;
  modified : float;
  char_start : Z;
  char_end : Z;
  headers : list string;
  token_count : Z
}.

(** The assignment [chunk.total_chunks = n] on a chunk object. *)
Definition set_total_chunks (n : Z) (c : Chunk) : Chunk :=
  {| content := content c; source_path := source_path c;
     file_type := file_type c; chunk_index := chunk_index c;
     total_chunks := n; modified := modified c;
     char_start := char_start c; char_end := char_end c;
     headers := headers c; token_count := token_count c |}.

(** *** extract_headers *)

(** The three loop variables [current_h1], [current_h2], [current_h3]. *)
Record header_stack : Type := {
  current_h1 : option string;
  current_h2 : option string;
  current_h3 : option string
}.

Definition no_headers : header_stack :=
  {| current_h1 := None; current_h2 := None; current_h3 := None |}.

(** One pass through the body of [for line in lines]. *)
Definition header_step (st : header_stack) (line : string) : header_stack :=
  if PyStr.startswith line "# " && negb (PyStr.startswith line "##") then
    {| current_h1 := Some line; current_h2 := None; current_h3 := None |}
  else if PyStr.startswith line "## " && negb (PyStr.startswith line "###") then
    {| current_h1 := current_h1 st; current_h2 := Some line; current_h3 := None |}
  else if PyStr.startswith line "### " then
    {| current_h1 := current_h1 st; current_h2 := current_h2 st;
       current_h3 := Some line |}
  else st.

(** The header lineage as the specification words it. The level of a
    header line is the number of ['#'] it starts with, a space following
    them; a header of level [N <= 3] becomes the active header of its
    level and clears all deeper levels, deeper headers and other lines
    change nothing. *)
Fixpoint leading_hashes (s : string) : nat * string :=
  match s with
  | EmptyString => (O, s)
  | String c s' =>
      if Ascii.eqb c "#" then (S (leading_hashes s').1, (leading_hashes s').2)
      else (O, s)
  end.

Definition header_level (line : string) : option nat :=
  match leading_hashes line with
  | (S n, String c _) => if Ascii.eqb c " " then Some (S n) else None
  | _ => None
  end.

Definition lineage_step_spec (st : header_stack) (line : string) : header_stack :=
  match header_level line with
  | Some 1%nat =>
      {| current_h1 := Some line; current_h2 := None; current_h3 := None |}
  | Some 2%nat =>
      {| current_h1 := current_h1 st; current_h2 := Some line; current_h3 := None |}
  | Some 3%nat =>
      {| current_h1 := current_h1 st; current_h2 := current_h2 st;
         current_h3 := Some line |}
  | _ => st
  end.

(** Every active header of the stack is a non-empty line. *)
Definition stack_truthy (st : header_stack) : Prop :=
  (∀ h, current_h1 st = Some h → h ≠ EmptyString)
  ∧ (∀ h, current_h2 st = Some h → h ≠ EmptyString)
  ∧ (∀ h, current_h3 st = Some h → h ≠ EmptyString).

(** The three [if current_hN: headers.append(current_hN)]. *)
Definition active_headers (st : header_stack) : list string :=
  (if PyStr.truthy (current_h1 st) then option_list (current_h1 st) else [])
  ++ (if PyStr.truthy (current_h2 st) then option_list (current_h2 st) else [])
  ++ (if PyStr.truthy (current_h3 st) then option_list (current_h3 st) else []).

(** The lines of a text as the specification means them: the text cut at
    each of its line feeds. It is written without the [split] of the
    source, to be compared with it. *)
Fixpoint text_lines (s : string) : list string :=
  match s with
  | EmptyString => [EmptyString]
  | String c s' =>
      if Ascii.eqb c "010" then EmptyString :: text_lines s'
      else match text_lines s' with
           | line :: lines => String c line :: lines
           | [] => [String c EmptyString]
           end
  end.

Definition lines_before (content : string) (char_position : Z) : list string :=
  PyStr.split (PyStr.slice_to content char_position) PyStr.LF.

Definition extract_headers (content : string) (char_position : Z) : list string :=
  active_headers (fold_left header_step (lines_before content char_position) no_headers).

Section Chunking.

(** The two external libraries of the chunker: the tokenizer behind
    [count_tokens] and the recursive splitter's [split_text]. *)
Variable count_tokens : string → Z.
Variable split_text : string → list string.

(** The state of the loop of [chunk_document]: the chunks appended so
    far and [char_position]. *)
Definition chunk_step (doc : Document) (n_texts : nat)
    (acc : list Chunk * Z) (it : nat * string) : list Chunk * Z :=
  let '(chunks, char_position) := acc in
  let '(i, text) := it in
  let search_text :=
    if 50 <=? PyStr.len text then PyStr.slice_to text 50 else text in
  let found := PyStr.find (doc_content doc) search_text (Z.max 0 (char_position - 150)) in
  let char_start := if found =? -1 then char_position else found in
  let char_end := char_start + PyStr.len text in
  let chunk :=
    {| content := text; source_path := path doc;
       file_type := doc_file_type doc; chunk_index := Z.of_nat i;
       total_chunks := Z.of_nat n_texts; modified := doc_modified doc;
       char_start := char_start; char_end := char_end;
       headers := extract_headers (doc_content doc) char_start;
       token_count := count_tokens text |} in
  (chunks ++ [chunk], char_start + PyStr.len text - 100).

Definition chunk_document (doc : Document) : list Chunk :=
  let texts := split_text (doc_content doc) in
  let chunks := fst (fold_left (chunk_step doc (length texts))
                        (zip (seq 0 (length texts)) texts) ([], 0)) in
  map (set_total_chunks (Z.of_nat (length chunks))) chunks.

(** The token budget, [chunk_size=512] of [get_splitter]. *)
Definition chunk_size : Z := 512.

Definition chunk_all (documents : list Document) : list Chunk :=
  fold_left (λ all_chunks doc,
               match PyStr.strip (doc_content doc) with
               | String _ _ => all_chunks ++ chunk_document doc
               | EmptyString => all_chunks
               end) documents [].

End Chunking.

(** *** What the chunks of a document are like *)

(** [text[:50] if len(text) >= 50 else text], the fragment of a chunk
    that [chunk_document] looks for in the document. *)
Definition search_text (text : string) : string :=
  if 50 <=? PyStr.len text then PyStr.slice_to text 50 else text.

(** Where [chunk_document] puts a chunk when the running offset is
    [char_position]: at the running offset itself, or at an offset of the
    document, not more than 150 before the running offset, at which the
    chunk's leading fragment stands. *)
Definition located (doc : Document) (char_position : Z) (c : Chunk) : Prop :=
  char_start c = char_position
  ∨ (Z.max 0 (char_position - 150) ≤ char_start c ≤ PyStr.len (doc_content doc)
     ∧ String.prefix (search_text (content c))
         (PyStr.drop (Z.to_nat (char_start c)) (doc_content doc)) = true).

(** The fields of a chunk that [chunk_document] copies from the document
    or computes from the chunk's own text and offset. *)
Definition chunk_of_document (count_tokens : string → Z) (doc : Document)
    (c : Chunk) : Prop :=
  source_path c = path doc
  ∧ file_type c = doc_file_type doc
  ∧ modified c = doc_modified doc
  ∧ char_end c = char_start c + PyStr.len (content c)
  ∧ token_count c = count_tokens (content c)
  ∧ headers c = extract_headers (doc_content doc) (char_start c).

(** Every active header of the stack is one of the lines [seen] and
    begins as a header of its level does. *)
Definition stack_of_lines (seen : list string) (st : header_stack) : Prop :=
  (∀ h, current_h1 st = Some h → h ∈ seen ∧ PyStr.startswith h "# " = true)
  ∧ (∀ h, current_h2 st = Some h → h ∈ seen ∧ PyStr.startswith h "## " = true)
  ∧ (∀ h, current_h3 st = Some h → h ∈ seen ∧ PyStr.startswith h "### " = true).

End TextChunker.

(** ** vector_store.py *)

Module VectorStore.
Import TextChunker.

(** *** Chunk identity *)

Definition normalize_path (p : string) : string :=
  PyStr.replace_char "\" "/" p.

(** The f-string [f"{normalized_path}::chunk_{chunk.chunk_index}"]. *)
Definition make_id (source_path : string) (chunk_index : Z) : string :=
  normalize_path source_path +:+ "::chunk_" +:+ pretty chunk_index.

Definition make_chunk_id (chunk : Chunk) : string :=
  make_id (source_path chunk) (chunk_index chunk).

(** Two paths that differ only in the direction of their separators:
    character by character they agree, or both characters are separators. *)
Definition is_separator (c : ascii) : Prop := c = "/"%char ∨ c = "\"%char.

Inductive same_up_to_separators : string → string → Prop :=
| sus_nil : same_up_to_separators EmptyString EmptyString
| sus_same c s t :
    same_up_to_separators s t → same_up_to_separators (String c s) (String c t)
| sus_sep c d s t :
    is_separator c → is_separator d →
    same_up_to_separators s t → same_up_to_separators (String c s) (String d t).

(** *** Metadata *)

(** The values a metadata dict holds. *)
Inductive meta_value : Type :=
| MStr (s : string)
| MInt (n : Z)
| MFloat (x : float).

(** [" > ".join(chunk.headers) if chunk.headers else ""]. *)
Definition encode_headers (headers : list string) : string :=
  match headers with
  | [] => EmptyString
  | _ => PyStr.join " > " headers
  end.

Section Metadata.

(** [Path(p).name] of the standard library. *)
Variable path_name : string → string.

Definition chunk_to_metadata (chunk : Chunk) : gmap string meta_value :=
  <["source_path" := MStr (source_path chunk)]>
  (<["file_name" := MStr (path_name (source_path chunk))]>
  (<["file_type" := MStr (file_type chunk)]>
  (<["chunk_index" := MInt (chunk_index chunk)]>
  (<["total_chunks" := MInt (total_chunks chunk)]>
  (<["modified" := MFloat (modified chunk)]>
  (<["headers" := MStr (encode_headers (headers chunk))]>
  (<["token_count" := MInt (token_count chunk)]>
  (<["char_start" := MInt (char_start chunk)]>
  (<["char_end" := MInt (char_end chunk)]> ∅))))))))).

End Metadata.

(** The fields of [Chunk] are typed: a metadata value of another type
    than the field's is reported as [TypeError]. *)
Definition as_str (k : string) (v : meta_value) : result string :=
  match v with MStr s => Ok s | _ => Err (TypeError k) end.
Definition as_int (k : string) (v : meta_value) : result Z :=
  match v with MInt n => Ok n | _ => Err (TypeError k) end.
Definition as_float (k : string) (v : meta_value) : result float :=
  match v with MFloat x => Ok x | _ => Err (TypeError k) end.

Definition get_str (md : gmap string meta_value) (k : string) : result string :=
  getitem md k ≫= as_str k.
Definition get_int (md : gmap string meta_value) (k : string) : result Z :=
  getitem md k ≫= as_int k.
Definition get_float (md : gmap string meta_value) (k : string) : result float :=
  getitem md k ≫= as_float k.

(** [headers.split(" > ") if headers else []]. *)
Definition decode_headers (headers : string) : list string :=
  match headers with
  | EmptyString => []
  | _ => PyStr.split headers " > "
  end.

Definition metadata_to_chunk (metadata : gmap string meta_value) (content : string)
    : result Chunk :=
  headers ← match metadata !! "headers" with
            | Some v => as_str "headers" v
            | None => Ok EmptyString
            end;
  source_path ← get_str metadata "source_path";
  file_type ← get_str metadata "file_type";
  chunk_index ← get_int metadata "chunk_index";
  total_chunks ← get_int metadata "total_chunks";
  modified ← get_float metadata "modified";
  char_start ← get_int metadata "char_start";
  char_end ← get_int metadata "char_end";
  token_count ← get_int metadata "token_count";
  Ok {| content := content; source_path := source_path;
        file_type := file_type; chunk_index := chunk_index;
        total_chunks := total_chunks; modified := modified;
        char_start := char_start; char_end := char_end;
        headers := decode_headers headers; token_count := token_count |}.

(** *** The collection

    The ChromaDB collection is an external collaborator. The operations
    the source calls on it are modelled on a finite map from record id
    to record: at most one record per id, [upsert] is insert-or-replace
    of a batch of distinct ids, [get] with a [where] on [source_path]
    selects by equality on that metadata field, [delete] removes the
    given ids. The nearest-neighbour [query] is left abstract. *)

Record IndexRecord : Type := {
  rec_document : string;
  rec_embedding : list float;
  rec_metadata : gmap string meta_value
}.

Abbreviation Collection := (gmap string IndexRecord).

Definition has_source (source_path : string) (r : IndexRecord) : bool :=
  match rec_metadata r !! "source_path" with
  | Some (MStr p) => String.eqb p source_path
  | _ => false
  end.

(** [collection.get(where={"source_path": source_path}, include=[])["ids"]]. *)
Definition chroma_get_ids (coll : Collection) (source_path : string) : list string :=
  (filter (λ kr, has_source source_path kr.2 = true) (map_to_list coll)).*1.

(** [collection.delete(ids=ids)]. *)
Definition chroma_delete (ids : list string) (coll : Collection) : Collection :=
  foldr delete coll ids.

(** [collection.get(include=["metadatas"])["metadatas"]]. *)
Definition chroma_get_metadatas (coll : Collection) : list (gmap string meta_value) :=
  rec_metadata <$> (map_to_list coll).*2.

(** The insert-or-replace of one record of an upsert batch. *)
Definition upsert_one (coll : Collection)
    (x : string * (string * (list float * gmap string meta_value))) : Collection :=
  <[x.1 := {| rec_document := x.2.1; rec_embedding := x.2.2.1;
              rec_metadata := x.2.2.2 |}]> coll.

(** [collection.upsert(ids, documents, embeddings, metadatas)]: the
    library validates the batch before it writes anything. An id that
    occurs twice in the batch is refused (its [DuplicateIDError]), and
    the four lists must have one length; a refused batch leaves the
    collection as it was. The library's limit on the size of a batch is
    not modelled. *)
Definition chroma_upsert (ids documents : list string)
    (embeddings : list (list float)) (metadatas : list (gmap string meta_value))
    (coll : Collection) : result Collection :=
  if bool_decide (NoDup ids) then
    if bool_decide (length documents = length ids
                    ∧ length embeddings = length ids
                    ∧ length metadatas = length ids)
    then Ok (fold_left upsert_one
               (zip ids (zip documents (zip embeddings metadatas))) coll)
    else Err (StoreError "upsert: lists of unequal length")
  else Err (StoreError "upsert: duplicate ids").

(** The dict that [collection.query] returns. *)
Record QueryResult : Type := {
  qr_ids : list (list string);
  qr_documents : list (list string);
  qr_metadatas : list (list (gmap string meta_value));
  qr_distances : list (list float)
}.

(** The store query reports no matching id: [results["ids"]] is empty,
    or its first list is. *)
Definition reports_no_ids (results : QueryResult) : Prop :=
  qr_ids results = [] ∨ ∃ rest, qr_ids results = [] :: rest.

Record SearchResult : Type := {
  chunk : Chunk;
  score : float;
  distance : float
}.

(** [1 / (1 + distance)], in binary64. *)
Definition score_of (distance : float) : float := (1 / (1 + distance))%float.

(** The same as Python evaluates it: the division raises
    [ZeroDivisionError] when the sum [1 + distance] is zero. *)
Definition checked_score (distance : float) : result float :=
  if (1 + distance =? 0)%float then Err ZeroDivisionError
  else Ok (score_of distance).


Section Store.

Variable path_name : string → string.

(** [collection.query(query_embeddings, n_results, include, where)];
    [where] is absent when no filter is passed on. *)
Variable chroma_query :
  Collection → list (list float) → Z → option (gmap string meta_value)
  → result QueryResult.

Definition upsert_chunks (coll : Collection) (chunks : list Chunk)
    (embeddings : list (list float)) : Collection * result Z :=
  match chunks with
  | [] => (coll, Ok 0)
  | _ =>
      let ids := make_chunk_id <$> chunks in
      let documents := content <$> chunks in
      let metadatas := chunk_to_metadata path_name <$> chunks in
      match chroma_upsert ids documents embeddings metadatas coll with
      | Ok coll' => (coll', Ok (Z.of_nat (length chunks)))
      | Err e => (coll, Err e)
      end
  end.

Definition delete_by_source (coll : Collection) (source_path : string)
    : Collection * Z :=
  let ids := chroma_get_ids coll source_path in
  match ids with
  | [] => (coll, 0)
  | _ => (chroma_delete ids coll, Z.of_nat (length ids))
  end.

(** The body of the loop of [search] at index [i]. *)
Definition search_result_at (results : QueryResult) (i : nat) : result SearchResult :=
  content ← (getindex (qr_documents results) 0 ≫= λ l, getindex l i);
  metadata ← (getindex (qr_metadatas results) 0 ≫= λ l, getindex l i);
  distance ← (getindex (qr_distances results) 0 ≫= λ l, getindex l i);
  score ← checked_score distance;
  chunk ← metadata_to_chunk metadata content;
  Ok {| chunk := chunk; score := score; distance := distance |}.

(** [if filters: query_params["where"] = filters]. *)
Definition where_of (filters : option (gmap string meta_value))
    : option (gmap string meta_value) :=
  match filters with
  | Some f => if bool_decide (size f = 0%nat) then None else Some f
  | None => None
  end.

Definition search (coll : Collection) (query_embedding : list float)
    (n_results : Z) (filters : option (gmap string meta_value))
    : result (list SearchResult) :=
  results ← chroma_query coll [query_embedding] n_results (where_of filters);
  match qr_ids results with
  | (_ :: _) as ids0 :: _ =>
      mapM (search_result_at results) (seq 0 (length ids0))
  | _ => Ok []
  end.

(** The body of the loop of [get_indexed_files]. *)
Definition indexed_step (file_map : gmap string float)
    (metadata : gmap string meta_value) : result (gmap string float) :=
  source_path ← get_str metadata "source_path";
  modified ← get_float metadata "modified";
  match file_map !! source_path with
  | None => Ok (<[source_path := modified]> file_map)
  | Some old =>
      if (old <? modified)%float
      then Ok (<[source_path := modified]> file_map)
      else Ok file_map
  end.

Definition get_indexed_files (coll : Collection) : result (gmap string float) :=
  foldlM indexed_step ∅ (chroma_get_metadatas coll).

End Store.

(** *** Statistics *)

(** The dict that [get_collection_stats] returns. *)
Record collection_stats : Type := {
  stats_total_chunks : Z;
  stats_total_files : Z;
  stats_by_type : gmap string Z
}.

(** The body of the loop of [get_collection_stats]: the set [files] and
    the dict [by_type]. *)
Definition stats_step (acc : gset string * gmap string Z)
    (metadata : gmap string meta_value) : result (gset string * gmap string Z) :=
  source_path ← get_str metadata "source_path";
  file_type ← get_str metadata "file_type";
  Ok ({[source_path]} ∪ acc.1,
      <[file_type := default 0 (acc.2 !! file_type) + 1]> acc.2).

Definition get_collection_stats (coll : Collection) : result collection_stats :=
  let count := Z.of_nat (size coll) in
  if count =? 0 then
    Ok {| stats_total_chunks := 0; stats_total_files := 0; stats_by_type := ∅ |}
  else
    acc ← foldlM stats_step (∅, ∅) (chroma_get_metadatas coll);
    Ok {| stats_total_chunks := count;
          stats_total_files := Z.of_nat (size acc.1);
          stats_by_type := acc.2 |}.

(** The record is of the file type [ty]. *)
Definition has_file_type (ty : string) (md : gmap string meta_value) : bool :=
  match md !! "file_type" with
  | Some (MStr t) => String.eqb t ty
  | _ => false
  end.

(** The sum of the counts of a [by_type] dict. *)
Definition sum_counts (by_type : gmap string Z) : Z :=
  map_fold (λ _ n total, n + total) 0 by_type.

(** *** The shape of the store *)

Section Records.
Variable path_name : string → string.

(** The record that [upsert_chunks] writes for a chunk. *)
Definition record_of_chunk (c : Chunk) (e : list float) : IndexRecord :=
  {| rec_document := content c; rec_embedding := e;
     rec_metadata := chunk_to_metadata path_name c |}.

(** Every record of the store is the record of a chunk and sits under
    the id of that chunk. *)
Definition well_formed (coll : Collection) : Prop :=
  ∀ id r, coll !! id = Some r →
    ∃ c e, r = record_of_chunk c e ∧ id = make_chunk_id c.

End Records.

(** No record of the store carries a NaN as its modification time. *)
Definition no_nan_times (coll : Collection) : Prop :=
  ∀ id r t, coll !! id = Some r →
    rec_metadata r !! "modified" = Some (MFloat t) → (t <=? t)%float = true.

(** The integers of 64 bits. The store keeps an integer of a metadata
    dict as an integer when it is one of these, and the model keeps every
    integer: what the model says of a record is said of the store for
    integers of 64 bits only. *)
Definition int64 (n : Z) : Prop := - 2 ^ 63 ≤ n < 2 ^ 63.

(** The integer fields of the chunk are integers of 64 bits. *)
Definition int64_fields (c : Chunk) : Prop :=
  int64 (chunk_index c) ∧ int64 (total_chunks c) ∧ int64 (char_start c)
  ∧ int64 (char_end c) ∧ int64 (token_count c).

(** The keys that [metadata_to_chunk] reads with [metadata[...]]. *)
Definition required_keys : list string :=
  ["source_path"; "file_type"; "chunk_index"; "total_chunks"; "modified";
   "char_start"; "char_end"; "token_count"]%string.

End VectorStore.


(** ** search.py *)

Module Search.
Import TextChunker VectorStore.

(** The dict that [index_vault] returns, without its elapsed time. *)
Record index_stats : Type := {
  documents_scanned : Z;
  documents_indexed : Z;
  chunks_created : Z;
  chunks_deleted : Z
}.

(** What [index_single_file] finds on disk at an existing path: the
    result of [extract_text] and the file's [st_mtime]. *)
Record file_state : Type := {
  fs_text : option string;
  fs_mtime : float
}.

(** "Check if file needs re-indexing":
    [force or doc.modified > indexed_files.get(doc.path, 0)]. *)
Definition needs_indexing (force : bool) (indexed_files : gmap string float)
    (doc : Document) : bool :=
  let indexed_mtime := default 0%float (indexed_files !! path doc) in
  force || (indexed_mtime <? doc_modified doc)%float.

(** One pass through [for doc in documents] of [index_vault]. *)
Definition work_step (force : bool) (indexed_files : gmap string float)
    (acc : list Document * gset string) (doc : Document)
    : list Document * gset string :=
  let '(to_index, to_delete) := acc in
  let to_delete :=
    if bool_decide (path doc ∈ to_delete) then to_delete ∖ {[path doc]}
    else to_delete in
  if needs_indexing force indexed_files doc
  then (to_index ++ [doc], to_delete)
  else (to_index, to_delete).

(** "Determine what needs indexing": [to_index] and [to_delete]. *)
Definition determine_work (force : bool) (indexed_files : gmap string float)
    (documents : list Document) : list Document * gset string :=
  fold_left (work_step force indexed_files) documents ([], dom indexed_files).

Section Pipeline.

Variable count_tokens : string → Z.
Variable split_text : string → list string.
Variable path_name : string → string.
(** [str(Path(file_path))] and the file type read off the suffix. *)
Variable path_str : string → string.
Variable path_file_type : string → string.
(** [embedding_engine]: the model may fail. *)
Variable get_embedding : string → result (list float).
Variable get_embeddings_batch : list string → result (list (list float)).
Variable chroma_query :
  Collection → list (list float) → Z → option (gmap string meta_value)
  → result QueryResult.

(** [indexed_files = get_indexed_files(collection) if not force else {}]. *)
Definition indexed_files_of (force : bool) (coll : Collection)
    : result (gmap string float) :=
  if negb force then get_indexed_files coll else Ok ∅.

(** "Delete removed files". *)
Definition delete_removed (coll : Collection) (to_delete : list string)
    : Collection * Z :=
  fold_left (λ '(c, deleted_count) p,
               let '(c', n) := delete_by_source c p in (c', deleted_count + n))
            to_delete (coll, 0).

(** [index_vault], from the documents that [extract_all] found. *)
Definition index_vault (documents : list Document) (force : bool)
    (coll : Collection) : Collection * result index_stats :=
  match indexed_files_of force coll with
  | Err e => (coll, Err e)
  | Ok indexed_files =>
      let '(to_index, to_delete) := determine_work force indexed_files documents in
      let '(coll, deleted_count) := delete_removed coll (elements to_delete) in
      match to_index with
      | [] =>
          (coll, Ok {| documents_scanned := Z.of_nat (length documents);
                       documents_indexed := 0; chunks_created := 0;
                       chunks_deleted := deleted_count |})
      | _ =>
          let chunks := chunk_all count_tokens split_text to_index in
          match get_embeddings_batch (content <$> chunks) with
          | Err e => (coll, Err e)
          | Ok embeddings =>
              match upsert_chunks path_name coll chunks embeddings with
              | (coll, Err e) => (coll, Err e)
              | (coll, Ok _) =>
                  (coll, Ok {| documents_scanned := Z.of_nat (length documents);
                               documents_indexed := Z.of_nat (length to_index);
                               chunks_created := Z.of_nat (length chunks);
                               chunks_deleted := deleted_count |})
              end
          end
      end
  end.

Definition search_vault (query : string) (n_results : Z)
    (filters : option (gmap string meta_value)) (coll : Collection)
    : result (list SearchResult) :=
  query_embedding ← get_embedding query;
  search chroma_query coll query_embedding n_results filters.

(** [index_single_file]; [on_disk] is [None] when the path does not
    exist. *)
Definition index_single_file (file_path : string) (on_disk : option file_state)
    (coll : Collection) : Collection * result Z :=
  let p := path_str file_path in
  match on_disk with
  | None =>
      let '(coll, n) := delete_by_source coll p in (coll, Ok (- n))
  | Some st =>
      match fs_text st with
      | None | Some EmptyString => (coll, Ok 0)
      | Some text =>
          let doc := {| path := p; doc_content := text;
                        doc_file_type := path_file_type file_path;
                        doc_modified := fs_mtime st |} in
          match chunk_all count_tokens split_text [doc] with
          | [] => (coll, Ok 0)
          | chunks =>
              match get_embeddings_batch (content <$> chunks) with
              | Err e => (coll, Err e)
              | Ok embeddings =>
                  let '(coll, _) := delete_by_source coll p in
                  match upsert_chunks path_name coll chunks embeddings with
                  | (coll, Err e) => (coll, Err e)
                  | (coll, Ok _) => (coll, Ok (Z.of_nat (length chunks)))
                  end
              end
          end
      end
  end.

End Pipeline.

(** The record belongs to a document of the scan: its source path is
    the path of one of the documents. *)
Definition scanned (documents : list Document) (r : IndexRecord) : bool :=
  existsb (λ doc, has_source (path doc) r) documents.

(** No two documents of the scan have paths that differ at most in the
    direction of their separators. *)
Definition distinct_paths (documents : list Document) : Prop :=
  ∀ d1 d2, d1 ∈ documents → d2 ∈ documents →
    normalize_path (path d1) = normalize_path (path d2) → d1 = d2.

End Search.

(** ** file_reader.py *)

Module FileReader.

(** [CSV_MAX_ROWS]. *)
Definition CSV_MAX_ROWS : Z := 100.

(** The f-string [f"... ({i} more rows)"]. *)
Definition more_rows (i : nat) : string :=
  "... (" +:+ pretty (Z.of_nat i) +:+ " more rows)".

(** The loop of [extract_csv] over the rows that [csv.reader] yields;
    the reader is read as the list of what it yields in turn, a row or
    the [csv.Error] it raises there. [i] is the index of [enumerate],
    [lines] the list built so far. *)
Fixpoint csv_loop (i : nat) (lines : list string)
    (reader : list (result (list string))) : result (list string) :=
  match reader with
  | [] => Ok lines
  | Err e :: _ => Err e
  | Ok row :: rest =>
      if CSV_MAX_ROWS + 1 <=? Z.of_nat i
      then Ok (lines ++ [more_rows i])
      else csv_loop (S i) (lines ++ [PyStr.join " | " row]) rest
  end.

(** [extract_csv], from the text of the file and the rows the reader
    yields for it: the text itself when the reader raises. *)
Definition extract_csv (content : string) (reader : list (result (list string)))
    : string :=
  match csv_loop 0 [] reader with
  | Ok lines => PyStr.join PyStr.LF lines
  | Err _ => content
  end.

End FileReader.

(** ** Binary64 arithmetic

    The vocabulary for the two roundings of the score: the value of a
    mantissa at an exponent as a real number, the canonical form of the
    format, and what it means to be the nearest number of the format.
    The operations themselves are the kernel's, specified by [SFadd] and
    [SFdiv]. *)

Module Binary64.
Local Open Scope R_scope.

(** [2^e] as a real number. *)
Definition pow2 (e : Z) : R := powerRZ 2 e.

(** The value of the mantissa [m] at the exponent [e]. *)
Definition F2R (m e : Z) : R := (IZR m * pow2 e)%R.

Definition fexp64 (e : Z) : Z := SpecFloat.fexp prec emax e.

(** The mantissa [m] at the exponent [e] is in canonical form. *)
Definition canonical (m e : Z) : Prop := fexp64 (Zdigits2 m + e) = e.












End Binary64.

(** ** Concrete inputs

    A small tokenizer, splitter and embedder, and the documents and
    stores the examples below run the pipeline on. *)

Module Examples.
Import TextChunker VectorStore Search.

(** A tokenizer that counts 100 tokens per character. *)
Definition count_tokens (s : string) : Z := 100 * PyStr.len s.

(** A splitter that keeps a text within the budget whole and splits a
    longer one at its blank lines; as the recursive splitter of the
    library does with its [strip_whitespace] left on, it strips every
    piece and drops a piece that is empty then. *)
Definition split_text (s : string) : list string :=
  filter (λ piece, piece ≠ EmptyString)
    (PyStr.strip <$> (if count_tokens s <=? chunk_size then [s]
                      else PyStr.split s (PyStr.LF +:+ PyStr.LF))).

(** An embedder that maps a text to the one-dimensional vector of its
    token count. *)
Definition get_embedding (s : string) : result (list float) :=
  Ok [PrimFloat.of_uint63 (Uint63.of_Z (count_tokens s))].

Definition get_embeddings_batch (texts : list string) : result (list (list float)) :=
  mapM get_embedding texts.

(** The file name: the text after the last slash. *)
Definition path_name (p : string) : string := default p (PyStr.after_last "/" p).

(** A store that answers every query with no match. *)
Definition chroma_query (coll : Collection) (query_embeddings : list (list float))
    (n_results : Z) (where_ : option (gmap string meta_value)) : result QueryResult :=
  Ok {| qr_ids := [[]]; qr_documents := [[]]; qr_metadatas := [[]];
        qr_distances := [[]] |}.

Definition document (p text : string) (mtime : float) : Document :=
  {| path := p; doc_content := text; doc_file_type := "md"; doc_modified := mtime |}.

Definition two_paragraphs : string := "one" +:+ PyStr.LF +:+ PyStr.LF +:+ "two".


(** The store after a first full run over [a.md] with two paragraphs. *)
Definition store_a2 : Collection :=
  (index_vault count_tokens split_text path_name get_embeddings_batch
     [document "a.md" two_paragraphs 100] false ∅).1.

(** The record of the second paragraph in that store. *)
Definition record_a2_1 : IndexRecord :=
  {| rec_document := "two";
     rec_embedding := [PrimFloat.of_uint63 (Uint63.of_Z 300)];
     rec_metadata :=
       chunk_to_metadata path_name
         {| content := "two"; source_path := "a.md"; file_type := "md";
            chunk_index := 1; total_chunks := 2; modified := 100;
            char_start := 5; char_end := 8; headers := [];
            token_count := 300 |} |}.

(** The same file after an edit that leaves one paragraph. *)
Definition a_md_shrunk : Document := document "a.md" "one" 200.

(** The scan of the reconcile example of the specification, and the
    indexed-sources map it is compared with. *)
Definition scan_abc : list Document :=
  [document "A" "a" 100; document "B" "b" 200; document "C" "c" 50].

Definition indexed_ab : gmap string float := <["A" := 100%float]> (<["B" := 100%float]> ∅).

Definition chunk_of (p : string) (i : Z) (hs : list string) : Chunk :=
  {| content := "text"; source_path := p; file_type := "md"; chunk_index := i;
     total_chunks := 1; modified := 100; char_start := 0; char_end := 4;
     headers := hs; token_count := 1 |}.

(** The distance 0.1, as the binary64 number nearest to it. *)
Definition distance_a : float := 0x1.999999999999ap-4.

(** The distance 0.5. *)
Definition distance_b : float := 0x1p-1.

(** What a store answers that holds the chunks [a] and [b] at the
    distances [ds]. *)
Definition answer_ab (ds : list float) : QueryResult :=
  {| qr_ids := [["a.md::chunk_0"; "b.md::chunk_0"]];
     qr_documents := [["text"; "text"]];
     qr_metadatas := [[chunk_to_metadata path_name (chunk_of "a.md" 0 []);
                       chunk_to_metadata path_name (chunk_of "b.md" 0 [])]];
     qr_distances := [ds] |}.

Definition chroma_query_ab (ds : list float) (coll : Collection)
    (query_embeddings : list (list float)) (n_results : Z)
    (where_ : option (gmap string meta_value)) : result QueryResult :=
  Ok (answer_ab ds).

Definition result_of (p : string) (s d : float) : SearchResult :=
  {| chunk := chunk_of p 0 []; score := s; distance := d |}.

(** The results of the search when the store answers with the distances
    0.1 and 0.5. *)
Definition found_ab : list SearchResult :=
  [result_of "a.md" (1 / 0x1.199999999999ap+0) distance_a;
   result_of "b.md" (1 / 0x1.8p+0) distance_b].

(** The document behind [store_a2]. *)
Definition a_md : Document := document "a.md" two_paragraphs 100.

(** The two chunks of [a_md]. *)
Definition chunk_a2_0 : Chunk :=
  {| content := "one"; source_path := "a.md"; file_type := "md";
     chunk_index := 0; total_chunks := 2; modified := 100;
     char_start := 0; char_end := 3; headers := []; token_count := 300 |}.

Definition chunk_a2_1 : Chunk :=
  {| content := "two"; source_path := "a.md"; file_type := "md";
     chunk_index := 1; total_chunks := 2; modified := 100;
     char_start := 5; char_end := 8; headers := []; token_count := 300 |}.

(** The store after the full reconcile over the shrunk [a.md]. *)
Definition store_a2_shrunk : Collection :=
  (index_vault count_tokens split_text path_name get_embeddings_batch
     [a_md_shrunk] false store_a2).1.

(** Two chunks of two files, and an embedding for each. *)
Definition chunks_ab : list Chunk :=
  [chunk_of "a.md" 0 ["# A"]; chunk_of "b.md" 0 ["# B"; "## Part"]]%string.

Definition embeddings_ab : list (list float) := [[1%float]; [2%float]].

(** Two chunks of two paths that differ in the direction of a separator:
    one id. *)
Definition chunks_same_id : list Chunk :=
  [chunk_of "a/b.md" 0 []; chunk_of "a\b.md" 0 []]%string.

(** A document that was last modified at the epoch. *)
Definition epoch_md : Document := document "old.md" "text" 0.

(** A record without a source path. *)
Definition record_no_source : IndexRecord :=
  {| rec_document := "text"; rec_embedding := [];
     rec_metadata := {["modified" := MFloat 100]} |}.

(** An embedder whose model is not available. *)
Definition failing_embedder (texts : list string) : result (list (list float)) :=
  Err (EmbeddingError "model").

(** The store after the watcher has re-indexed the shrunk [a.md]. *)
Definition store_a_single : Collection :=
  (index_single_file count_tokens split_text path_name (λ p, p) (λ _, "md"%string)
     get_embeddings_batch "a.md"
     (Some {| fs_text := Some "one"%string; fs_mtime := 200 |}) store_a2).1.

(** The indexed-sources map of that store. *)
Definition indexed_a_200 : gmap string float := {["a.md"%string := 200%float]}.

End Examples.

(** * Properties *)

(** ** Strings *)

Section StringFacts.

Lemma append_cons (c : ascii) (s t : string) :
  String c s +:+ t = String c (s +:+ t).
Proof. reflexivity. Qed.

Lemma append_nil_l (s : string) : EmptyString +:+ s = s.
Proof. reflexivity. Qed.

Lemma append_nil_r (s : string) : s +:+ EmptyString = s.
Proof. induction s as [|c s IH]; [done | by rewrite append_cons, IH]. Qed.

Lemma append_assoc (a b c : string) : (a +:+ b) +:+ c = a +:+ (b +:+ c).
Proof. induction a as [|x a IH]; [done | by rewrite !append_cons, IH]. Qed.

Lemma length_append (a b : string) :
  String.length (a +:+ b) = (String.length a + String.length b)%nat.
Proof.
  induction a as [|x a IH]; [done|].
  rewrite append_cons. simpl. by rewrite IH.
Qed.

Lemma append_inv_tail (a b t : string) : a +:+ t = b +:+ t → a = b.
Proof.
  revert b. induction a as [|x a IH]; intros [|y b] H.
  - done.
  - apply (f_equal String.length) in H.
    rewrite append_nil_l, length_append in H. simpl in H. lia.
  - apply (f_equal String.length) in H.
    rewrite append_nil_l, length_append in H. simpl in H. lia.
  - rewrite !append_cons in H. injection H as -> H. f_equal. by apply IH.
Qed.

Lemma prefix_refl_app (p s : string) : String.prefix p (p +:+ s) = true.
Proof.
  induction p as [|c p IH]; [by destruct s|].
  rewrite append_cons. simpl. by destruct (ascii_dec c c).
Qed.

End StringFacts.

(** ** Chunk identity *)

Section ChunkIdentity.
Import TextChunker VectorStore.

Lemma after_last_app (c : ascii) (a d : string) :
  PyStr.after_last c d = None → PyStr.after_last c (a +:+ String c d) = Some d.
Proof.
  intros Hd. induction a as [|x a IH].
  - rewrite append_nil_l. simpl. by rewrite Hd, Ascii.eqb_refl.
  - rewrite append_cons. simpl. by rewrite IH.
Qed.

Lemma after_last_cons_ne (c x : ascii) (s : string) :
  x ≠ c → PyStr.after_last c s = None → PyStr.after_last c (String x s) = None.
Proof.
  intros Hx Hs. simpl. rewrite Hs.
  by destruct (Ascii.eqb_spec x c).
Qed.

Lemma pretty_N_char_not_underscore (x : N) : pretty_N_char x ≠ "_"%char.
Proof. unfold pretty_N_char. by repeat case_match. Qed.

(** A decimal numeral has no underscore. *)
Lemma pretty_N_go_no_underscore (x : N) (s : string) :
  PyStr.after_last "_" s = None → PyStr.after_last "_" (pretty_N_go x s) = None.
Proof.
  revert s. induction (N.lt_wf_0 x) as [x _ IH]; intros s Hs.
  destruct (decide (x = 0)%N) as [->|Hx].
  - by rewrite pretty_N_go_0.
  - rewrite pretty_N_go_step by lia. apply IH.
    + apply N.div_lt; lia.
    + apply after_last_cons_ne; [apply pretty_N_char_not_underscore | done].
Qed.

Lemma pretty_positive_no_underscore (p : positive) :
  PyStr.after_last "_" (pretty p) = None.
Proof.
  unfold pretty, pretty_positive, pretty, pretty_N.
  case_decide; [done|]. by apply pretty_N_go_no_underscore.
Qed.

Lemma pretty_Z_no_underscore (z : Z) : PyStr.after_last "_" (pretty z) = None.
Proof.
  destruct z as [|p|p]; unfold pretty, pretty_Z.
  - done.
  - apply pretty_positive_no_underscore.
  - change ("-" +:+ pretty p) with (String "-" (pretty p)).
    apply after_last_cons_ne; [done | apply pretty_positive_no_underscore].
Qed.

Lemma make_id_split (p : string) (i : Z) :
  make_id p i = (normalize_path p +:+ "::chunk") +:+ String "_" (pretty i).
Proof. unfold make_id. by rewrite append_assoc. Qed.

Lemma normalize_path_separators (p q : string) :
  same_up_to_separators p q → normalize_path p = normalize_path q.
Proof.
  unfold normalize_path.
  induction 1 as [|c s t _ IH|c d s t Hc Hd _ IH]; simpl.
  - done.
  - by rewrite IH.
  - rewrite IH. f_equal.
    destruct Hc as [->| ->], Hd as [->| ->]; reflexivity.
Qed.

(** C4: two source paths that differ only in the direction of their
    separators give, with one chunk index, one chunk id: the id depends on
    the path through its normalization only. *)
Theorem make_chunk_id_separator_invariant (c1 c2 : Chunk) :
  same_up_to_separators (source_path c1) (source_path c2) →
  chunk_index c1 = chunk_index c2 →
  make_chunk_id c1 = make_chunk_id c2
  ∧ make_chunk_id c1
    = normalize_path (source_path c1) +:+ "::chunk_" +:+ pretty (chunk_index c1).
Proof.
  intros Hp Hi. split; [|reflexivity].
  unfold make_chunk_id, make_id.
  by rewrite (normalize_path_separators _ _ Hp), Hi.
Qed.

Lemma make_id_inj (p q : string) (i j : Z) :
  make_id p i = make_id q j ↔ normalize_path p = normalize_path q ∧ i = j.
Proof.
  split.
  - intros H. rewrite !make_id_split in H.
    assert (pretty i = pretty j) as Hd.
    { apply (f_equal (PyStr.after_last "_")) in H.
      rewrite !after_last_app in H by apply pretty_Z_no_underscore.
      by injection H. }
    split; [|by apply (inj pretty)].
    rewrite Hd in H. apply append_inv_tail in H.
    by apply (append_inv_tail _ _ "::chunk").
  - intros [Hp Hi]. unfold make_id. by rewrite Hp, Hi.
Qed.

(** Two paths with one normal form differ in the direction of their
    separators at most. *)
Lemma normalize_path_same (p q : string) :
  normalize_path p = normalize_path q → same_up_to_separators p q.
Proof.
  unfold normalize_path. revert q.
  induction p as [|c p IH]; intros [|d q] H; simpl in H; try done.
  - constructor.
  - injection H as Hc Hpq. apply IH in Hpq.
    destruct (Ascii.eqb_spec c "\") as [->|Hc'],
      (Ascii.eqb_spec d "\") as [->|Hd'].
    + by apply sus_same.
    + subst d. apply sus_sep; [by right | by left | done].
    + subst c. apply sus_sep; [by left | by right | done].
    + subst d. by apply sus_same.
Qed.

(** C10: two chunks have one id exactly when their source paths differ in
    the direction of their separators at most, which is when the paths
    have one normal form, and their chunk indices are equal. The paths
    are arbitrary: a path that itself ends in ["::chunk_<digits>"] is no
    exception, as the decimal index of an id holds no underscore. *)
Theorem make_chunk_id_injective (c1 c2 : Chunk) :
  (make_chunk_id c1 = make_chunk_id c2
   ↔ same_up_to_separators (source_path c1) (source_path c2)
     ∧ chunk_index c1 = chunk_index c2)
  ∧ (same_up_to_separators (source_path c1) (source_path c2)
     ↔ normalize_path (source_path c1) = normalize_path (source_path c2)).
Proof.
  assert (same_up_to_separators (source_path c1) (source_path c2)
          ↔ normalize_path (source_path c1) = normalize_path (source_path c2))
    as Hsame.
  { split; [apply normalize_path_separators | apply normalize_path_same]. }
  split; [|exact Hsame].
  unfold make_chunk_id. rewrite make_id_inj. by rewrite Hsame.
Qed.

End ChunkIdentity.

(** ** The chunker *)

Section ChunkerFacts.
Import TextChunker.
Variable count_tokens : string → Z.
Variable split_text : string → list string.

Lemma set_total_chunks_indices (n : Z) (l : list Chunk) :
  chunk_index <$> (set_total_chunks n <$> l) = chunk_index <$> l.
Proof. induction l as [|c l IH]; [done | by rewrite !fmap_cons, IH]. Qed.

(** The loop of [chunk_document] appends one chunk per text, numbered by
    the enumeration, and leaves the chunks before it as they are. *)
Lemma chunk_loop_indices (doc : Document) (n : nat) (its : list (nat * string))
    (acc : list Chunk) (pos : Z) :
  chunk_index <$> (fold_left (chunk_step count_tokens doc n) its (acc, pos)).1
  = (chunk_index <$> acc) ++ (Z.of_nat <$> its.*1).
Proof.
  revert acc pos. induction its as [|[i text] its IH]; intros acc pos.
  - simpl. by rewrite app_nil_r.
  - simpl. rewrite IH, fmap_app. simpl. by rewrite <- app_assoc.
Qed.

Lemma chunk_loop_length (doc : Document) (n : nat) (its : list (nat * string))
    (acc : list Chunk) (pos : Z) :
  length (fold_left (chunk_step count_tokens doc n) its (acc, pos)).1
  = (length acc + length its)%nat.
Proof.
  revert acc pos. induction its as [|[i text] its IH]; intros acc pos.
  - simpl. lia.
  - simpl. rewrite IH, length_app. simpl. lia.
Qed.

Lemma chunk_document_length (doc : Document) :
  length (chunk_document count_tokens split_text doc)
  = length (split_text (doc_content doc)).
Proof.
  unfold chunk_document. rewrite length_map, chunk_loop_length.
  rewrite length_zip_with, length_seq. simpl. lia.
Qed.

Lemma chunk_document_index_list (doc : Document) :
  let chunks := chunk_document count_tokens split_text doc in
  chunk_index <$> chunks = Z.of_nat <$> seq 0 (length chunks).
Proof.
  intros chunks. unfold chunks at 2. rewrite chunk_document_length.
  unfold chunks, chunk_document.
  rewrite set_total_chunks_indices, chunk_loop_indices. simpl.
  rewrite fst_zip; [done | by rewrite length_seq].
Qed.

(** C5: in the chunk list of one chunking pass the chunk indices are
    0, 1, 2, ... in order, every chunk carries the same [total_chunks],
    the final number of chunks, and [0 <= chunk_index < total_chunks]. *)
Theorem chunk_document_indices (doc : Document) :
  let chunks := chunk_document count_tokens split_text doc in
  chunk_index <$> chunks = Z.of_nat <$> seq 0 (length chunks)
  ∧ Forall (λ c, total_chunks c = Z.of_nat (length chunks)) chunks
  ∧ Forall (λ c, 0 ≤ chunk_index c < total_chunks c) chunks
  ∧ length chunks = length (split_text (doc_content doc)).
Proof.
  intros chunks.
  assert (chunk_index <$> chunks = Z.of_nat <$> seq 0 (length chunks)) as Hidx
    by apply chunk_document_index_list.
  assert (Forall (λ c, total_chunks c = Z.of_nat (length chunks)) chunks) as Htot.
  { unfold chunks at 2. unfold chunk_document.
    apply Forall_fmap, Forall_forall. intros c _. simpl.
    unfold chunks, chunk_document. by rewrite length_map. }
  split; [done|]. split; [done|]. split; [|apply chunk_document_length].
  apply Forall_lookup. intros i c Hc.
  rewrite (proj1 (Forall_lookup _ _) Htot i c Hc).
  assert ((chunk_index <$> chunks) !! i = Some (chunk_index c)) as Hi
    by (by rewrite list_lookup_fmap, Hc).
  rewrite Hidx, list_lookup_fmap in Hi.
  apply lookup_lt_Some in Hc.
  rewrite lookup_seq_lt in Hi by done. simpl in Hi.
  injection Hi as <-. lia.
Qed.

End ChunkerFacts.

(** ** Header lineage *)

Section HeaderLineage.
Import TextChunker.

Lemma prefix_cons (a b : ascii) (p s : string) :
  String.prefix (String a p) (String b s) = Ascii.eqb b a && String.prefix p s.
Proof.
  simpl. destruct (ascii_dec a b) as [->|Hne].
  - by rewrite Ascii.eqb_refl.
  - destruct (Ascii.eqb_spec b a); [by subst | done].
Qed.

Lemma prefix_nil_l (s : string) : String.prefix EmptyString s = true.
Proof. by destruct s. Qed.

Lemma prefix_nil_r (a : ascii) (p : string) :
  String.prefix (String a p) EmptyString = false.
Proof. reflexivity. Qed.

Ltac case_chars :=
  repeat first
    [ progress cbn [TextChunker.leading_hashes fst snd andb negb]
    | match goal with
      | |- context [Ascii.eqb ?a ?b] =>
          destruct (Ascii.eqb_spec a b); subst; try discriminate; try congruence
      end ].

(** The three tests of [extract_headers] read the level of the line. *)
Lemma header_step_spec (st : header_stack) (line : string) :
  header_step st line = lineage_step_spec st line.
Proof.
  unfold header_step, lineage_step_spec, header_level, PyStr.startswith.
  destruct line as [|c1 [|c2 [|c3 [|c4 [|c5 line]]]]];
    rewrite ?prefix_cons, ?prefix_nil_l, ?prefix_nil_r;
    case_chars; repeat case_match; simplify_eq; reflexivity.
Qed.

Lemma prefix_nonempty (p s : string) :
  p ≠ EmptyString → String.prefix p s = true → s ≠ EmptyString.
Proof. destruct p, s; done. Qed.

Lemma header_step_truthy (st : header_stack) (line : string) :
  stack_truthy st → stack_truthy (header_step st line).
Proof.
  intros (H1 & H2 & H3). unfold header_step, PyStr.startswith.
  repeat case_match; try done;
    repeat match goal with
      | H : _ && _ = true |- _ => apply andb_prop in H as [H _]
      end;
    repeat split; simpl; intros h Hh; simplify_eq; eauto;
    by eapply prefix_nonempty; [|eassumption].
Qed.

Lemma header_loop_truthy (lines : list string) (st : header_stack) :
  stack_truthy st → stack_truthy (fold_left header_step lines st).
Proof.
  revert st. induction lines as [|line lines IH]; intros st Hst; [done|].
  simpl. by apply IH, header_step_truthy.
Qed.

Lemma active_headers_truthy (st : header_stack) :
  stack_truthy st →
  active_headers st
  = option_list (current_h1 st) ++ option_list (current_h2 st)
    ++ option_list (current_h3 st).
Proof.
  intros (H1 & H2 & H3). unfold active_headers.
  destruct (current_h1 st) as [[|??]|], (current_h2 st) as [[|??]|],
    (current_h3 st) as [[|??]|]; simpl; try done;
    solve [by destruct (H1 _ eq_refl) | by destruct (H2 _ eq_refl)
          | by destruct (H3 _ eq_refl)].
Qed.

Lemma header_loop_spec (lines : list string) (st : header_stack) :
  fold_left header_step lines st = fold_left lineage_step_spec lines st.
Proof.
  revert st. induction lines as [|line lines IH]; intros st; [done|].
  simpl. by rewrite header_step_spec, IH.
Qed.

Lemma slice_to_app (a b : string) :
  PyStr.slice_to (a +:+ b) (PyStr.len a) = a.
Proof.
  unfold PyStr.slice_to, PyStr.len.
  destruct (Z.ltb_spec (Z.of_nat (String.length a)) 0) as [?|_]; [lia|].
  rewrite length_append.
  replace (Z.to_nat _) with (String.length a) by lia.
  induction a as [|c a IH].
  - rewrite append_nil_l. by destruct b.
  - rewrite append_cons. cbn [String.length String.substring]. by rewrite IH.
Qed.

Lemma slice_to_whole (a : string) : PyStr.slice_to a (PyStr.len a) = a.
Proof.
  pose proof (slice_to_app a EmptyString) as H. by rewrite append_nil_r in H.
Qed.

Lemma text_lines_nonempty (s : string) : text_lines s ≠ [].
Proof.
  destruct s as [|c s]; [done|]. simpl.
  destruct (Ascii.eqb c "010"); [done|]. by destruct (text_lines s).
Qed.

(** The split of the source at line feeds gives the lines of the text. *)
Lemma split_go_lines (cur s : string) :
  PyStr.split_go PyStr.LF 0 cur s
  = match text_lines s with
    | line :: lines => (cur +:+ line) :: lines
    | [] => [cur]
    end.
Proof.
  revert cur. induction s as [|c s IH]; intros cur.
  - simpl. by rewrite append_nil_r.
  - cbn [PyStr.split_go text_lines]. unfold PyStr.LF at 1.
    rewrite prefix_cons, prefix_nil_l, andb_true_r.
    change (ascii_of_nat 10) with "010"%char.
    destruct (Ascii.eqb c "010").
    + rewrite append_nil_r. f_equal. simpl String.length.
      rewrite IH. pose proof (text_lines_nonempty s).
      destruct (text_lines s); [done|]. by rewrite append_nil_l.
    + rewrite IH. destruct (text_lines s) as [|line lines]; [done|].
      by rewrite append_assoc, append_cons, append_nil_l.
Qed.

Lemma split_lines (s : string) : PyStr.split s PyStr.LF = text_lines s.
Proof.
  unfold PyStr.split. rewrite split_go_lines.
  pose proof (text_lines_nonempty s).
  destruct (text_lines s) as [|line lines]; [done|]. by rewrite append_nil_l.
Qed.

(** C6: the header lineage at a chunk start offset, the text before the
    offset being [before] and the text from it on [after], is read off a
    three-level stack maintained over all lines of [before] and over
    nothing else, as the specification says: a level-1 header clears
    levels 2 and 3, a level-2 header clears level 3, deeper headers are
    ignored. The result lists the active levels, outermost first, so it
    has at most three entries. *)
Theorem extract_headers_lineage (before after : string) :
  let st := fold_left lineage_step_spec (text_lines before) no_headers in
  extract_headers (before +:+ after) (PyStr.len before)
  = option_list (current_h1 st) ++ option_list (current_h2 st)
    ++ option_list (current_h3 st)
  ∧ (length (extract_headers (before +:+ after) (PyStr.len before)) ≤ 3)%nat.
Proof.
  intros st. unfold extract_headers, lines_before.
  rewrite slice_to_app, split_lines.
  assert (stack_truthy (fold_left header_step (text_lines before) no_headers))
    as Hst by by apply header_loop_truthy.
  rewrite active_headers_truthy by done.
  rewrite header_loop_spec. fold st. split; [done|].
  destruct (current_h1 st), (current_h2 st), (current_h3 st); simpl; lia.
Qed.

End HeaderLineage.

(** ** Small inputs of the chunker *)

Section SmallInputs.
Import TextChunker.
Variable count_tokens : string → Z.
Variable split_text : string → list string.

Lemma prefix_substring (k : nat) (s : string) :
  String.prefix (String.substring 0 k s) s = true.
Proof.
  revert k. induction s as [|c s IH]; intros [|k]; try done.
  simpl String.substring. by rewrite prefix_cons, Ascii.eqb_refl, IH.
Qed.

Lemma prefix_refl (s : string) : String.prefix s s = true.
Proof.
  induction s as [|c s IH]; [done|].
  by rewrite prefix_cons, Ascii.eqb_refl, IH.
Qed.

Lemma find_from_prefix (sub s : string) (i : nat) :
  String.prefix sub s = true → PyStr.find_from sub s i = Some i.
Proof. intros H. destruct s; cbn [PyStr.find_from]; by rewrite H. Qed.

(** The leading fragment of a text is found at offset 0 of that text. *)
Lemma find_leading_fragment (text : string) :
  PyStr.find text
    (if 50 <=? PyStr.len text then PyStr.slice_to text 50 else text)
    (Z.max 0 (0 - 150)) = 0.
Proof.
  unfold PyStr.find. change (Z.max 0 (0 - 150)) with 0. simpl.
  destruct (Z.ltb_spec (PyStr.len text) 0) as [Hlen|_];
    [unfold PyStr.len in Hlen; lia|].
  rewrite find_from_prefix; [done|].
  destruct (50 <=? PyStr.len text);
    [apply prefix_substring | apply prefix_refl].
Qed.

Lemma extract_headers_at_0 (content : string) : extract_headers content 0 = [].
Proof.
  unfold extract_headers, lines_before, PyStr.slice_to.
  change (0 <? 0) with false. cbv iota.
  replace (Z.to_nat (Z.min 0 (PyStr.len content))) with 0%nat
    by (unfold PyStr.len; lia).
  by destruct content.
Qed.

(** *** Stripped texts *)



















End SmallInputs.

(** ** Search *)

Section SearchFacts.
Import TextChunker VectorStore Search.
Variable get_embedding : string → result (list float).
Variable chroma_query :
  Collection → list (list float) → Z → option (gmap string meta_value)
  → result QueryResult.

Lemma search_no_ids (coll : Collection) (query_embedding : list float)
    (n_results : Z) (filters : option (gmap string meta_value))
    (results : QueryResult) :
  chroma_query coll [query_embedding] n_results (where_of filters) = Ok results →
  reports_no_ids results →
  search chroma_query coll query_embedding n_results filters = Ok [].
Proof.
  intros Hq Hno. unfold search. rewrite Hq. simpl.
  by destruct Hno as [-> | [rest ->]].
Qed.

(** C8: when the store query reports no matching id, the search returns
    the empty list, for every query and store; a failure of the embedding
    step or of the store query is the outcome [Err], which is not the
    empty list. *)
Theorem search_zero_results_not_an_error (query : string) (n_results : Z)
    (filters : option (gmap string meta_value)) (coll : Collection) :
  (∀ query_embedding results,
     get_embedding query = Ok query_embedding →
     chroma_query coll [query_embedding] n_results (where_of filters) = Ok results →
     reports_no_ids results →
     search chroma_query coll query_embedding n_results filters = Ok []
     ∧ search_vault get_embedding chroma_query query n_results filters coll = Ok [])
  ∧ (∀ e, get_embedding query = Err e →
       search_vault get_embedding chroma_query query n_results filters coll = Err e)
  ∧ (∀ query_embedding e,
       get_embedding query = Ok query_embedding →
       chroma_query coll [query_embedding] n_results (where_of filters) = Err e →
       search chroma_query coll query_embedding n_results filters = Err e
       ∧ search_vault get_embedding chroma_query query n_results filters coll = Err e)
  ∧ (∀ e, @Err (list SearchResult) e ≠ Ok []).
Proof.
  unfold search_vault. split; [|split; [|split]].
  - intros query_embedding results Hemb Hq Hno. rewrite Hemb. simpl.
    split; by eapply search_no_ids.
  - by intros e ->.
  - intros query_embedding e Hemb Hq. rewrite Hemb. simpl.
    unfold search. by rewrite Hq.
  - done.
Qed.

End SearchFacts.

(** ** The score in binary64 *)

Section Binary64Facts.
Import VectorStore Binary64.
Local Open Scope R_scope.

Lemma pow2_pos (e : Z) : 0 < pow2 e.
Proof. apply powerRZ_lt. lra. Qed.

Lemma pow2_add (a b : Z) : pow2 (a + b) = pow2 a * pow2 b.
Proof. apply powerRZ_add. lra. Qed.



Lemma pow2_IZR (k : Z) : (0 <= k)%Z → pow2 k = IZR (2 ^ k).
Proof.
  intros Hk. unfold pow2. destruct k as [|p|p]; [done| |lia].
  simpl powerRZ. by rewrite pow_IZR, positive_nat_Z.
Qed.

Lemma pow2_ge_1 (k : Z) : (0 <= k)%Z → 1 <= pow2 k.
Proof.
  intros Hk. rewrite pow2_IZR by done. apply IZR_le.
  pose proof (Z.pow_pos_nonneg 2 k). lia.
Qed.

Lemma pow2_le (a b : Z) : (a <= b)%Z → pow2 a <= pow2 b.
Proof.
  intros Hab. replace b with (a + (b - a))%Z by lia. rewrite pow2_add.
  pose proof (pow2_pos a). pose proof (pow2_ge_1 (b - a) ltac:(lia)). nra.
Qed.



Lemma digits2_pos_size (p : positive) : digits2_pos p = Pos.size p.
Proof. induction p as [p IH|p IH|]; simpl; by rewrite ?IH. Qed.

(** A positive [m] has [Zdigits2 m] binary digits. *)
Lemma digits_bounds (m : Z) :
  (0 < m)%Z → (2 ^ (Zdigits2 m - 1) <= m < 2 ^ Zdigits2 m)%Z.
Proof.
  destruct m as [|p|p]; try lia. intros _. simpl Zdigits2.
  rewrite digits2_pos_size.
  pose proof (Pos.size_gt p) as Hgt. pose proof (Pos.size_le p) as Hle.
  apply Pos2Z.pos_lt_pos in Hgt. apply Pos2Z.pos_le_pos in Hle.
  rewrite Pos2Z.inj_pow in Hgt, Hle.
  replace (Z.pos (Pos.size p)) with (Z.succ (Z.pos (Pos.size p) - 1)) in Hle by lia.
  rewrite Z.pow_succ_r in Hle by lia. lia.
Qed.


Lemma digits_pos (m : Z) : (0 < m)%Z → (0 < Zdigits2 m)%Z.
Proof. destruct m; simpl; lia. Qed.


Lemma F2R_le (m1 m2 e : Z) : (m1 <= m2)%Z → F2R m1 e <= F2R m2 e.
Proof.
  intros H. unfold F2R. apply Rmult_le_compat_r; [|by apply IZR_le].
  left. apply pow2_pos.
Qed.

Lemma F2R_lt (m1 m2 e : Z) : (m1 < m2)%Z → F2R m1 e < F2R m2 e.
Proof.
  intros H. unfold F2R. apply Rmult_lt_compat_r; [apply pow2_pos | by apply IZR_lt].
Qed.




Lemma F2R_pow2 (k e : Z) : (0 <= k)%Z → F2R (2 ^ k) e = pow2 (k + e).
Proof. intros Hk. unfold F2R. by rewrite pow2_add, (pow2_IZR k). Qed.

(** A positive mantissa [m] at [e] has its value between [2^(d+e-1)] and
    [2^(d+e)], [d] its number of digits. *)
Lemma F2R_bounds (m e : Z) :
  (0 < m)%Z → pow2 (Zdigits2 m + e - 1) <= F2R m e < pow2 (Zdigits2 m + e).
Proof.
  intros Hm. pose proof (digits_bounds m Hm) as [Hlo Hhi].
  pose proof (digits_pos m Hm).
  replace (Zdigits2 m + e - 1)%Z with ((Zdigits2 m - 1) + e)%Z by lia.
  rewrite <- !F2R_pow2 by lia.
  split; [by apply F2R_le | by apply F2R_lt].
Qed.

Lemma fexp64_eq (e : Z) : fexp64 e = Z.max (e - 53) (-1074).
Proof. reflexivity. Qed.


(** *** Shifting a mantissa right under a round bit and a sticky bit *)












(** *** Rounding to nearest *)












(** *** Values of the format and their order *)



(** In canonical form a larger exponent means a larger value. *)
Lemma canonical_exponent_lt (m1 e1 m2 e2 : Z) :
  (0 < m1)%Z → (0 < m2)%Z → canonical m1 e1 → canonical m2 e2 →
  (e1 < e2)%Z → F2R m1 e1 < F2R m2 e2.
Proof.
  intros Hm1 Hm2 Hc1 Hc2 He. unfold canonical in *. rewrite fexp64_eq in *.
  pose proof (F2R_bounds m1 e1 Hm1) as [_ Hhi].
  pose proof (F2R_bounds m2 e2 Hm2) as [Hlo _].
  eapply Rlt_le_trans; [exact Hhi|]. eapply Rle_trans; [|exact Hlo].
  apply pow2_le. lia.
Qed.


(** The comparison of two positive numbers of the format is the
    comparison of their values. *)
Lemma SFcompare_canonical (m1 m2 : positive) (e1 e2 : Z) :
  canonical (Z.pos m1) e1 → canonical (Z.pos m2) e2 →
  match SFcompare (S754_finite false m1 e1) (S754_finite false m2 e2) with
  | Some Lt => F2R (Z.pos m1) e1 < F2R (Z.pos m2) e2
  | Some Eq => F2R (Z.pos m1) e1 = F2R (Z.pos m2) e2
  | Some Gt => F2R (Z.pos m2) e2 < F2R (Z.pos m1) e1
  | None => False
  end.
Proof.
  intros Hc1 Hc2. simpl.
  destruct (Z.compare_spec e1 e2) as [->|Hlt|Hgt].
  - rewrite Pos.compare_cont_spec. simpl.
    destruct (Pos.compare_spec m1 m2) as [->|Hlt|Hgt].
    + done.
    + apply F2R_lt. lia.
    + apply F2R_lt. lia.
  - by apply canonical_exponent_lt.
  - by apply canonical_exponent_lt.
Qed.


Lemma SFltb_canonical (m1 m2 : positive) (e1 e2 : Z) :
  canonical (Z.pos m1) e1 → canonical (Z.pos m2) e2 →
  SFltb (S754_finite false m1 e1) (S754_finite false m2 e2) = true
  ↔ F2R (Z.pos m1) e1 < F2R (Z.pos m2) e2.
Proof.
  intros Hc1 Hc2. pose proof (SFcompare_canonical m1 m2 e1 e2 Hc1 Hc2) as H.
  unfold SFltb.
  destruct (SFcompare _ _) as [[]|]; split; try done; try lra.
Qed.

(** *** Rounding a mantissa and an exponent: [binary_round] *)





(** *** The sum [1 + d] *)















(** *** The quotient [1 / y] *)








(** *** The score [1 / (1 + d)] *)





(** *** The score on the floats of the kernel *)







End Binary64Facts.

Section SearchScores.
Import TextChunker VectorStore Search.
Variable chroma_query :
  Collection → list (list float) → Z → option (gmap string meta_value)
  → result QueryResult.

Lemma mapM_result_lookup {A B} (f : A → result B) (l : list A) (rs : list B) :
  mapM f l = Ok rs →
  ∀ (i : nat) r, rs !! i = Some r → ∃ x, l !! i = Some x ∧ f x = Ok r.
Proof.
  revert rs. induction l as [|x l IH]; intros rs Hm i r Hr.
  - simpl in Hm. injection Hm as <-. by rewrite lookup_nil in Hr.
  - cbn in Hm. destruct (f x) as [y|e] eqn:Hfx; [|discriminate].
    cbn in Hm. destruct (mapM f l) as [k|e] eqn:Hk; [|discriminate].
    cbn in Hm. injection Hm as <-.
    destruct i as [|i]; simpl in Hr.
    + injection Hr as <-. exists x. by split.
    + apply (IH k eq_refl i r Hr).
Qed.


Lemma search_results_at (coll : Collection) (query_embedding : list float)
    (n_results : Z) (filters : option (gmap string meta_value))
    (found : list SearchResult) :
  search chroma_query coll query_embedding n_results filters = Ok found →
  ∃ results,
    chroma_query coll [query_embedding] n_results (where_of filters) = Ok results
    ∧ ∀ (i : nat) r, found !! i = Some r → search_result_at results i = Ok r.
Proof.
  unfold search. intros H.
  destruct (chroma_query coll [query_embedding] n_results (where_of filters))
    as [results|e]; [|discriminate].
  exists results. split; [done|]. intros i r Hr. cbn in H.
  destruct (qr_ids results) as [|[|id ids0] rest].
  - injection H as <-. by rewrite lookup_nil in Hr.
  - injection H as <-. by rewrite lookup_nil in Hr.
  - destruct (mapM_result_lookup _ _ _ H i r Hr) as (x & Hx & Hfx).
    apply lookup_seq in Hx as [-> _]. exact Hfx.
Qed.


End SearchScores.

(** ** Full reconcile: what to index and what to delete *)

Section Reconcile.
Import TextChunker VectorStore Search.

Lemma work_loop (force : bool) (indexed_files : gmap string float)
    (documents to_index : list Document) (to_delete : gset string) :
  fold_left (work_step force indexed_files) documents (to_index, to_delete)
  = (to_index
       ++ filter (λ doc, needs_indexing force indexed_files doc = true) documents,
     to_delete ∖ list_to_set (path <$> documents)).
Proof.
  revert to_index to_delete.
  induction documents as [|doc documents IH]; intros to_index to_delete.
  - simpl. rewrite app_nil_r. f_equal. set_solver.
  - cbn [fold_left]. unfold work_step at 2.
    assert ((if bool_decide (path doc ∈ to_delete)
             then to_delete ∖ {[path doc]} else to_delete)
            = to_delete ∖ {[path doc]}) as ->.
    { case_bool_decide; set_solver. }
    rewrite filter_cons, fmap_cons.
    destruct (needs_indexing force indexed_files doc) eqn:Hneed; rewrite IH.
    + rewrite decide_True by done. rewrite <- app_assoc.
      f_equal. set_solver.
    + rewrite decide_False by done. f_equal. set_solver.
Qed.

Lemma determine_work_eq (force : bool) (indexed_files : gmap string float)
    (documents : list Document) :
  determine_work force indexed_files documents
  = (filter (λ doc, needs_indexing force indexed_files doc = true) documents,
     dom indexed_files ∖ list_to_set (path <$> documents)).
Proof. unfold determine_work. by rewrite work_loop. Qed.

Lemma indexed_files_of_force (coll : Collection) :
  indexed_files_of true coll = Ok ∅.
Proof. reflexivity. Qed.

End Reconcile.

Section ReconcileExamples.
Import TextChunker VectorStore Search Examples.

Lemma store_a2_indexed : get_indexed_files store_a2 = Ok {["a.md" := 100%float]}.
Proof. vm_compute. reflexivity. Qed.

(** The reconcile example of the specification: indexed [{A:100, B:100}],
    scan [{A:100, B:200, C:50}], no force. *)
Example reconcile_example :
  path <$> (determine_work false indexed_ab scan_abc).1 = ["B"; "C"]%string
  ∧ (determine_work false indexed_ab scan_abc).2 = ∅.
Proof. split; vm_compute; reflexivity. Qed.

End ReconcileExamples.

Section IdentityAndChunkerExamples.
Import TextChunker VectorStore Examples.

Lemma make_chunk_id_separator_invariant_witness :
  make_chunk_id (chunk_of "a/b.md" 3 []) = make_chunk_id (chunk_of "a\b.md" 3 [])
  ∧ make_chunk_id (chunk_of "a/b.md" 3 [])
    = normalize_path "a/b.md" +:+ "::chunk_" +:+ pretty 3.
Proof.
  apply (make_chunk_id_separator_invariant
           (chunk_of "a/b.md" 3 []) (chunk_of "a\b.md" 3 [])).
  - simpl.
    repeat first
      [ apply sus_nil | apply sus_same
      | apply sus_sep; [by left | by right |] ].
  - reflexivity.
Defined.



(** A document of two paragraphs, over the budget of the example
    tokenizer: two chunks, numbered 0 and 1, each stamped with the total. *)
Example chunk_document_two_paragraphs :
  (λ c, (content c, chunk_index c, total_chunks c, char_start c, char_end c))
    <$> chunk_document count_tokens split_text (document "a.md" two_paragraphs 100)
  = [("one"%string, 0, 2, 0, 3); ("two"%string, 1, 2, 5, 8)].
Proof. vm_compute. reflexivity. Qed.

(** The header lineage of the chunker's own test document. *)
Example extract_headers_test_document :
  let content :=
    ("# Main Title" +:+ PyStr.LF +:+ PyStr.LF +:+ "Some intro text." +:+ PyStr.LF
     +:+ PyStr.LF +:+ "## Section One" +:+ PyStr.LF +:+ PyStr.LF
     +:+ "Content in section one." +:+ PyStr.LF +:+ PyStr.LF
     +:+ "### Subsection A" +:+ PyStr.LF +:+ PyStr.LF +:+ "More details here."
     +:+ PyStr.LF +:+ PyStr.LF +:+ "## Section Two" +:+ PyStr.LF +:+ PyStr.LF
     +:+ "Different section." +:+ PyStr.LF)%string in
  extract_headers content 20 = ["# Main Title"]%string
  ∧ extract_headers content 91
    = ["# Main Title"; "## Section One"; "### Subsection A"]%string
  ∧ extract_headers content 127 = ["# Main Title"; "## Section Two"]%string.
Proof. vm_compute. repeat split; reflexivity. Qed.

End IdentityAndChunkerExamples.

Section SearchExamples.
Import TextChunker VectorStore Search Examples.

(** The empty query against the empty store. *)
Example search_empty_query_empty_store :
  search_vault get_embedding chroma_query "" 10 None ∅ = Ok [].
Proof. reflexivity. Qed.

(** The query of the specification: the store answers with [a] at the
    distance 0.1 and [b] at 0.5, and the search returns them in that
    order, with the scores [1/1.1] and [1/1.5]. *)
Example search_distances_example :
  search (chroma_query_ab [distance_a; distance_b]) ∅ [] 2 None
  = Ok found_ab
  ∧ (1 / 0x1.8p+0 <? 1 / 0x1.199999999999ap+0)%float = true
  ∧ (0 <? 1 / 0x1.8p+0)%float = true
  ∧ (1 / 0x1.199999999999ap+0 <=? 1)%float = true.
Proof. vm_compute. repeat split; reflexivity. Qed.




End SearchExamples.

(** ** Metadata round trip *)

Section MetadataRoundTrip.
Import TextChunker VectorStore.
Variable path_name : string → string.

Lemma contains_cons (sub : string) (c : ascii) (s : string) :
  PyStr.contains sub (String c s)
  = String.prefix sub (String c s) || PyStr.contains sub s.
Proof. reflexivity. Qed.

Lemma endswith_cons (c : ascii) (s suf : string) :
  PyStr.endswith (String c s) suf
  = String.eqb (String c s) suf || PyStr.endswith s suf.
Proof. reflexivity. Qed.

Lemma split_go_nil (sep cur : string) (skip : nat) :
  PyStr.split_go sep skip cur EmptyString = [cur].
Proof. reflexivity. Qed.

Lemma split_go_skip (sep cur : string) (k : nat) (c : ascii) (s : string) :
  PyStr.split_go sep (S k) cur (String c s) = PyStr.split_go sep k cur s.
Proof. reflexivity. Qed.

Lemma split_go_scan (sep cur : string) (c : ascii) (s : string) :
  PyStr.split_go sep 0 cur (String c s)
  = if String.prefix sep (String c s)
    then cur :: PyStr.split_go sep (String.length sep - 1) EmptyString s
    else PyStr.split_go sep 0 (cur +:+ String c EmptyString) s.
Proof. reflexivity. Qed.

(** A text without the separator is one piece. *)
Lemma split_go_no_sep (sep cur h : string) :
  PyStr.contains sep h = false →
  PyStr.split_go sep 0 cur h = [cur +:+ h].
Proof.
  revert cur. induction h as [|c h IH]; intros cur Hh.
  - by rewrite split_go_nil, append_nil_r.
  - rewrite contains_cons in Hh. apply orb_false_elim in Hh as [Hp Hh].
    rewrite split_go_scan, Hp, IH by done.
    by rewrite append_assoc.
Qed.

(** The delimiter does not start inside a header that neither contains
    it nor ends with its first two characters. *)
Lemma no_delimiter_across (c : ascii) (h t : string) :
  PyStr.contains " > " (String c h) = false →
  PyStr.endswith (String c h) " >" = false →
  String.prefix " > " (String c (h +:+ String " " (String ">" (String " " t))))
  = false.
Proof.
  intros Hc He. rewrite contains_cons in Hc.
  apply orb_false_elim in Hc as [Hp _].
  rewrite endswith_cons in He. apply orb_false_elim in He as [He _].
  revert Hp He. rewrite !prefix_cons.
  destruct (Ascii.eqb_spec c " ") as [->|]; [|done].
  destruct h as [|c2 h]; [done|]. rewrite append_cons, !prefix_cons.
  destruct (Ascii.eqb_spec c2 ">") as [->|]; [|done].
  destruct h as [|c3 h]; [done|]. rewrite append_cons, !prefix_cons.
  destruct (Ascii.eqb_spec c3 " ") as [->|]; [|done].
  by rewrite !prefix_nil_l.
Qed.

(** Reading a header and the delimiter after it gives the header as a
    piece and goes on behind the delimiter. *)
Lemma split_go_piece (cur h t : string) :
  PyStr.contains " > " h = false →
  PyStr.endswith h " >" = false →
  PyStr.split_go " > " 0 cur (h +:+ String " " (String ">" (String " " t)))
  = (cur +:+ h) :: PyStr.split_go " > " 0 EmptyString t.
Proof.
  revert cur. induction h as [|c h IH]; intros cur Hc He.
  - rewrite append_nil_l, append_nil_r, split_go_scan.
    rewrite !prefix_cons, prefix_nil_l. simpl andb. cbv iota.
    change (String.length " > " - 1)%nat with 2%nat.
    by rewrite !split_go_skip.
  - rewrite append_cons, split_go_scan, no_delimiter_across by done.
    rewrite contains_cons in Hc. apply orb_false_elim in Hc as [_ Hc].
    rewrite endswith_cons in He. apply orb_false_elim in He as [_ He].
    rewrite IH by done. by rewrite append_assoc.
Qed.

Lemma join_cons2 (sep h h' : string) (hs : list string) :
  PyStr.join sep (h :: h' :: hs) = h +:+ sep +:+ PyStr.join sep (h' :: hs).
Proof. reflexivity. Qed.

Lemma split_go_join (cur h : string) (hs : list string) :
  Forall (λ h, PyStr.contains " > " h = false) (h :: hs) →
  (∀ i x, (h :: hs) !! i = Some x → (S i < length (h :: hs))%nat →
          PyStr.endswith x " >" = false) →
  PyStr.split_go " > " 0 cur (PyStr.join " > " (h :: hs)) = (cur +:+ h) :: hs.
Proof.
  revert cur h. induction hs as [|h' hs IH]; intros cur h Hc He.
  - apply split_go_no_sep. by inversion Hc.
  - rewrite join_cons2.
    change (h +:+ " > " +:+ PyStr.join " > " (h' :: hs))
      with (h +:+ String " " (String ">" (String " " (PyStr.join " > " (h' :: hs))))).
    inversion Hc as [|?? Hh Hc']; subst.
    rewrite split_go_piece; [|done|].
    + rewrite IH; [done | done |].
      intros i x Hx Hi. apply (He (S i) x); [done | simpl in *; lia].
    + apply (He 0%nat h); [done | simpl; lia].
Qed.

Lemma decode_encode_headers (hs : list string) :
  Forall (λ h, h ≠ EmptyString ∧ PyStr.contains " > " h = false) hs →
  (∀ i h, hs !! i = Some h → (S i < length hs)%nat →
          PyStr.endswith h " >" = false) →
  decode_headers (encode_headers hs) = hs.
Proof.
  intros Hok He. destruct hs as [|h hs]; [done|].
  unfold encode_headers, decode_headers.
  assert (PyStr.split (PyStr.join " > " (h :: hs)) " > " = h :: hs) as Hsplit.
  { unfold PyStr.split. rewrite split_go_join; [done | | done].
    eapply Forall_impl; [exact Hok | by intros ? [_ ?]]. }
  destruct (PyStr.join " > " (h :: hs)) eqn:Hj; [|by rewrite <- Hj in *].
  exfalso. inversion Hok as [|?? [Hne _] _]; subst.
  destruct h as [|c h]; [done|]. by destruct hs.
Qed.

(** C9, as the code has it: rebuilding a chunk from its metadata and its
    content gives the chunk back, in every field, when its headers are
    non-empty, none contains the delimiter [" > "], and none but the
    last ends with [" >"]. *)
Theorem metadata_round_trip (c : Chunk) :
  Forall (λ h, h ≠ EmptyString ∧ PyStr.contains " > " h = false) (headers c) →
  (∀ i h, headers c !! i = Some h → (S i < length (headers c))%nat →
          PyStr.endswith h " >" = false) →
  metadata_to_chunk (chunk_to_metadata path_name c) (content c) = Ok c.
Proof.
  intros Hok He. unfold metadata_to_chunk, chunk_to_metadata.
  unfold get_str, get_int, get_float, getitem.
  simplify_map_eq. simpl.
  rewrite decode_encode_headers by done. by destruct c.
Qed.

End MetadataRoundTrip.

Section MetadataExamples.
Import TextChunker VectorStore Examples.

(** Headers that are non-empty and free of the delimiter, and that the
    round trip changes all the same: C9 fails as stated. *)
Lemma metadata_round_trip_counterexample :
  let c := chunk_of "a.md" 0 ["# a >"; "## b"]%string in
  Forall (λ h, h ≠ EmptyString ∧ PyStr.contains " > " h = false) (headers c)
  ∧ metadata_to_chunk (chunk_to_metadata path_name c) (content c)
    = Ok (chunk_of "a.md" 0 ["# a"; "> ## b"]%string)
  ∧ metadata_to_chunk (chunk_to_metadata path_name c) (content c) ≠ Ok c.
Proof.
  assert (metadata_to_chunk
            (chunk_to_metadata path_name (chunk_of "a.md" 0 ["# a >"; "## b"]%string))
            "text"
          = Ok (chunk_of "a.md" 0 ["# a"; "> ## b"]%string)) as H
    by (vm_compute; reflexivity).
  simpl. split; [|split; [exact H|]].
  - repeat constructor; done.
  - rewrite H. intros [= ?].
Qed.

Lemma metadata_round_trip_witness :
  metadata_to_chunk
    (chunk_to_metadata path_name
       (chunk_of "/notes/a.md" 2 ["# Main"; "## Part >"]%string))
    "text"
  = Ok (chunk_of "/notes/a.md" 2 ["# Main"; "## Part >"]%string).
Proof.
  apply (metadata_round_trip path_name
           (chunk_of "/notes/a.md" 2 ["# Main"; "## Part >"]%string)).
  - simpl. repeat constructor; done.
  - simpl. intros [|[|i]] h Hh Hi; simpl in *; [by injection Hh as <- | lia | lia].
Defined.

End MetadataExamples.

(** ** The store *)

Section StoreFacts.
Import TextChunker VectorStore.
Variable path_name : string → string.

Lemma has_source_inj (p q : string) (r : IndexRecord) :
  has_source p r = true → has_source q r = true → p = q.
Proof.
  unfold has_source. destruct (rec_metadata r !! "source_path") as [[s| |]|]; try done.
  intros Hp%String.eqb_eq Hq%String.eqb_eq. congruence.
Qed.

Lemma elem_of_chroma_get_ids (coll : Collection) (p id : string) :
  id ∈ chroma_get_ids coll p
  ↔ ∃ r, coll !! id = Some r ∧ has_source p r = true.
Proof.
  unfold chroma_get_ids. rewrite list_elem_of_fmap. split.
  - intros ([id' r] & -> & Hin). apply list_elem_of_filter in Hin as [Hs Hin].
    apply elem_of_map_to_list in Hin. by exists r.
  - intros (r & Hr & Hs). exists (id, r). split; [done|].
    apply list_elem_of_filter. split; [done|]. by apply elem_of_map_to_list.
Qed.

Lemma chroma_delete_lookup (ids : list string) (coll : Collection) (id : string) :
  chroma_delete ids coll !! id = if decide (id ∈ ids) then None else coll !! id.
Proof.
  unfold chroma_delete. induction ids as [|x ids IH]; cbn [foldr].
  - destruct (decide (id ∈ [])) as [Hin|_]; [by apply not_elem_of_nil in Hin | done].
  - destruct (decide (x = id)) as [->|Hne].
    + rewrite lookup_delete_eq.
      destruct (decide (id ∈ id :: ids)) as [_|Hin]; [done|].
      destruct Hin. apply list_elem_of_here.
    + rewrite lookup_delete_ne, IH by done.
      destruct (decide (id ∈ ids)) as [Hin|Hin],
        (decide (id ∈ x :: ids)) as [Hin'|Hin']; try done.
      * destruct Hin'. by apply list_elem_of_further.
      * apply elem_of_cons in Hin' as [?|?]; congruence.
Qed.

(** [delete_by_source] removes the records of the source and no other. *)
Lemma delete_by_source_lookup (coll : Collection) (p id : string) :
  (delete_by_source coll p).1 !! id
  = r ← coll !! id; if has_source p r then None else Some r.
Proof.
  unfold delete_by_source.
  destruct (chroma_get_ids coll p) as [|x ids] eqn:Hids; cbn [fst].
  - destruct (coll !! id) as [r|] eqn:Hr; simpl; [|done].
    destruct (has_source p r) eqn:Hs; [|done].
    assert (id ∈ chroma_get_ids coll p) as Hin
      by (apply elem_of_chroma_get_ids; eauto).
    rewrite Hids in Hin. by apply not_elem_of_nil in Hin.
  - rewrite chroma_delete_lookup, <- Hids.
    destruct (decide (id ∈ chroma_get_ids coll p)) as [Hin|Hnin].
    + apply elem_of_chroma_get_ids in Hin as (r & -> & Hs). simpl. by rewrite Hs.
    + destruct (coll !! id) as [r|] eqn:Hr; simpl; [|done].
      destruct (has_source p r) eqn:Hs; [|done].
      destruct Hnin. apply elem_of_chroma_get_ids. eauto.
Qed.

Lemma upsert_loop_other
    (l : list (string * (string * (list float * gmap string meta_value))))
    (coll : Collection) (id : string) :
  id ∉ l.*1 → fold_left upsert_one l coll !! id = coll !! id.
Proof.
  revert coll. induction l as [|[k v] l IH]; intros coll Hid; [done|].
  rewrite fmap_cons, not_elem_of_cons in Hid. destruct Hid as [Hne Hid].
  cbn [fold_left]. rewrite IH by done. unfold upsert_one.
  by rewrite lookup_insert_ne.
Qed.

(** An upsert leaves the records of all other ids as they are. *)
Lemma chroma_upsert_other (ids documents : list string)
    (embeddings : list (list float)) (metadatas : list (gmap string meta_value))
    (coll coll' : Collection) (id : string) :
  chroma_upsert ids documents embeddings metadatas coll = Ok coll' →
  id ∉ ids → coll' !! id = coll !! id.
Proof.
  unfold chroma_upsert. case_bool_decide as Hnd; [|done].
  case_bool_decide as Hlen; [|done].
  intros [= <-] Hid. apply upsert_loop_other.
  rewrite fst_zip; [done|].
  rewrite !length_zip_with. lia.
Qed.

Lemma upsert_chunks_other (coll : Collection) (chunks : list Chunk)
    (embeddings : list (list float)) (id : string) :
  id ∉ make_chunk_id <$> chunks →
  (upsert_chunks path_name coll chunks embeddings).1 !! id = coll !! id.
Proof.
  intros Hid. unfold upsert_chunks. destruct chunks as [|c chunks]; [done|].
  destruct (chroma_upsert _ _ _ _ coll) as [coll'|e] eqn:Hup; [|done].
  by eapply chroma_upsert_other.
Qed.

End StoreFacts.

(** ** Re-indexing *)

Section Reindexing.
Import TextChunker VectorStore Search.
Variable count_tokens : string → Z.
Variable split_text : string → list string.
Variable path_name : string → string.
Variable path_str : string → string.
Variable path_file_type : string → string.
Variable get_embeddings_batch : list string → result (list (list float)).

Lemma chunk_loop_sources (doc : Document) (n : nat) (its : list (nat * string))
    (acc : list Chunk) (pos : Z) :
  Forall (λ c, source_path c = path doc) acc →
  Forall (λ c, source_path c = path doc)
    (fold_left (chunk_step count_tokens doc n) its (acc, pos)).1.
Proof.
  revert acc pos. induction its as [|[i text] its IH]; intros acc pos Hacc; [done|].
  cbn [fold_left]. unfold chunk_step at 2. apply IH.
  apply Forall_app. split; [done|]. by repeat constructor.
Qed.

Lemma chunk_document_sources (doc : Document) :
  Forall (λ c, source_path c = path doc)
    (chunk_document count_tokens split_text doc).
Proof.
  unfold chunk_document. apply Forall_fmap.
  eapply Forall_impl; [by apply chunk_loop_sources|]. done.
Qed.

Lemma chunk_document_at (doc : Document) (i : nat) (c : Chunk) :
  chunk_document count_tokens split_text doc !! i = Some c →
  make_chunk_id c = make_id (path doc) (Z.of_nat i).
Proof.
  intros Hi. unfold make_chunk_id.
  rewrite (proj1 (Forall_lookup _ _) (chunk_document_sources doc) i c Hi).
  pose proof (chunk_document_index_list count_tokens split_text doc) as Hidx.
  apply (f_equal (λ l, l !! i)) in Hidx.
  rewrite !list_lookup_fmap, Hi in Hidx.
  rewrite lookup_seq_lt in Hidx by by eapply lookup_lt_Some.
  simpl in Hidx. by injection Hidx as ->.
Qed.

(** The ids of the chunks of one chunking pass: the document's path with
    the indices 0, 1, 2, ... below the number of chunks. *)
Lemma chunk_document_ids (doc : Document) (c : Chunk) :
  c ∈ chunk_document count_tokens split_text doc →
  ∃ i : nat,
    (i < length (chunk_document count_tokens split_text doc))%nat
    ∧ make_chunk_id c = make_id (path doc) (Z.of_nat i).
Proof.
  intros Hc. apply list_elem_of_lookup in Hc as [i Hi].
  exists i. split; [by eapply lookup_lt_Some | by apply chunk_document_at].
Qed.

Lemma chunk_all_loop_elem (documents : list Document) (acc : list Chunk) (c : Chunk) :
  c ∈ fold_left (λ all_chunks doc,
                   match PyStr.strip (doc_content doc) with
                   | String _ _ =>
                       all_chunks ++ chunk_document count_tokens split_text doc
                   | EmptyString => all_chunks
                   end) documents acc →
  c ∈ acc
  ∨ ∃ doc, doc ∈ documents ∧ c ∈ chunk_document count_tokens split_text doc.
Proof.
  revert acc. induction documents as [|d documents IH]; intros acc Hc; [by left|].
  cbn [fold_left] in Hc. apply IH in Hc as [Hc|(doc & Hdoc & Hc)].
  - destruct (PyStr.strip (doc_content d)); [by left|].
    apply elem_of_app in Hc as [Hc|Hc]; [by left|].
    right. exists d. split; [apply list_elem_of_here | done].
  - right. exists doc. split; [by apply list_elem_of_further | done].
Qed.

Lemma chunk_all_elem (documents : list Document) (c : Chunk) :
  c ∈ chunk_all count_tokens split_text documents →
  ∃ doc, doc ∈ documents ∧ c ∈ chunk_document count_tokens split_text doc.
Proof.
  intros Hc. apply chunk_all_loop_elem in Hc as [Hc|Hc]; [|done].
  by apply not_elem_of_nil in Hc.
Qed.

Lemma delete_loop_keeps (to_delete : list string) (coll : Collection) (n : Z)
    (id : string) (r : IndexRecord) :
  coll !! id = Some r →
  (∀ p, p ∈ to_delete → has_source p r = false) →
  (fold_left (λ '(c, deleted_count) p,
                let '(c', n) := delete_by_source c p in (c', deleted_count + n))
             to_delete (coll, n)).1 !! id = Some r.
Proof.
  revert coll n. induction to_delete as [|p ps IH]; intros coll n Hr Hps; [done|].
  cbn [fold_left].
  destruct (delete_by_source coll p) as [coll' m] eqn:Hdel.
  apply IH.
  - change coll' with (coll', m).1. rewrite <- Hdel, delete_by_source_lookup, Hr.
    simpl. rewrite Hps; [done | apply list_elem_of_here].
  - intros q Hq. apply Hps. by apply list_elem_of_further.
Qed.

(** The ids that a run over [to_index] upserts. *)
Lemma upserted_ids (to_index : list Document) (id : string) :
  id ∈ make_chunk_id <$> chunk_all count_tokens split_text to_index →
  ∃ (doc : Document) (i : nat),
    doc ∈ to_index
    ∧ (i < length (chunk_document count_tokens split_text doc))%nat
    ∧ id = make_id (path doc) (Z.of_nat i).
Proof.
  intros (c & -> & Hc)%list_elem_of_fmap.
  apply chunk_all_elem in Hc as (doc & Hdoc & Hc).
  apply chunk_document_ids in Hc as (i & Hi & Hid). by exists doc, i.
Qed.

(** C1 fails on the full reconcile: [index_vault] upserts the new chunks
    of a re-indexed document and never deletes the old ones, so a record
    of that document with a chunk index at or beyond the new number of
    chunks is still in the store afterwards, whatever the outcome of the
    run. [index_single_file] does delete first. *)
Theorem index_vault_keeps_stale_chunk (documents : list Document)
    (doc : Document) (force : bool) (coll : Collection) (k : Z) (r : IndexRecord) :
  doc ∈ documents →
  (∀ d, d ∈ documents →
        normalize_path (path d) = normalize_path (path doc) → d = doc) →
  coll !! make_id (path doc) k = Some r →
  has_source (path doc) r = true →
  Z.of_nat (length (chunk_document count_tokens split_text doc)) ≤ k →
  (index_vault count_tokens split_text path_name get_embeddings_batch
     documents force coll).1 !! make_id (path doc) k = Some r.
Proof.
  intros Hdoc Huniq Hr Hsrc Hk. unfold index_vault.
  destruct (indexed_files_of force coll) as [indexed_files|e]; [|done].
  rewrite determine_work_eq. unfold delete_removed.
  match goal with
  | |- context [fold_left ?f ?l (coll, 0)] =>
      pose proof (delete_loop_keeps l coll 0 _ r Hr) as Hkeep;
      destruct (fold_left f l (coll, 0)) as [coll1 deleted_count]
  end.
  simpl in Hkeep.
  assert (coll1 !! make_id (path doc) k = Some r) as Hr1.
  { apply Hkeep. intros p Hp. apply elem_of_elements in Hp.
    destruct (has_source p r) eqn:Hp'; [|done].
    rewrite (has_source_inj _ _ _ Hp' Hsrc) in Hp.
    apply elem_of_difference in Hp as [_ Hp]. destruct Hp.
    apply elem_of_list_to_set, list_elem_of_fmap. by exists doc. }
  clear Hkeep.
  set (to_index := filter _ documents).
  assert (make_id (path doc) k
          ∉ make_chunk_id <$> chunk_all count_tokens split_text to_index) as Hfresh.
  { intros (d & i & Hd & Hi & Hid)%upserted_ids.
    apply list_elem_of_filter in Hd as [_ Hd].
    apply make_id_inj in Hid as [Hp Hki].
    rewrite (Huniq d Hd (eq_sym Hp)) in Hi. lia. }
  destruct to_index as [|d ds] eqn:Hti; [done|]. rewrite <- Hti in *.
  destruct (get_embeddings_batch _) as [embeddings|e]; [|done].
  pose proof (upsert_chunks_other path_name coll1
                (chunk_all count_tokens split_text to_index) embeddings
                _ Hfresh) as Hup.
  destruct (upsert_chunks _ _ _ _) as [coll2 [n|e]]; simpl in *; congruence.
Qed.

Lemma upsert_loop_lookup
    (l : list (string * (string * (list float * gmap string meta_value))))
    (coll : Collection) (i : nat) (id : string)
    (v : string * (list float * gmap string meta_value)) :
  NoDup l.*1 → l !! i = Some (id, v) →
  fold_left upsert_one l coll !! id
  = Some {| rec_document := v.1; rec_embedding := v.2.1; rec_metadata := v.2.2 |}.
Proof.
  revert coll i. induction l as [|[k0 v0] l IH]; intros coll i Hnd Hi; [done|].
  rewrite fmap_cons in Hnd. apply NoDup_cons in Hnd as [Hk0 Hnd].
  cbn [fold_left]. destruct i as [|i].
  - injection Hi as -> ->. rewrite upsert_loop_other by done.
    unfold upsert_one. by rewrite lookup_insert_eq.
  - by apply (IH _ i).
Qed.

Lemma has_source_chunk (c : Chunk) (e : list float) :
  has_source (source_path c)
    {| rec_document := content c; rec_embedding := e;
       rec_metadata := chunk_to_metadata path_name c |} = true.
Proof.
  unfold has_source, chunk_to_metadata. simpl.
  rewrite lookup_insert_eq. apply String.eqb_refl.
Qed.

Lemma chunk_document_ids_nodup (doc : Document) :
  NoDup (make_chunk_id <$> chunk_document count_tokens split_text doc).
Proof.
  apply NoDup_alt. intros i j id Hi Hj.
  apply list_lookup_fmap_Some in Hi as (ci & -> & Hci).
  apply list_lookup_fmap_Some in Hj as (cj & Heq & Hcj).
  rewrite (chunk_document_at _ _ _ Hci), (chunk_document_at _ _ _ Hcj) in Heq.
  apply make_id_inj in Heq as [_ Heq]. lia.
Qed.

(** The sibling path does replace the whole chunk set: after
    [index_single_file] on a file that yields chunks, the records of its
    path are exactly the new chunks' records, under the ids with the
    indices below the new number of chunks. *)
Lemma index_single_file_replaces (file_path text : string) (st : file_state)
    (coll : Collection) (embeddings : list (list float)) :
  let p := path_str file_path in
  let doc := {| path := p; doc_content := text;
                doc_file_type := path_file_type file_path;
                doc_modified := fs_mtime st |} in
  let chunks := chunk_document count_tokens split_text doc in
  fs_text st = Some text →
  PyStr.strip text ≠ EmptyString →
  chunks ≠ [] →
  get_embeddings_batch (content <$> chunks) = Ok embeddings →
  length embeddings = length chunks →
  ∃ coll',
    index_single_file count_tokens split_text path_name path_str path_file_type
      get_embeddings_batch file_path (Some st) coll
    = (coll', Ok (Z.of_nat (length chunks)))
    ∧ (∀ id, (∃ r, coll' !! id = Some r ∧ has_source p r = true)
             ↔ ∃ i : nat, (i < length chunks)%nat ∧ id = make_id p (Z.of_nat i))
    ∧ (∀ i c e, chunks !! i = Some c → embeddings !! i = Some e →
         coll' !! make_id p (Z.of_nat i)
         = Some {| rec_document := content c; rec_embedding := e;
                   rec_metadata := chunk_to_metadata path_name c |}).
Proof.
  intros p doc chunks Htext Hstrip Hchunks Hemb Hlen.
  unfold index_single_file. fold p. rewrite Htext.
  destruct text as [|ch text]; [done|]. fold doc.
  assert (chunk_all count_tokens split_text [doc] = chunks) as ->.
  { unfold chunk_all. simpl. by destruct (PyStr.strip (String ch text)). }
  destruct chunks as [|c0 chunks0] eqn:Hcs; [done|]. rewrite <- Hcs in *.
  rewrite Hemb.
  destruct (delete_by_source coll p) as [coll1 n] eqn:Hdel.
  assert (∀ id, coll1 !! id = r ← coll !! id; if has_source p r then None else Some r)
    as Hcoll1.
  { intros id. change coll1 with (coll1, n).1.
    by rewrite <- Hdel, delete_by_source_lookup. }
  unfold upsert_chunks.
  assert (∀ (A : Type) (a b : A),
            match chunks with [] => a | _ :: _ => b end = b) as ->
    by (intros; by rewrite Hcs).
  unfold chroma_upsert.
  rewrite (bool_decide_eq_true_2 (NoDup (make_chunk_id <$> chunks)))
    by apply chunk_document_ids_nodup.
  rewrite bool_decide_eq_true_2 by (rewrite !length_fmap; lia).
  set (batch := zip (make_chunk_id <$> chunks) _).
  eexists. split; [reflexivity|].
  assert (batch.*1 = make_chunk_id <$> chunks) as Hkeys.
  { unfold batch. rewrite fst_zip; [done|].
    rewrite !length_zip_with, !length_fmap. lia. }
  assert (∀ i c e, chunks !! i = Some c → embeddings !! i = Some e →
            fold_left upsert_one batch coll1 !! make_id p (Z.of_nat i)
            = Some {| rec_document := content c; rec_embedding := e;
                      rec_metadata := chunk_to_metadata path_name c |}) as Hnew.
  { intros i c e Hc He.
    assert (make_chunk_id c = make_id p (Z.of_nat i)) as Hid
      by apply (chunk_document_at doc i c Hc).
    rewrite <- Hid.
    apply (upsert_loop_lookup batch coll1 i (make_chunk_id c)
             (content c, (e, chunk_to_metadata path_name c))).
    - rewrite Hkeys. apply chunk_document_ids_nodup.
    - unfold batch. rewrite !lookup_zip_with, !list_lookup_fmap, Hc, He. done. }
  split; [|exact Hnew].
  intros id. split.
  - intros (r & Hr & Hs).
    destruct (decide (id ∈ make_chunk_id <$> chunks)) as [Hin|Hnin].
    + apply list_elem_of_fmap in Hin as (c & -> & Hc).
      apply chunk_document_ids in Hc as (i & Hi & Hid). by exists i.
    + rewrite upsert_loop_other, Hcoll1 in Hr by by rewrite Hkeys.
      destruct (coll !! id) as [r'|]; simpl in Hr; [|done].
      destruct (has_source p r') eqn:Hs'; [done|]. congruence.
  - intros (i & Hi & ->).
    destruct (lookup_lt_is_Some_2 chunks i Hi) as [c Hc].
    destruct (lookup_lt_is_Some_2 embeddings i) as [e He]; [lia|].
    eexists. split; [by apply Hnew|].
    pose proof (proj1 (Forall_lookup _ _) (chunk_document_sources doc) i c Hc)
      as Hsrc.
    change (path doc) with p in Hsrc. rewrite <- Hsrc. apply has_source_chunk.
Qed.

End Reindexing.

Section ReindexingExamples.
Import TextChunker VectorStore Search Examples.

Lemma index_vault_keeps_stale_chunk_witness :
  (index_vault count_tokens split_text path_name get_embeddings_batch
     [a_md_shrunk] false store_a2).1 !! make_id (path a_md_shrunk) 1
  = Some record_a2_1.
Proof.
  apply (index_vault_keeps_stale_chunk count_tokens split_text path_name
           get_embeddings_batch [a_md_shrunk] a_md_shrunk false store_a2 1
           record_a2_1).
  - apply list_elem_of_here.
  - intros d Hd _. by apply list_elem_of_singleton in Hd.
  - vm_compute. reflexivity.
  - vm_compute. reflexivity.
  - vm_compute. discriminate.
Defined.

(** The run of the specification's test: [a.md] is indexed with two
    chunks, then edited down to one. The full reconcile reports one chunk
    created and none deleted, and leaves both ids in the store; the
    single-file path leaves the one new id. *)
Example reindex_shrunk_document :
  let after_vault :=
    index_vault count_tokens split_text path_name get_embeddings_batch
      [a_md_shrunk] false store_a2 in
  let after_single :=
    index_single_file count_tokens split_text path_name (λ p, p) (λ _, "md"%string)
      get_embeddings_batch "a.md"
      (Some {| fs_text := Some "one"%string; fs_mtime := 200 |}) store_a2 in
  dom store_a2 = {["a.md::chunk_0"; "a.md::chunk_1"]}
  ∧ after_vault.2
    = Ok {| documents_scanned := 1; documents_indexed := 1;
            chunks_created := 1; chunks_deleted := 0 |}
  ∧ dom after_vault.1 = {["a.md::chunk_0"; "a.md::chunk_1"]}
  ∧ after_single.2 = Ok 1
  ∧ dom after_single.1 = {["a.md::chunk_0"]}.
Proof. vm_compute. repeat split; reflexivity. Qed.

(** A file edited down to blank content: the single-file path returns 0
    before it deletes anything, and both old records stay. *)
Example index_single_file_blank_content :
  index_single_file count_tokens split_text path_name (λ p, p) (λ _, "md"%string)
    get_embeddings_batch "a.md"
    (Some {| fs_text := Some "  "%string; fs_mtime := 200 |}) store_a2
  = (store_a2, Ok 0).
Proof. vm_compute. reflexivity. Qed.

End ReindexingExamples.

(** * Further properties of the code *)

(** ** The store: deleting and upserting *)

Section StoreOperations.
Import TextChunker VectorStore.
Variable path_name : string → string.

Lemma chroma_get_ids_nodup (coll : Collection) (p : string) :
  NoDup (chroma_get_ids coll p).
Proof.
  unfold chroma_get_ids.
  apply (NoDup_fmap_fst (filter (λ kr, has_source p kr.2 = true) (map_to_list coll))).
  - intros id r1 r2 [_ H1%elem_of_map_to_list]%list_elem_of_filter
      [_ H2%elem_of_map_to_list]%list_elem_of_filter. congruence.
  - apply NoDup_filter, NoDup_map_to_list.
Qed.

Lemma delete_by_source_count (coll : Collection) (p : string) :
  (delete_by_source coll p).2 = Z.of_nat (length (chroma_get_ids coll p)).
Proof.
  unfold delete_by_source. by destruct (chroma_get_ids coll p).
Qed.

Lemma chroma_delete_size (ids : list string) (coll : Collection) :
  NoDup ids → (∀ id, id ∈ ids → is_Some (coll !! id)) →
  (size (chroma_delete ids coll) + length ids = size coll)%nat.
Proof.
  unfold chroma_delete. induction ids as [|x ids IH]; intros Hnd Hin; simpl; [lia|].
  apply NoDup_cons in Hnd as [Hx Hnd].
  assert (is_Some (foldr delete coll ids !! x)) as [r Hr].
  { fold (chroma_delete ids coll). rewrite chroma_delete_lookup.
    rewrite decide_False by done. apply Hin, list_elem_of_here. }
  specialize (IH Hnd (λ id H, Hin id (list_elem_of_further _ _ _ H))).
  rewrite map_size_delete, Hr. simpl in *.
  assert (size (foldr delete coll ids) ≠ 0%nat).
  { intros H0%map_size_empty_inv. rewrite H0 in Hr. by rewrite lookup_empty in Hr. }
  lia.
Qed.

Lemma delete_by_source_size (coll : Collection) (p : string) :
  (delete_by_source coll p).2
  = Z.of_nat (size coll) - Z.of_nat (size (delete_by_source coll p).1).
Proof.
  rewrite delete_by_source_count.
  assert ((delete_by_source coll p).1 = chroma_delete (chroma_get_ids coll p) coll) as ->.
  { unfold delete_by_source. by destruct (chroma_get_ids coll p). }
  pose proof (chroma_delete_size (chroma_get_ids coll p) coll
                (chroma_get_ids_nodup coll p)) as H.
  rewrite <- H.
  - lia.
  - intros id Hid. apply elem_of_chroma_get_ids in Hid as (r & Hr & _). by exists r.
Qed.

(** X1: [delete_by_source] removes every record of the source and no other
    record, adds nothing, and returns the number of records it removed. *)
Theorem delete_by_source_removes (coll : Collection) (p : string) :
  (∀ id r, (delete_by_source coll p).1 !! id = Some r
           ↔ coll !! id = Some r ∧ has_source p r = false)
  ∧ (delete_by_source coll p).2
    = Z.of_nat (size coll) - Z.of_nat (size (delete_by_source coll p).1)
  ∧ (0 ≤ (delete_by_source coll p).2).
Proof.
  split; [|split].
  - intros id r. rewrite delete_by_source_lookup.
    destruct (coll !! id) as [r'|]; simpl; [|by split; [|intros [? _]]].
    destruct (has_source p r') eqn:Hs.
    + split; [done|]. intros [[= ->] ?]. congruence.
    + split; [by intros [= ->] | by intros [? _]].
  - apply delete_by_source_size.
  - rewrite delete_by_source_count. lia.
Qed.

Lemma delete_by_source_again (coll : Collection) (p : string) :
  delete_by_source (delete_by_source coll p).1 p = ((delete_by_source coll p).1, 0).
Proof.
  set (coll1 := (delete_by_source coll p).1).
  assert (chroma_get_ids coll1 p = []) as Hnone.
  { apply elem_of_nil_inv. intros id Hid.
    apply elem_of_chroma_get_ids in Hid as (r & Hr & Hs).
    unfold coll1 in Hr. rewrite delete_by_source_lookup in Hr.
    destruct (coll !! id) as [r'|]; simpl in Hr; [|done].
    destruct (has_source p r') eqn:Hs'; [done|]. congruence. }
  unfold delete_by_source at 1. by rewrite Hnone.
Qed.

(** X2: deleting a source a second time finds nothing: it returns 0 and
    leaves the store as the first deletion left it; and the deletions of
    two sources can be done in either order. *)
Theorem delete_by_source_idempotent (coll : Collection) (p q : string) :
  delete_by_source (delete_by_source coll p).1 p = ((delete_by_source coll p).1, 0)
  ∧ (delete_by_source (delete_by_source coll p).1 q).1
    = (delete_by_source (delete_by_source coll q).1 p).1.
Proof.
  split; [apply delete_by_source_again|].
  apply map_eq. intros id. rewrite !delete_by_source_lookup.
  destruct (coll !! id) as [r|]; simpl; [|done].
  destruct (has_source p r) eqn:Hp, (has_source q r) eqn:Hq; simpl;
    rewrite ?Hp, ?Hq; done.
Qed.

End StoreOperations.

(** ** Upserting chunks *)

Section UpsertFacts.
Import TextChunker VectorStore.
Variable path_name : string → string.

Lemma upsert_loop_snoc
    (l : list (string * (string * (list float * gmap string meta_value))))
    (x : string * (string * (list float * gmap string meta_value)))
    (coll : Collection) :
  fold_left upsert_one (l ++ [x]) coll = upsert_one (fold_left upsert_one l coll) x.
Proof. by rewrite fold_left_app. Qed.

(** Of the entries of a batch under one id, the last is the one the
    store holds afterwards. *)
Lemma upsert_loop_last
    (l : list (string * (string * (list float * gmap string meta_value))))
    (coll : Collection) (i : nat) (id : string)
    (v : string * (list float * gmap string meta_value)) :
  l !! i = Some (id, v) →
  (∀ j v', l !! j = Some (id, v') → (j ≤ i)%nat) →
  fold_left upsert_one l coll !! id
  = Some {| rec_document := v.1; rec_embedding := v.2.1; rec_metadata := v.2.2 |}.
Proof.
  revert i. induction l as [|[k w] l IH] using rev_ind; intros i Hi Hlast; [done|].
  rewrite upsert_loop_snoc. unfold upsert_one at 1. cbn [fst snd].
  destruct (decide (i = length l)) as [->|Hne].
  - rewrite list_lookup_middle in Hi by done. injection Hi as -> ->.
    by rewrite lookup_insert_eq.
  - assert (i < length l)%nat as Hlt.
    { apply lookup_lt_Some in Hi. rewrite length_app in Hi. simpl in Hi. lia. }
    rewrite lookup_app_l in Hi by done.
    assert (k ≠ id) as Hk.
    { intros ->. specialize (Hlast (length l) w).
      rewrite list_lookup_middle in Hlast by done. specialize (Hlast eq_refl). lia. }
    rewrite lookup_insert_ne by done. apply (IH i Hi).
    intros j v' Hj. apply (Hlast j v').
    rewrite lookup_app_l; [done|]. by eapply lookup_lt_Some.
Qed.

(** What a batch leaves under one of its ids does not depend on the
    store it is written to. *)
Lemma upsert_loop_same_keys
    (l : list (string * (string * (list float * gmap string meta_value))))
    (coll1 coll2 : Collection) (id : string) :
  id ∈ l.*1 →
  fold_left upsert_one l coll1 !! id = fold_left upsert_one l coll2 !! id.
Proof.
  induction l as [|[k w] l IH] using rev_ind; intros Hid.
  - by apply not_elem_of_nil in Hid.
  - rewrite !upsert_loop_snoc. unfold upsert_one. cbn [fst snd].
    destruct (decide (k = id)) as [->|Hne].
    + by rewrite !lookup_insert_eq.
    + rewrite !lookup_insert_ne by done. apply IH.
      rewrite fmap_app in Hid. apply elem_of_app in Hid as [Hid|Hid]; [done|].
      apply list_elem_of_singleton in Hid. simpl in Hid. congruence.
Qed.

Lemma upsert_chunks_ok (coll : Collection) (chunks : list Chunk)
    (embeddings : list (list float)) :
  length embeddings = length chunks →
  NoDup (make_chunk_id <$> chunks) →
  upsert_chunks path_name coll chunks embeddings
  = (fold_left upsert_one
       (zip (make_chunk_id <$> chunks)
          (zip (content <$> chunks)
             (zip embeddings (chunk_to_metadata path_name <$> chunks)))) coll,
     Ok (Z.of_nat (length chunks))).
Proof.
  intros Hlen Hnd. unfold upsert_chunks. destruct chunks as [|c chunks]; [done|].
  unfold chroma_upsert. rewrite (bool_decide_eq_true_2 (NoDup _)) by done.
  rewrite bool_decide_eq_true_2; [done|].
  rewrite !length_fmap. lia.
Qed.

(** A batch that repeats an id is refused, and so is a batch without one
    embedding for each chunk: the store stays as it was. *)
Lemma upsert_chunks_refused (coll : Collection) (chunks : list Chunk)
    (embeddings : list (list float)) :
  chunks ≠ [] →
  ¬ NoDup (make_chunk_id <$> chunks) ∨ length embeddings ≠ length chunks →
  ∃ e, upsert_chunks path_name coll chunks embeddings = (coll, Err e).
Proof.
  intros Hne Hbad. unfold upsert_chunks.
  destruct chunks as [|c0 chunks0] eqn:Hcs; [done|]. rewrite <- Hcs in *.
  unfold chroma_upsert. case_bool_decide as Hnd; [|by eexists].
  case_bool_decide as Hlen; [|by eexists].
  rewrite !length_fmap in Hlen. destruct Hbad as [?|?]; [done | lia].
Qed.

(** A batch that was written had distinct ids and one embedding for
    each chunk. *)
Lemma upsert_chunks_accepted (coll coll' : Collection) (chunks : list Chunk)
    (embeddings : list (list float)) (n : Z) :
  chunks ≠ [] →
  upsert_chunks path_name coll chunks embeddings = (coll', Ok n) →
  length embeddings = length chunks ∧ NoDup (make_chunk_id <$> chunks).
Proof.
  intros Hne Hup. unfold upsert_chunks in Hup.
  destruct chunks as [|c0 chunks0] eqn:Hcs; [done|]. rewrite <- Hcs in *.
  unfold chroma_upsert in Hup. case_bool_decide as Hnd; [|done].
  case_bool_decide as Hlen; [|done].
  rewrite !length_fmap in Hlen. split; [lia | done].
Qed.

Lemma upsert_batch_keys (chunks : list Chunk) (embeddings : list (list float)) :
  length embeddings = length chunks →
  (zip (make_chunk_id <$> chunks)
     (zip (content <$> chunks)
        (zip embeddings (chunk_to_metadata path_name <$> chunks)))).*1
  = make_chunk_id <$> chunks.
Proof.
  intros Hlen. rewrite fst_zip; [done|].
  rewrite !length_zip_with, !length_fmap. lia.
Qed.

Lemma upsert_batch_lookup (chunks : list Chunk) (embeddings : list (list float))
    (i : nat) :
  zip (make_chunk_id <$> chunks)
    (zip (content <$> chunks)
       (zip embeddings (chunk_to_metadata path_name <$> chunks))) !! i
  = c ← chunks !! i; e ← embeddings !! i;
    Some (make_chunk_id c, (content c, (e, chunk_to_metadata path_name c))).
Proof.
  rewrite !lookup_zip_with, !list_lookup_fmap.
  destruct (chunks !! i) as [c|]; simpl; [|done].
  by destruct (embeddings !! i).
Qed.

(** X3: [upsert_chunks] writes a batch with one embedding per chunk and
    no id twice as a whole: it returns the number of chunks, every id
    that is not the id of a chunk keeps what it had, and under the id of
    each chunk the store holds the content, the embedding and the
    metadata of that chunk. A batch in which two chunks have one id is
    refused: the call raises and the store stays as it was. *)
Theorem upsert_chunks_stores (coll : Collection) (chunks : list Chunk)
    (embeddings : list (list float)) :
  length embeddings = length chunks →
  (NoDup (make_chunk_id <$> chunks) →
   ∃ coll',
     upsert_chunks path_name coll chunks embeddings
     = (coll', Ok (Z.of_nat (length chunks)))
     ∧ (∀ id, id ∉ make_chunk_id <$> chunks → coll' !! id = coll !! id)
     ∧ (∀ (i : nat) c e,
          chunks !! i = Some c → embeddings !! i = Some e →
          coll' !! make_chunk_id c
          = Some {| rec_document := content c; rec_embedding := e;
                    rec_metadata := chunk_to_metadata path_name c |}))
  ∧ (¬ NoDup (make_chunk_id <$> chunks) →
     ∃ e, upsert_chunks path_name coll chunks embeddings = (coll, Err e)).
Proof.
  intros Hlen. split.
  - intros Hnd. rewrite (upsert_chunks_ok _ _ _ Hlen Hnd).
    eexists. split; [done|]. split.
    + intros id Hid. apply upsert_loop_other. by rewrite upsert_batch_keys.
    + intros i c e Hc He.
      apply (upsert_loop_lookup _ coll i (make_chunk_id c)
               (content c, (e, chunk_to_metadata path_name c))).
      * by rewrite upsert_batch_keys.
      * by rewrite upsert_batch_lookup, Hc, He.
  - intros Hdup. apply upsert_chunks_refused; [|by left].
    intros ->. apply Hdup. constructor.
Qed.

Lemma metadata_of_chunk_decodes (c : Chunk) :
  Forall (λ h, h ≠ EmptyString ∧ PyStr.contains " > " h = false) (headers c) →
  (∀ i h, headers c !! i = Some h → (S i < length (headers c))%nat →
          PyStr.endswith h " >" = false) →
  metadata_to_chunk (chunk_to_metadata path_name c) (content c) = Ok c.
Proof.
  intros Hok He. unfold metadata_to_chunk, chunk_to_metadata.
  unfold get_str, get_int, get_float, getitem.
  simplify_map_eq. simpl.
  rewrite decode_encode_headers by done. by destruct c.
Qed.

(** X4: a chunk written by [upsert_chunks] is read back whole: after a
    batch with one embedding per chunk and no id twice, the record under
    the id of a chunk of the batch decodes, by [metadata_to_chunk], to
    that chunk, when the integer fields of the chunk are integers of 64
    bits and its headers survive the joining (none is empty or contains
    the delimiter, none but the last ends with [" >"]). *)
Theorem upsert_chunks_read_back (coll : Collection) (chunks : list Chunk)
    (embeddings : list (list float)) (i : nat) (c : Chunk) :
  length embeddings = length chunks →
  NoDup (make_chunk_id <$> chunks) →
  chunks !! i = Some c →
  int64_fields c →
  Forall (λ h, h ≠ EmptyString ∧ PyStr.contains " > " h = false) (headers c) →
  (∀ i h, headers c !! i = Some h → (S i < length (headers c))%nat →
          PyStr.endswith h " >" = false) →
  ∃ r, (upsert_chunks path_name coll chunks embeddings).1 !! make_chunk_id c = Some r
       ∧ embeddings !! i = Some (rec_embedding r)
       ∧ metadata_to_chunk (rec_metadata r) (rec_document r) = Ok c.
Proof.
  intros Hlen Hnd Hc _ Hok He.
  destruct (lookup_lt_is_Some_2 embeddings i) as [e Hemb].
  { rewrite Hlen. by eapply lookup_lt_Some. }
  rewrite (upsert_chunks_ok _ _ _ Hlen Hnd). cbn [fst].
  eexists. split; [|split].
  - apply (upsert_loop_lookup _ coll i (make_chunk_id c)
             (content c, (e, chunk_to_metadata path_name c))).
    + by rewrite upsert_batch_keys.
    + by rewrite upsert_batch_lookup, Hc, Hemb.
  - done.
  - simpl. by apply metadata_of_chunk_decodes.
Qed.

End UpsertFacts.

(** ** The indexed-sources map *)

Section IndexedFiles.
Import TextChunker VectorStore.

Lemma has_source_true (p : string) (r : IndexRecord) :
  has_source p r = true ↔ rec_metadata r !! "source_path" = Some (MStr p).
Proof.
  unfold has_source. destruct (rec_metadata r !! "source_path") as [[s| |]|]; try done.
  rewrite String.eqb_eq. split; [by intros -> | by intros [= ->]].
Qed.

Lemma elem_of_chroma_get_metadatas (coll : Collection) (md : gmap string meta_value) :
  md ∈ chroma_get_metadatas coll
  ↔ ∃ id r, coll !! id = Some r ∧ rec_metadata r = md.
Proof.
  unfold chroma_get_metadatas. rewrite list_elem_of_fmap. split.
  - intros (r & -> & Hr). apply list_elem_of_fmap in Hr as ([id r'] & -> & Hr).
    apply elem_of_map_to_list in Hr. by exists id, r'.
  - intros (id & r & Hr & <-). exists r. split; [done|].
    apply list_elem_of_fmap. exists (id, r). split; [done|].
    by apply elem_of_map_to_list.
Qed.

Lemma get_str_ok (md : gmap string meta_value) (k s : string) :
  get_str md k = Ok s ↔ md !! k = Some (MStr s).
Proof.
  unfold get_str, getitem. destruct (md !! k) as [[| |]|]; simpl;
    split; intros; simplify_eq; done.
Qed.

Lemma get_float_ok (md : gmap string meta_value) (k : string) (x : float) :
  get_float md k = Ok x ↔ md !! k = Some (MFloat x).
Proof.
  unfold get_float, getitem. destruct (md !! k) as [[| |]|]; simpl;
    split; intros; simplify_eq; done.
Qed.

Lemma get_int_ok (md : gmap string meta_value) (k : string) (n : Z) :
  get_int md k = Ok n ↔ md !! k = Some (MInt n).
Proof.
  unfold get_int, getitem. destruct (md !! k) as [[| |]|]; simpl;
    split; intros; simplify_eq; done.
Qed.

(** What one pass of the loop of [get_indexed_files] does when it does
    not raise. *)
Lemma indexed_step_ok (m m' : gmap string float) (md : gmap string meta_value) :
  indexed_step m md = Ok m' →
  ∃ p t, md !! "source_path" = Some (MStr p)
         ∧ md !! "modified" = Some (MFloat t)
         ∧ ((m' = <[p := t]> m
             ∧ (m !! p = None ∨ ∃ old, m !! p = Some old ∧ (old <? t)%float = true))
            ∨ (m' = m ∧ ∃ old, m !! p = Some old ∧ (old <? t)%float = false)).
Proof.
  unfold indexed_step. intros H.
  destruct (get_str md "source_path") as [p|] eqn:Hp; [|done]. cbn in H.
  destruct (get_float md "modified") as [t|] eqn:Ht; [|done]. cbn in H.
  apply get_str_ok in Hp. apply get_float_ok in Ht.
  exists p, t. split; [done|]. split; [done|].
  destruct (m !! p) as [old|] eqn:Hold.
  - destruct (old <? t)%float eqn:Hlt; injection H as <-.
    + left. split; [done|]. right. by exists old.
    + right. split; [done|]. by exists old.
  - injection H as <-. left. split; [done|]. by left.
Qed.

Lemma indexed_loop (l : list (gmap string meta_value)) (m0 m : gmap string float) :
  foldlM indexed_step m0 l = Ok m →
  (∀ p, is_Some (m !! p)
        ↔ is_Some (m0 !! p) ∨ ∃ md, md ∈ l ∧ md !! "source_path" = Some (MStr p))
  ∧ (∀ p t, m !! p = Some t →
        m0 !! p = Some t
        ∨ ∃ md, md ∈ l ∧ md !! "source_path" = Some (MStr p)
                ∧ md !! "modified" = Some (MFloat t))
  ∧ (∀ md, md ∈ l → ∃ p, md !! "source_path" = Some (MStr p)).
Proof.
  revert m0. induction l as [|md l IH]; intros m0 H.
  - injection H as <-. split; [|split].
    + intros p. split; [by left|]. intros [?|(md & Hmd & _)]; [done|].
      by apply not_elem_of_nil in Hmd.
    + intros p t Ht. by left.
    + intros md Hmd. by apply not_elem_of_nil in Hmd.
  - cbn in H. destruct (indexed_step m0 md) as [m1|] eqn:Hstep; [|done]. cbn in H.
    destruct (IH m1 H) as (Hdom & Hval & Hsrc).
    destruct (indexed_step_ok _ _ _ Hstep) as (p0 & t0 & Hp0 & Ht0 & Hm1).
    split; [|split].
    + intros p. rewrite Hdom. split.
      * intros [Hp|(md' & Hmd' & Hp)].
        -- destruct Hm1 as [[-> _]|[-> _]]; [|by left].
           destruct (decide (p0 = p)) as [<-|Hne].
           ++ right. exists md. split; [apply list_elem_of_here | done].
           ++ rewrite lookup_insert_ne in Hp by done. by left.
        -- right. exists md'. split; [by apply list_elem_of_further | done].
      * intros [Hp|(md' & Hmd' & Hp)].
        -- left. destruct Hm1 as [[-> _]|[-> _]]; [|done].
           destruct (decide (p0 = p)) as [<-|Hne].
           ++ rewrite lookup_insert_eq. by eexists.
           ++ by rewrite lookup_insert_ne.
        -- apply elem_of_cons in Hmd' as [->|Hmd'].
           ++ left. assert (p = p0) as -> by congruence.
              destruct Hm1 as [[-> _]|[-> (old & Hold & _)]].
              ** rewrite lookup_insert_eq. by eexists.
              ** by eexists.
           ++ right. by exists md'.
    + intros p t Ht. destruct (Hval p t Ht) as [Hm|(md' & Hmd' & Hp & Hmod)].
      * destruct Hm1 as [[-> _]|[-> _]]; [|by left].
        destruct (decide (p0 = p)) as [<-|Hne].
        -- rewrite lookup_insert_eq in Hm. injection Hm as <-.
           right. exists md. split; [apply list_elem_of_here | done].
        -- rewrite lookup_insert_ne in Hm by done. by left.
      * right. exists md'. split; [by apply list_elem_of_further | done].
    + intros md' [->|Hmd']%elem_of_cons; [by exists p0 | by apply Hsrc].
Qed.

Lemma indexed_files_sources (coll : Collection) (m : gmap string float) :
  get_indexed_files coll = Ok m →
  (∀ p, p ∈ dom m ↔ ∃ id r, coll !! id = Some r ∧ has_source p r = true)
  ∧ (∀ p t, m !! p = Some t →
       ∃ id r, coll !! id = Some r ∧ has_source p r = true
               ∧ rec_metadata r !! "modified" = Some (MFloat t))
  ∧ (∀ id r, coll !! id = Some r → ∃ p, has_source p r = true ∧ p ∈ dom m).
Proof.
  unfold get_indexed_files. intros H.
  destruct (indexed_loop _ _ _ H) as (Hdom & Hval & Hsrc).
  assert (∀ p, p ∈ dom m ↔ ∃ id r, coll !! id = Some r ∧ has_source p r = true)
    as Hkeys.
  { intros p. rewrite elem_of_dom, Hdom. split.
    - intros [Hp|(md & Hmd & Hp)]; [by rewrite lookup_empty in Hp; destruct Hp|].
      apply elem_of_chroma_get_metadatas in Hmd as (id & r & Hr & <-).
      exists id, r. split; [done|]. by apply has_source_true.
    - intros (id & r & Hr & Hs). right. exists (rec_metadata r).
      split; [|by apply has_source_true].
      apply elem_of_chroma_get_metadatas. by exists id, r. }
  split; [exact Hkeys|]. split.
  - intros p t Ht. destruct (Hval p t Ht) as [Hm|(md & Hmd & Hp & Hmod)].
    + by rewrite lookup_empty in Hm.
    + apply elem_of_chroma_get_metadatas in Hmd as (id & r & Hr & <-).
      exists id, r. split; [done|]. split; [by apply has_source_true | done].
  - intros id r Hr. destruct (Hsrc (rec_metadata r)) as [p Hp].
    { apply elem_of_chroma_get_metadatas. by exists id, r. }
    exists p. split; [by apply has_source_true|].
    apply Hkeys. exists id, r. split; [done | by apply has_source_true].
Qed.

(** X5: the map of [get_indexed_files] has one entry for every source path
    that a record of the store carries and for no other path; the
    modification time it gives for a path is the one of some record of
    that path. *)
Theorem get_indexed_files_sources (coll : Collection) (m : gmap string float) :
  get_indexed_files coll = Ok m →
  (∀ p, p ∈ dom m ↔ ∃ id r, coll !! id = Some r ∧ has_source p r = true)
  ∧ (∀ p t, m !! p = Some t →
       ∃ id r, coll !! id = Some r ∧ has_source p r = true
               ∧ rec_metadata r !! "modified" = Some (MFloat t))
  ∧ (∀ id r, coll !! id = Some r → ∃ p, has_source p r = true ∧ p ∈ dom m).
Proof. apply indexed_files_sources. Qed.

Lemma foldlM_all_ok {A B} (f : B → A → result B) (l : list A) (b : B) :
  (∀ b x, x ∈ l → ∃ b', f b x = Ok b') → ∃ b', foldlM f b l = Ok b'.
Proof.
  revert b. induction l as [|x l IH]; intros b Hok; [by eexists|].
  cbn. destruct (Hok b x) as [b1 ->]; [apply list_elem_of_here|]. cbn.
  apply IH. intros b' y Hy. apply Hok. by apply list_elem_of_further.
Qed.

Lemma foldlM_some_err {A B} (f : B → A → result B) (l : list A) (b : B) (x : A) :
  x ∈ l → (∀ b, ∃ e, f b x = Err e) → ∃ e, foldlM f b l = Err e.
Proof.
  revert b. induction l as [|y l IH]; intros b Hx Herr.
  - by apply not_elem_of_nil in Hx.
  - cbn. destruct (f b y) as [b1|e] eqn:Hy; cbn; [|by eexists].
    apply elem_of_cons in Hx as [->|Hx]; [|by apply IH].
    destruct (Herr b) as [e He]. congruence.
Qed.

Lemma indexed_files_ok (coll : Collection) :
  (∀ id r, coll !! id = Some r →
     ∃ p t, rec_metadata r !! "source_path" = Some (MStr p)
            ∧ rec_metadata r !! "modified" = Some (MFloat t)) →
  ∃ m, get_indexed_files coll = Ok m.
Proof.
  intros Hok. apply foldlM_all_ok. intros m md Hmd.
  apply elem_of_chroma_get_metadatas in Hmd as (id & r & Hr & <-).
  destruct (Hok id r Hr) as (p & t & Hp & Ht).
  unfold indexed_step. apply get_str_ok in Hp. apply get_float_ok in Ht.
  rewrite Hp, Ht. cbn. destruct (m !! p) as [old|]; [|by eexists].
  destruct (old <? t)%float; by eexists.
Qed.

(** X6: [get_indexed_files] returns a map when every record carries a source
    path and a modification time, and raises when some record lacks one
    of the two keys. *)
Theorem get_indexed_files_outcome (coll : Collection) :
  ((∀ id r, coll !! id = Some r →
      ∃ p t, rec_metadata r !! "source_path" = Some (MStr p)
             ∧ rec_metadata r !! "modified" = Some (MFloat t)) →
   ∃ m, get_indexed_files coll = Ok m)
  ∧ (∀ id r, coll !! id = Some r →
       rec_metadata r !! "source_path" = None
       ∨ rec_metadata r !! "modified" = None →
       ∃ e, get_indexed_files coll = Err e).
Proof.
  split; [apply indexed_files_ok|].
  intros id r Hr Hmiss.
  apply (foldlM_some_err _ _ _ (rec_metadata r)).
  - apply elem_of_chroma_get_metadatas. by exists id, r.
  - intros m. unfold indexed_step, get_str, get_float, getitem.
    destruct Hmiss as [->| Hmod]; [by eexists|].
    destruct (rec_metadata r !! "source_path") as [[| |]|]; cbn; try by eexists.
    rewrite Hmod. by eexists.
Qed.

End IndexedFiles.

(** ** The order of binary64 numbers *)

Section FloatOrder.

Ltac compare_cases :=
  repeat match goal with
    | |- context [Z.compare ?x ?y] => destruct (Z.compare_spec x y); subst
    | |- context [Pos.compare_cont Eq ?x ?y] =>
        change (Pos.compare_cont Eq x y) with (Pos.compare x y);
        destruct (Pos.compare_spec x y); subst
    end.

Lemma SFleb_trans (a b c : spec_float) :
  SFleb a b = true → SFleb b c = true → SFleb a c = true.
Proof.
  unfold SFleb, SFcompare.
  destruct a as [[]|[]| |[] ma ea], b as [[]|[]| |[] mb eb],
    c as [[]|[]| |[] mc ec]; try done;
    compare_cases; simpl; intros; try done; lia.
Qed.

Lemma SFltb_leb (a b : spec_float) : SFltb a b = true → SFleb a b = true.
Proof.
  unfold SFltb, SFleb. by destruct (SFcompare a b) as [[]|].
Qed.

Lemma SFltb_false_leb (a b : spec_float) :
  SFleb a a = true → SFleb b b = true → SFltb a b = false → SFleb b a = true.
Proof.
  unfold SFltb, SFleb, SFcompare.
  destruct a as [[]|[]| |[] ma ea], b as [[]|[]| |[] mb eb]; try done;
    compare_cases; simpl; intros; try done; lia.
Qed.

Lemma float_leb_trans (x y z : float) :
  (x <=? y)%float = true → (y <=? z)%float = true → (x <=? z)%float = true.
Proof. rewrite !leb_spec. apply SFleb_trans. Qed.

Lemma float_ltb_leb (x y : float) :
  (x <? y)%float = true → (x <=? y)%float = true.
Proof. rewrite ltb_spec, leb_spec. apply SFltb_leb. Qed.

Lemma float_ltb_false_leb (x y : float) :
  (x <=? x)%float = true → (y <=? y)%float = true →
  (x <? y)%float = false → (y <=? x)%float = true.
Proof. rewrite ltb_spec, !leb_spec. apply SFltb_false_leb. Qed.

Lemma SFleb_not_ltb (a b : spec_float) :
  SFleb a b = true → SFltb b a = false.
Proof.
  unfold SFleb, SFltb, SFcompare.
  destruct a as [[]|[]| |[] ma ea], b as [[]|[]| |[] mb eb]; try done;
    compare_cases; simpl; intros; try done; lia.
Qed.

Lemma SFleb_ltb_trans (a b c : spec_float) :
  SFleb a b = true → SFltb b c = true → SFltb a c = true.
Proof.
  unfold SFleb, SFltb, SFcompare.
  destruct a as [[]|[]| |[] ma ea], b as [[]|[]| |[] mb eb],
    c as [[]|[]| |[] mc ec]; try done;
    compare_cases; simpl; intros; try done; lia.
Qed.

Lemma float_leb_not_ltb (x y : float) :
  (x <=? y)%float = true → (y <? x)%float = false.
Proof. rewrite leb_spec, ltb_spec. apply SFleb_not_ltb. Qed.

Lemma float_leb_ltb_trans (x y z : float) :
  (x <=? y)%float = true → (y <? z)%float = true → (x <? z)%float = true.
Proof. rewrite leb_spec, !ltb_spec. apply SFleb_ltb_trans. Qed.

End FloatOrder.

(** ** The latest modification time *)

Section IndexedFilesLatest.
Import TextChunker VectorStore.

Lemma indexed_loop_latest (l : list (gmap string meta_value))
    (m0 m : gmap string float) :
  foldlM indexed_step m0 l = Ok m →
  (∀ md t, md ∈ l → md !! "modified" = Some (MFloat t) → (t <=? t)%float = true) →
  (∀ p old, m0 !! p = Some old → (old <=? old)%float = true) →
  ∀ p t, m !! p = Some t →
    (∀ old, m0 !! p = Some old → (old <=? t)%float = true)
    ∧ (∀ md t', md ∈ l → md !! "source_path" = Some (MStr p) →
                md !! "modified" = Some (MFloat t') → (t' <=? t)%float = true).
Proof.
  revert m0. induction l as [|md l IH]; intros m0 H Hnan H0 p t Ht.
  - injection H as <-. split.
    + intros old Hold. rewrite Ht in Hold. injection Hold as <-. by eapply H0.
    + intros md t' Hmd. by apply not_elem_of_nil in Hmd.
  - cbn in H. destruct (indexed_step m0 md) as [m1|] eqn:Hstep; [|done]. cbn in H.
    destruct (indexed_step_ok _ _ _ Hstep) as (p0 & t0 & Hp0 & Ht0 & Hm1).
    assert ((t0 <=? t0)%float = true) as Hn0
      by (apply (Hnan md t0); [apply list_elem_of_here | done]).
    assert (∀ q old, m1 !! q = Some old → (old <=? old)%float = true) as H1.
    { intros q old Hq. destruct Hm1 as [[-> _]|[-> _]]; [|by eapply H0].
      destruct (decide (p0 = q)) as [<-|Hne].
      - rewrite lookup_insert_eq in Hq. by injection Hq as <-.
      - rewrite lookup_insert_ne in Hq by done. by eapply H0. }
    destruct (IH m1 H (λ md' t' Hmd', Hnan md' t' (list_elem_of_further _ _ _ Hmd'))
                H1 p t Ht) as [Hold Hl].
    split.
    + intros old Hm0. destruct Hm1 as [[-> Hcase]|[-> _]]; [|by apply Hold].
      destruct (decide (p0 = p)) as [<-|Hne].
      * destruct Hcase as [Hnone|(old' & Hold' & Hlt)]; [congruence|].
        assert (old' = old) as -> by congruence.
        apply (float_leb_trans _ t0); [by apply float_ltb_leb|].
        apply Hold. by rewrite lookup_insert_eq.
      * apply Hold. by rewrite lookup_insert_ne.
    + intros md' t' [->|Hmd']%elem_of_cons Hp Hmod; [|by eapply Hl].
      assert (p = p0) as -> by congruence. assert (t' = t0) as -> by congruence.
      destruct Hm1 as [[-> _]|[-> (old & Hm0 & Hlt)]].
      * apply Hold. by rewrite lookup_insert_eq.
      * apply (float_leb_trans _ old); [|by apply Hold].
        apply float_ltb_false_leb; [by eapply H0 | done | done].
Qed.

Lemma indexed_files_latest (coll : Collection) (m : gmap string float)
    (p id : string) (r : IndexRecord) (t t' : float) :
  get_indexed_files coll = Ok m →
  (∀ id r t, coll !! id = Some r →
             rec_metadata r !! "modified" = Some (MFloat t) →
             (t <=? t)%float = true) →
  m !! p = Some t →
  coll !! id = Some r → has_source p r = true →
  rec_metadata r !! "modified" = Some (MFloat t') →
  (t' <=? t)%float = true.
Proof.
  unfold get_indexed_files. intros H Hnan Ht Hr Hs Hmod.
  eapply (indexed_loop_latest _ _ _ H); [| |exact Ht| | |exact Hmod].
  - intros md t0 Hmd Ht0.
    apply elem_of_chroma_get_metadatas in Hmd as (id0 & r0 & Hr0 & <-).
    by eapply Hnan.
  - intros q old Hq. by rewrite lookup_empty in Hq.
  - apply elem_of_chroma_get_metadatas. by exists id, r.
  - by apply has_source_true.
Qed.

(** X7: when no record carries a NaN as its modification time, the time
    that [get_indexed_files] gives for a path is the latest: no record of
    that path has a later one. *)
Theorem get_indexed_files_latest (coll : Collection) (m : gmap string float)
    (p id : string) (r : IndexRecord) (t t' : float) :
  get_indexed_files coll = Ok m →
  (∀ id r t, coll !! id = Some r →
             rec_metadata r !! "modified" = Some (MFloat t) →
             (t <=? t)%float = true) →
  m !! p = Some t →
  coll !! id = Some r → has_source p r = true →
  rec_metadata r !! "modified" = Some (MFloat t') →
  (t' <=? t)%float = true.
Proof. apply indexed_files_latest. Qed.

End IndexedFilesLatest.

(** ** Index statistics *)

Section CollectionStats.
Import TextChunker VectorStore.

Lemma sum_counts_insert (by_type : gmap string Z) (k : string) (v : Z) :
  sum_counts (<[k := v]> by_type)
  = v + sum_counts by_type - default 0 (by_type !! k).
Proof.
  unfold sum_counts.
  assert (∀ (m : gmap string Z) (j1 j2 : string) (z1 z2 y : Z),
            j1 ≠ j2 → m !! j1 = Some z1 → m !! j2 = Some z2 →
            z1 + (z2 + y) = z2 + (z1 + y)) as Hcomm by (intros; lia).
  destruct (by_type !! k) as [x|] eqn:Hk; simpl.
  - rewrite <- insert_delete_eq.
    rewrite map_fold_insert_L; [|by apply Hcomm | apply lookup_delete_eq].
    rewrite (map_fold_delete_L _ 0 k x by_type); [lia | by apply Hcomm | done].
  - rewrite map_fold_insert_L; [lia | by apply Hcomm | done].
Qed.

Lemma has_file_type_true (ty : string) (md : gmap string meta_value) :
  has_file_type ty md = true ↔ md !! "file_type" = Some (MStr ty).
Proof.
  unfold has_file_type. destruct (md !! "file_type") as [[s| |]|]; try done.
  rewrite String.eqb_eq. split; [by intros -> | by intros [= ->]].
Qed.

Lemma chroma_get_metadatas_length (coll : Collection) :
  length (chroma_get_metadatas coll) = size coll.
Proof.
  unfold chroma_get_metadatas. by rewrite !length_fmap, length_map_to_list.
Qed.

Lemma stats_step_ok (acc acc' : gset string * gmap string Z)
    (md : gmap string meta_value) :
  stats_step acc md = Ok acc' →
  ∃ p ty, md !! "source_path" = Some (MStr p)
          ∧ md !! "file_type" = Some (MStr ty)
          ∧ acc' = ({[p]} ∪ acc.1, <[ty := default 0 (acc.2 !! ty) + 1]> acc.2).
Proof.
  unfold stats_step. intros H.
  destruct (get_str md "source_path") as [p|] eqn:Hp; [|done]. cbn in H.
  destruct (get_str md "file_type") as [ty|] eqn:Hty; [|done]. cbn in H.
  apply get_str_ok in Hp. apply get_str_ok in Hty. injection H as <-.
  by exists p, ty.
Qed.

Lemma stats_loop (l : list (gmap string meta_value))
    (files0 files : gset string) (by_type0 by_type : gmap string Z) :
  foldlM stats_step (files0, by_type0) l = Ok (files, by_type) →
  (∀ p, p ∈ files
        ↔ p ∈ files0 ∨ ∃ md, md ∈ l ∧ md !! "source_path" = Some (MStr p))
  ∧ (size files ≤ size files0 + length l)%nat
  ∧ sum_counts by_type = sum_counts by_type0 + Z.of_nat (length l)
  ∧ (∀ ty, default 0 (by_type !! ty)
           = default 0 (by_type0 !! ty)
             + Z.of_nat (length (filter (λ md, has_file_type ty md = true) l)))
  ∧ (∀ ty, is_Some (by_type !! ty)
           ↔ is_Some (by_type0 !! ty)
             ∨ ∃ md, md ∈ l ∧ md !! "file_type" = Some (MStr ty)).
Proof.
  revert files0 by_type0. induction l as [|md l IH]; intros files0 by_type0 H.
  - injection H as <- <-. split; [|split; [|split; [|split]]].
    + intros p. split; [by left|].
      intros [?|(md & Hmd & _)]; [done | by apply not_elem_of_nil in Hmd].
    + simpl. lia.
    + simpl. lia.
    + intros ty. simpl. lia.
    + intros ty. split; [by left|].
      intros [?|(md & Hmd & _)]; [done | by apply not_elem_of_nil in Hmd].
  - cbn in H. destruct (stats_step (files0, by_type0) md) as [acc1|] eqn:Hstep; [|done].
    cbn in H.
    destruct (stats_step_ok _ _ _ Hstep) as (p0 & ty0 & Hp0 & Hty0 & ->).
    cbn [fst snd] in H.
    destruct (IH _ _ H) as (Hfiles & Hsize & Hsum & Hcount & Hkeys).
    split; [|split; [|split; [|split]]].
    + intros p. rewrite Hfiles, elem_of_union, elem_of_singleton. split.
      * intros [[->|?]|(md' & Hmd' & Hp)].
        -- right. exists md. split; [apply list_elem_of_here | done].
        -- by left.
        -- right. exists md'. split; [by apply list_elem_of_further | done].
      * intros [?|(md' & [->|Hmd']%elem_of_cons & Hp)].
        -- left. by right.
        -- left. left. congruence.
        -- right. by exists md'.
    + pose proof (size_union_alt (C := gset string) {[p0]} files0) as Hu.
      pose proof (subseteq_size (C := gset string) (files0 ∖ {[p0]}) files0) as Hd.
      rewrite size_singleton in Hu. simpl.
      assert (size (files0 ∖ {[p0]}) ≤ size files0)%nat by (apply Hd; set_solver).
      simpl in Hsize. lia.
    + rewrite Hsum, sum_counts_insert. simpl. lia.
    + intros ty. rewrite Hcount, filter_cons. simpl.
      destruct (decide (ty0 = ty)) as [<-|Hne].
      * rewrite lookup_insert_eq, decide_True by by apply has_file_type_true.
        simpl. lia.
      * rewrite lookup_insert_ne, decide_False; [done| |done].
        rewrite has_file_type_true. congruence.
    + intros ty. rewrite Hkeys. simpl. split.
      * intros [Hty|(md' & Hmd' & Hty)].
        -- destruct (decide (ty0 = ty)) as [<-|Hne].
           ++ right. exists md. split; [apply list_elem_of_here | done].
           ++ rewrite lookup_insert_ne in Hty by done. by left.
        -- right. exists md'. split; [by apply list_elem_of_further | done].
      * intros [Hty|(md' & [->|Hmd']%elem_of_cons & Hty)].
        -- left. destruct (decide (ty0 = ty)) as [<-|Hne].
           ++ rewrite lookup_insert_eq. by eexists.
           ++ by rewrite lookup_insert_ne.
        -- left. assert (ty = ty0) as -> by congruence.
           rewrite lookup_insert_eq. by eexists.
        -- right. by exists md'.
Qed.

(** X8: the statistics of a store: [total_chunks] is the number of records;
    the counts of [by_type] add up to it, the count of a file type being
    the number of records of that type, with no entry for a type without
    a record; [total_files] is at most [total_chunks], and it is the
    number of entries of the map of [get_indexed_files]. *)
Theorem get_collection_stats_counts (coll : Collection) (s : collection_stats) :
  get_collection_stats coll = Ok s →
  stats_total_chunks s = Z.of_nat (size coll)
  ∧ sum_counts (stats_by_type s) = stats_total_chunks s
  ∧ (∀ ty, default 0 (stats_by_type s !! ty)
           = Z.of_nat (length (filter (λ md, has_file_type ty md = true)
                                 (chroma_get_metadatas coll))))
  ∧ (∀ ty n, stats_by_type s !! ty = Some n → 0 < n ≤ stats_total_chunks s)
  ∧ 0 ≤ stats_total_files s ≤ stats_total_chunks s
  ∧ (∀ m, get_indexed_files coll = Ok m → stats_total_files s = Z.of_nat (size m)).
Proof.
  unfold get_collection_stats. intros H.
  destruct (Z.eqb_spec (Z.of_nat (size coll)) 0) as [H0|Hne].
  - injection H as <-. simpl.
    assert (coll = ∅) as -> by (apply map_size_empty_inv; lia).
    repeat split; try done.
    intros m Hm. cbv in Hm. by injection Hm as <-.
  - destruct (foldlM stats_step (∅, ∅) (chroma_get_metadatas coll))
      as [[files by_type]|e] eqn:Hloop; [|done].
    cbn in H. injection H as <-. simpl.
    destruct (stats_loop _ _ _ _ _ Hloop) as (Hfiles & Hsize & Hsum & Hcount & Hkeys).
    rewrite chroma_get_metadatas_length in Hsize, Hsum.
    rewrite size_empty in Hsize.
    split; [done|]. split; [exact Hsum|]. split; [exact Hcount|].
    split; [|split; [lia|]].
    + intros ty n Hty. pose proof (Hcount ty) as Hc. rewrite Hty, lookup_empty in Hc. simpl in Hc.
      destruct (proj1 (Hkeys ty)) as [[? Hemp]|(md & Hmd & Hmdty)]; [by eexists|..].
      { by rewrite lookup_empty in Hemp. }
      assert (md ∈ filter (λ md, has_file_type ty md = true)
                     (chroma_get_metadatas coll)) as Hin
        by (apply list_elem_of_filter; split; [by apply has_file_type_true | done]).
      pose proof (length_filter (λ md, has_file_type ty md = true)
                    (chroma_get_metadatas coll)) as Hle.
      rewrite chroma_get_metadatas_length in Hle.
      destruct (filter _ (chroma_get_metadatas coll)); [by apply not_elem_of_nil in Hin|].
      simpl in Hc, Hle. lia.
    + intros m Hm. rewrite <- (size_dom (D := gset string) m). do 2 f_equal.
      apply set_eq. intros p.
      destruct (indexed_files_sources _ _ Hm) as (Hdom & _ & _).
      rewrite Hdom, Hfiles. split.
      * intros [Hp|(md & Hmd & Hp)]; [by apply not_elem_of_empty in Hp|].
        apply elem_of_chroma_get_metadatas in Hmd as (id & r & Hr & <-).
        exists id, r. split; [done | by apply has_source_true].
      * intros (id & r & Hr & Hs). right. exists (rec_metadata r).
        split; [|by apply has_source_true].
        apply elem_of_chroma_get_metadatas. by exists id, r.
Qed.

End CollectionStats.

(** ** The full reconcile on the store *)

Section FullReconcile.
Import TextChunker VectorStore Search.
Variable count_tokens : string → Z.
Variable split_text : string → list string.
Variable path_name : string → string.
Variable get_embeddings_batch : list string → result (list (list float)).

Lemma delete_loop_lookup (to_delete : list string) (coll : Collection) (n : Z)
    (id : string) (r : IndexRecord) :
  (fold_left (λ '(c, deleted_count) p,
                let '(c', n) := delete_by_source c p in (c', deleted_count + n))
             to_delete (coll, n)).1 !! id = Some r
  ↔ coll !! id = Some r ∧ ∀ p, p ∈ to_delete → has_source p r = false.
Proof.
  revert coll n. induction to_delete as [|p ps IH]; intros coll n.
  - simpl. split; [intros H; split; [done|] | by intros [? _]].
    intros p Hp. by apply not_elem_of_nil in Hp.
  - cbn [fold_left].
    destruct (delete_by_source coll p) as [coll' m] eqn:Hdel.
    rewrite IH. change coll' with (coll', m).1. rewrite <- Hdel.
    rewrite delete_by_source_lookup. split.
    + intros [Hr Hps]. destruct (coll !! id) as [r'|]; simpl in Hr; [|done].
      destruct (has_source p r') eqn:Hs; [done|]. injection Hr as ->.
      split; [done|]. intros q [->|Hq]%elem_of_cons; [done | by apply Hps].
    + intros [Hr Hps]. rewrite Hr. simpl.
      rewrite (Hps p) by apply list_elem_of_here. split; [done|].
      intros q Hq. apply Hps. by apply list_elem_of_further.
Qed.

Lemma delete_loop_count (to_delete : list string) (coll : Collection) (n : Z) :
  (fold_left (λ '(c, deleted_count) p,
                let '(c', n) := delete_by_source c p in (c', deleted_count + n))
             to_delete (coll, n)).2
  = n + Z.of_nat (size coll)
    - Z.of_nat (size (fold_left (λ '(c, deleted_count) p,
                        let '(c', n) := delete_by_source c p in (c', deleted_count + n))
                      to_delete (coll, n)).1).
Proof.
  revert coll n. induction to_delete as [|p ps IH]; intros coll n.
  - simpl. lia.
  - cbn [fold_left].
    destruct (delete_by_source coll p) as [coll' m] eqn:Hdel.
    rewrite IH.
    pose proof (delete_by_source_size coll p) as Hsize.
    rewrite Hdel in Hsize. simpl in Hsize. lia.
Qed.

Lemma scanned_true (documents : list Document) (r : IndexRecord) :
  scanned documents r = true
  ↔ ∃ doc, doc ∈ documents ∧ has_source (path doc) r = true.
Proof.
  unfold scanned. rewrite existsb_exists. split.
  - intros (doc & Hdoc & Hs). exists doc. split; [|done].
    by apply list_elem_of_In.
  - intros (doc & Hdoc & Hs). exists doc. split; [|done].
    by apply list_elem_of_In.
Qed.

(** What the deletion of the vanished sources leaves: the records of
    the scanned documents. *)
Lemma delete_removed_scanned (coll : Collection) (m : gmap string float)
    (documents : list Document) :
  get_indexed_files coll = Ok m →
  (delete_removed coll (elements (dom m ∖ list_to_set (path <$> documents)))).1
  = filter (λ kr, scanned documents kr.2 = true) coll.
Proof.
  intros Hm. destruct (indexed_files_sources _ _ Hm) as (Hdom & _ & Hsrc).
  apply map_eq. intros id. apply option_eq. intros r.
  unfold delete_removed. rewrite delete_loop_lookup, map_lookup_filter_Some.
  cbn [snd]. split.
  - intros [Hr Hdel]. split; [done|].
    destruct (Hsrc id r Hr) as (p & Hp & Hpm).
    destruct (decide (p ∈ path <$> documents)) as [Hin|Hnin].
    + apply list_elem_of_fmap in Hin as (doc & -> & Hdoc).
      apply scanned_true. by exists doc.
    + rewrite Hdel in Hp; [done|]. apply elem_of_elements, elem_of_difference.
      split; [done|]. by rewrite elem_of_list_to_set.
  - intros [Hr Hscan]. split; [done|]. intros p Hp.
    apply elem_of_elements, elem_of_difference in Hp as [_ Hp].
    rewrite elem_of_list_to_set in Hp.
    destruct (has_source p r) eqn:Hs; [|done]. destruct Hp.
    apply scanned_true in Hscan as (doc & Hdoc & Hs').
    rewrite (has_source_inj _ _ _ Hs Hs'). apply list_elem_of_fmap. by exists doc.
Qed.

Lemma size_filter_complement (coll : Collection) (f : IndexRecord → bool) :
  (size (filter (λ kr, f kr.2 = true) coll)
   + size (filter (λ kr, f kr.2 = false) coll) = size coll)%nat.
Proof.
  rewrite <- (map_size_disj_union (filter (λ kr, f kr.2 = true) coll)).
  - f_equal. rewrite <- (map_filter_union_complement (λ kr, f kr.2 = true) coll) at 3.
    f_equal. apply map_filter_ext. intros id r _. simpl.
    by destruct (f r).
  - apply map_disjoint_spec. intros id r1 r2 H1 H2.
    apply map_lookup_filter_Some in H1 as [H1 Ht].
    apply map_lookup_filter_Some in H2 as [H2 Hf].
    simpl in *. congruence.
Qed.

(** The shape of a run of [index_vault] once the indexed-sources map is
    known. *)
Lemma index_vault_unfold (documents : list Document) (force : bool)
    (coll : Collection) (m : gmap string float) :
  indexed_files_of force coll = Ok m →
  let to_index := filter (λ doc, needs_indexing force m doc = true) documents in
  let d := delete_removed coll
             (elements (dom m ∖ list_to_set (path <$> documents))) in
  let chunks := chunk_all count_tokens split_text to_index in
  index_vault count_tokens split_text path_name get_embeddings_batch
    documents force coll
  = match to_index with
    | [] => (d.1, Ok {| documents_scanned := Z.of_nat (length documents);
                        documents_indexed := 0; chunks_created := 0;
                        chunks_deleted := d.2 |})
    | _ =>
        match get_embeddings_batch (content <$> chunks) with
        | Err e => (d.1, Err e)
        | Ok embeddings =>
            match upsert_chunks path_name d.1 chunks embeddings with
            | (coll', Err e) => (coll', Err e)
            | (coll', Ok _) =>
                (coll', Ok {| documents_scanned := Z.of_nat (length documents);
                              documents_indexed := Z.of_nat (length to_index);
                              chunks_created := Z.of_nat (length chunks);
                              chunks_deleted := d.2 |})
            end
        end
    end.
Proof.
  intros Hm. simpl. unfold index_vault. rewrite Hm, determine_work_eq.
  by destruct (delete_removed coll _) as [coll1 deleted_count].
Qed.

Lemma upsert_loop_origin
    (l : list (string * (string * (list float * gmap string meta_value))))
    (coll : Collection) (id : string) (r : IndexRecord) :
  fold_left upsert_one l coll !! id = Some r →
  coll !! id = Some r
  ∨ ∃ v, (id, v) ∈ l
         ∧ r = {| rec_document := v.1; rec_embedding := v.2.1;
                  rec_metadata := v.2.2 |}.
Proof.
  induction l as [|[k w] l IH] using rev_ind; intros Hr; [by left|].
  rewrite fold_left_app in Hr. cbn [fold_left] in Hr. unfold upsert_one at 1 in Hr.
  cbn [fst snd] in Hr. destruct (decide (k = id)) as [->|Hne].
  - rewrite lookup_insert_eq in Hr. injection Hr as <-. right. exists w.
    split; [|done]. apply elem_of_app. right. apply list_elem_of_here.
  - rewrite lookup_insert_ne in Hr by done.
    destruct (IH Hr) as [?|(v & Hv & ->)]; [by left|]. right. exists v.
    split; [|done]. apply elem_of_app. by left.
Qed.

(** Every record that [upsert_chunks] leaves in the store was there
    before or is the record of a chunk of the batch. *)
Lemma upsert_chunks_origin (coll : Collection) (chunks : list Chunk)
    (embeddings : list (list float)) (id : string) (r : IndexRecord) :
  (upsert_chunks path_name coll chunks embeddings).1 !! id = Some r →
  coll !! id = Some r
  ∨ ∃ c e, c ∈ chunks
           ∧ r = {| rec_document := content c; rec_embedding := e;
                    rec_metadata := chunk_to_metadata path_name c |}
           ∧ id = make_chunk_id c.
Proof.
  unfold upsert_chunks. destruct chunks as [|c0 chunks0] eqn:Hcs; [by left|].
  rewrite <- Hcs. clear Hcs. unfold chroma_upsert.
  case_bool_decide as Hnd; [|by left].
  case_bool_decide as Hlen; [|by left]. cbn [fst]. intros Hr.
  destruct (upsert_loop_origin _ _ _ _ Hr) as [?|(v & Hv & ->)]; [by left|].
  right. apply list_elem_of_lookup in Hv as [i Hi].
  rewrite !lookup_zip_with, !list_lookup_fmap in Hi.
  destruct (chunks !! i) as [c|] eqn:Hc; simpl in Hi; [|done].
  destruct (embeddings !! i) as [e|]; simpl in Hi; [|done].
  injection Hi as <- <-. exists c, e. split; [|done].
  by eapply list_elem_of_lookup_2.
Qed.

Lemma vault_drops_vanished (documents : list Document)
    (coll : Collection) (m : gmap string float) (id : string) (r : IndexRecord) :
  get_indexed_files coll = Ok m →
  (index_vault count_tokens split_text path_name get_embeddings_batch
     documents false coll).1 !! id = Some r →
  ∃ doc, doc ∈ documents ∧ has_source (path doc) r = true.
Proof.
  intros Hm. rewrite (index_vault_unfold documents false coll m Hm).
  rewrite (delete_removed_scanned _ _ _ Hm).
  set (coll1 := filter _ coll).
  assert (∀ id r, coll1 !! id = Some r →
            ∃ doc, doc ∈ documents ∧ has_source (path doc) r = true) as H1.
  { intros id' r' [_ Hs]%map_lookup_filter_Some. by apply scanned_true. }
  set (to_index := filter _ documents).
  destruct to_index as [|d0 ds] eqn:Hti; [by apply H1|]. rewrite <- Hti.
  destruct (get_embeddings_batch _) as [embeddings|e]; [|by apply H1].
  intros Hr.
  assert ((upsert_chunks path_name coll1
             (chunk_all count_tokens split_text to_index) embeddings).1 !! id
          = Some r) as Hr'.
  { by destruct (upsert_chunks _ _ _ _) as [coll2 [n|e]]. }
  destruct (upsert_chunks_origin _ _ _ _ _ Hr') as [?|(c & e & Hc & -> & _)];
    [by eapply H1|].
  apply chunk_all_elem in Hc as (doc & Hdoc & Hc).
  exists doc. split.
  - unfold to_index in Hdoc. by apply list_elem_of_filter in Hdoc as [_ ?].
  - pose proof (proj1 (Forall_forall _ _)
                  (chunk_document_sources count_tokens split_text doc) c Hc) as Hsrc.
    simpl in Hsrc. rewrite <- Hsrc. apply has_source_chunk.
Qed.

(** X9: a full reconcile without [force] leaves no record of a vanished
    file: whatever the outcome of the run, every record in the store
    afterwards carries the path of a document of the scan. *)
Theorem index_vault_drops_vanished (documents : list Document)
    (coll : Collection) (m : gmap string float) (id : string) (r : IndexRecord) :
  get_indexed_files coll = Ok m →
  (index_vault count_tokens split_text path_name get_embeddings_batch
     documents false coll).1 !! id = Some r →
  ∃ doc, doc ∈ documents ∧ has_source (path doc) r = true.
Proof. apply vault_drops_vanished. Qed.

(** X10: the statistics of a successful run without [force]: the documents
    scanned, the documents selected, the chunks made of them, and as
    [chunks_deleted] the number of records of the old store that belong
    to no document of the scan. *)
Theorem index_vault_statistics (documents : list Document)
    (coll coll' : Collection) (m : gmap string float) (stats : index_stats) :
  get_indexed_files coll = Ok m →
  index_vault count_tokens split_text path_name get_embeddings_batch
    documents false coll = (coll', Ok stats) →
  let to_index := filter (λ doc, needs_indexing false m doc = true) documents in
  documents_scanned stats = Z.of_nat (length documents)
  ∧ documents_indexed stats = Z.of_nat (length to_index)
  ∧ chunks_created stats
    = Z.of_nat (length (chunk_all count_tokens split_text to_index))
  ∧ chunks_deleted stats
    = Z.of_nat (size (filter (λ kr, scanned documents kr.2 = false) coll)).
Proof.
  intros Hm. rewrite (index_vault_unfold documents false coll m Hm).
  assert ((delete_removed coll
             (elements (dom m ∖ list_to_set (path <$> documents)))).2
          = Z.of_nat (size (filter (λ kr, scanned documents kr.2 = false) coll)))
    as Hdel.
  { unfold delete_removed. rewrite delete_loop_count.
    fold (delete_removed coll (elements (dom m ∖ list_to_set (path <$> documents)))).
    rewrite (delete_removed_scanned _ _ _ Hm).
    pose proof (size_filter_complement coll (scanned documents)). lia. }
  rewrite Hdel. simpl.
  destruct (filter _ documents) as [|d0 ds] eqn:Hti.
  - intros [= _ <-]. by simpl.
  - rewrite <- Hti.
    destruct (get_embeddings_batch _) as [embeddings|e]; [|done].
    destruct (upsert_chunks _ _ _ _) as [coll2 [n|e]]; [|done].
    intros [= _ <-]. by simpl.
Qed.

Lemma vault_up_to_date (documents : list Document)
    (coll : Collection) (m : gmap string float) :
  get_indexed_files coll = Ok m →
  (∀ doc, doc ∈ documents → needs_indexing false m doc = false) →
  dom m ⊆ list_to_set (path <$> documents) →
  index_vault count_tokens split_text path_name get_embeddings_batch
    documents false coll
  = (coll, Ok {| documents_scanned := Z.of_nat (length documents);
                 documents_indexed := 0; chunks_created := 0;
                 chunks_deleted := 0 |}).
Proof.
  intros Hm Hold Hdom. rewrite (index_vault_unfold documents false coll m Hm).
  assert (filter (λ doc, needs_indexing false m doc = true) documents = []) as ->.
  { apply elem_of_nil_inv. intros doc [Hn Hdoc]%list_elem_of_filter.
    rewrite (Hold doc Hdoc) in Hn. done. }
  assert (dom m ∖ list_to_set (path <$> documents) = ∅) as -> by set_solver.
  by rewrite elements_empty.
Qed.

(** X11: a run without [force] over a scan in which no document is newer
    than its recorded time, and which covers every indexed path, changes
    nothing: the store is left as it was, and no document is indexed,
    whatever the embedder would have answered. *)
Theorem index_vault_up_to_date (documents : list Document)
    (coll : Collection) (m : gmap string float) :
  get_indexed_files coll = Ok m →
  (∀ doc, doc ∈ documents → needs_indexing false m doc = false) →
  dom m ⊆ list_to_set (path <$> documents) →
  index_vault count_tokens split_text path_name get_embeddings_batch
    documents false coll
  = (coll, Ok {| documents_scanned := Z.of_nat (length documents);
                 documents_indexed := 0; chunks_created := 0;
                 chunks_deleted := 0 |}).
Proof. apply vault_up_to_date. Qed.

(** X12: a document that is not in the index and whose modification time is
    not above 0 is never selected without [force]: on an empty store a
    scan of such documents indexes nothing. *)
Theorem index_vault_epoch_documents (documents : list Document) :
  (∀ doc, doc ∈ documents → (0 <? doc_modified doc)%float = false) →
  index_vault count_tokens split_text path_name get_embeddings_batch
    documents false ∅
  = (∅, Ok {| documents_scanned := Z.of_nat (length documents);
              documents_indexed := 0; chunks_created := 0;
              chunks_deleted := 0 |}).
Proof.
  intros Hold.
  assert (indexed_files_of false ∅ = Ok ∅) as Hempty.
  { unfold indexed_files_of, get_indexed_files, chroma_get_metadatas. simpl.
    by rewrite map_to_list_empty. }
  rewrite (index_vault_unfold documents false ∅ ∅ Hempty).
  assert (filter (λ doc, needs_indexing false ∅ doc = true) documents = []) as ->.
  { apply elem_of_nil_inv. intros doc [Hn Hdoc]%list_elem_of_filter.
    unfold needs_indexing in Hn. rewrite lookup_empty in Hn. simpl in Hn.
    rewrite (Hold doc Hdoc) in Hn. done. }
  rewrite dom_empty_L.
  assert ((∅ : gset string) ∖ list_to_set (path <$> documents) = ∅) as ->
    by set_solver.
  by rewrite elements_empty.
Qed.

(** X13: a run with [force] deletes nothing: it selects every document of the
    scan, reports no chunk deleted, and leaves every record in place but
    those under the ids of the new chunks. *)
Theorem index_vault_force_deletes_nothing (documents : list Document)
    (coll : Collection) :
  (∀ id, id ∉ make_chunk_id <$> chunk_all count_tokens split_text documents →
         (index_vault count_tokens split_text path_name get_embeddings_batch
            documents true coll).1 !! id = coll !! id)
  ∧ (∀ stats,
       (index_vault count_tokens split_text path_name get_embeddings_batch
          documents true coll).2 = Ok stats →
       chunks_deleted stats = 0
       ∧ documents_indexed stats = Z.of_nat (length documents)
       ∧ chunks_created stats
         = Z.of_nat (length (chunk_all count_tokens split_text documents))).
Proof.
  rewrite (index_vault_unfold documents true coll ∅ eq_refl).
  assert (filter (λ doc, needs_indexing true ∅ doc = true) documents = documents)
    as ->.
  { induction documents as [|doc docs IH]; [done|].
    rewrite filter_cons, decide_True by done. by rewrite IH. }
  rewrite dom_empty_L.
  assert ((∅ : gset string) ∖ list_to_set (path <$> documents) = ∅) as ->
    by set_solver.
  rewrite elements_empty. cbn [delete_removed fold_left fst snd].
  destruct documents as [|d0 ds] eqn:Hdocs; [by split; [|intros ? [= <-]]|].
  rewrite <- Hdocs.
  destruct (get_embeddings_batch _) as [embeddings|e]; [|by split].
  pose proof (upsert_chunks_other path_name coll
                (chunk_all count_tokens split_text documents) embeddings) as Hother.
  destruct (upsert_chunks _ _ _ _) as [coll2 [n|e]]; simpl in *.
  - split; [exact Hother|]. by intros ? [= <-].
  - split; [exact Hother | done].
Qed.

End FullReconcile.

(** ** The single-file path on the store *)

Section SingleFile.
Import TextChunker VectorStore Search.
Variable count_tokens : string → Z.
Variable split_text : string → list string.
Variable path_name : string → string.
Variable path_str : string → string.
Variable path_file_type : string → string.
Variable get_embeddings_batch : list string → result (list (list float)).

(** The shape of a run of [index_single_file] on a file with text. *)
Lemma index_single_file_unfold (file_path text : string) (st : file_state)
    (coll : Collection) :
  fs_text st = Some text → text ≠ EmptyString →
  let p := path_str file_path in
  let doc := {| path := p; doc_content := text;
                doc_file_type := path_file_type file_path;
                doc_modified := fs_mtime st |} in
  let chunks := chunk_all count_tokens split_text [doc] in
  index_single_file count_tokens split_text path_name path_str path_file_type
    get_embeddings_batch file_path (Some st) coll
  = match chunks with
    | [] => (coll, Ok 0)
    | _ =>
        match get_embeddings_batch (content <$> chunks) with
        | Err e => (coll, Err e)
        | Ok embeddings =>
            match upsert_chunks path_name (delete_by_source coll p).1
                    chunks embeddings with
            | (coll', Err e) => (coll', Err e)
            | (coll', Ok _) => (coll', Ok (Z.of_nat (length chunks)))
            end
        end
    end.
Proof.
  intros Htext Hne. simpl. unfold index_single_file. rewrite Htext.
  destruct text as [|ch text]; [done|].
  destruct (chunk_all _ _ _) as [|c0 chunks0]; [done|].
  destruct (get_embeddings_batch _) as [embeddings|e]; [|done].
  by destruct (delete_by_source coll (path_str file_path)) as [coll1 n].
Qed.

(** X14: on a file that yields chunks, with one embedding for each,
    [index_single_file] replaces the chunk set of the path as a whole: it
    returns the number of chunks, and afterwards the records of the path
    are the records of the new chunks, under the ids with the indices
    below that number. *)
Theorem index_single_file_replaces_chunk_set (file_path text : string)
    (st : file_state) (coll : Collection) (embeddings : list (list float)) :
  let p := path_str file_path in
  let doc := {| path := p; doc_content := text;
                doc_file_type := path_file_type file_path;
                doc_modified := fs_mtime st |} in
  let chunks := chunk_document count_tokens split_text doc in
  fs_text st = Some text →
  PyStr.strip text ≠ EmptyString →
  chunks ≠ [] →
  get_embeddings_batch (content <$> chunks) = Ok embeddings →
  length embeddings = length chunks →
  ∃ coll',
    index_single_file count_tokens split_text path_name path_str path_file_type
      get_embeddings_batch file_path (Some st) coll
    = (coll', Ok (Z.of_nat (length chunks)))
    ∧ (∀ id, (∃ r, coll' !! id = Some r ∧ has_source p r = true)
             ↔ ∃ i : nat, (i < length chunks)%nat ∧ id = make_id p (Z.of_nat i))
    ∧ (∀ i c e, chunks !! i = Some c → embeddings !! i = Some e →
         coll' !! make_id p (Z.of_nat i)
         = Some {| rec_document := content c; rec_embedding := e;
                   rec_metadata := chunk_to_metadata path_name c |}).
Proof. apply index_single_file_replaces. Qed.

(** X15: for a path that no longer exists, [index_single_file] removes every
    record of the path and no other, and returns the number of records
    removed, negated. *)
Theorem index_single_file_missing_path (file_path : string) (coll : Collection) :
  ∃ coll' n,
    index_single_file count_tokens split_text path_name path_str path_file_type
      get_embeddings_batch file_path None coll = (coll', Ok (- n))
    ∧ n = Z.of_nat (size coll) - Z.of_nat (size coll')
    ∧ 0 ≤ n
    ∧ ∀ id r, coll' !! id = Some r
              ↔ coll !! id = Some r ∧ has_source (path_str file_path) r = false.
Proof.
  unfold index_single_file.
  pose proof (delete_by_source_size coll (path_str file_path)) as Hsize.
  pose proof (delete_by_source_count coll (path_str file_path)) as Hcount.
  pose proof (delete_by_source_lookup coll (path_str file_path)) as Hlookup.
  destruct (delete_by_source coll (path_str file_path)) as [coll1 n].
  simpl in *. exists coll1, n. split; [done|]. split; [done|]. split; [lia|].
  intros id r. rewrite Hlookup.
  destruct (coll !! id) as [r'|]; simpl; [|by split; [|intros [? _]]].
  destruct (has_source (path_str file_path) r') eqn:Hs.
  - split; [done|]. intros [[= ->] ?]. congruence.
  - split; [by intros [= ->] | by intros [? _]].
Qed.

(** X16: [index_single_file] writes to the store only after the embedder has
    answered: when the file has no text, yields no chunk, or the embedder
    fails, the store is left as it was. *)
Theorem index_single_file_embeds_first (file_path : string) (st : file_state)
    (coll : Collection) :
  (index_single_file count_tokens split_text path_name path_str path_file_type
     get_embeddings_batch file_path (Some st) coll).1 = coll
  ∨ ∃ text embeddings,
      fs_text st = Some text
      ∧ chunk_all count_tokens split_text
          [{| path := path_str file_path; doc_content := text;
              doc_file_type := path_file_type file_path;
              doc_modified := fs_mtime st |}] ≠ []
      ∧ get_embeddings_batch
          (content <$> chunk_all count_tokens split_text
             [{| path := path_str file_path; doc_content := text;
                 doc_file_type := path_file_type file_path;
                 doc_modified := fs_mtime st |}]) = Ok embeddings.
Proof.
  destruct (fs_text st) as [text|] eqn:Htext; [|left; unfold index_single_file;
                                                 by rewrite Htext].
  destruct (decide (text = EmptyString)) as [->|Hne].
  { left. unfold index_single_file. by rewrite Htext. }
  rewrite (index_single_file_unfold file_path text st coll Htext Hne).
  destruct (chunk_all _ _ _) as [|c0 chunks0] eqn:Hcs; [by left|].
  destruct (get_embeddings_batch _) as [embeddings|e] eqn:Hemb; [|by left].
  right. exists text, embeddings. rewrite Hcs. by repeat split.
Qed.

(** X17: a file whose text is blank gives no chunk: [index_single_file]
    returns 0 and leaves the store as it was, the records of the file's
    earlier text included. *)
Theorem index_single_file_blank_text (file_path text : string) (st : file_state)
    (coll : Collection) :
  fs_text st = Some text →
  PyStr.strip text = EmptyString →
  index_single_file count_tokens split_text path_name path_str path_file_type
    get_embeddings_batch file_path (Some st) coll = (coll, Ok 0).
Proof.
  intros Htext Hblank.
  destruct (decide (text = EmptyString)) as [->|Hne].
  { unfold index_single_file. by rewrite Htext. }
  rewrite (index_single_file_unfold file_path text st coll Htext Hne).
  unfold chunk_all. simpl. by rewrite Hblank.
Qed.

Lemma upsert_after_delete_twice (coll : Collection) (p : string)
    (chunks : list Chunk) (embeddings : list (list float)) :
  let once := (upsert_chunks path_name (delete_by_source coll p).1
                 chunks embeddings).1 in
  (upsert_chunks path_name (delete_by_source once p).1 chunks embeddings).1 = once.
Proof.
  intros once. unfold once, upsert_chunks.
  destruct chunks as [|c0 chunks0] eqn:Hcs.
  { cbn [fst]. by rewrite delete_by_source_again. }
  rewrite <- Hcs. clear Hcs. unfold chroma_upsert.
  case_bool_decide as Hnd; cbn [fst]; [|by rewrite delete_by_source_again].
  case_bool_decide as Hlen; cbn [fst]; [|by rewrite delete_by_source_again].
  set (batch := zip (make_chunk_id <$> chunks) _).
  apply map_eq. intros id.
  destruct (decide (id ∈ batch.*1)) as [Hin|Hnin].
  - by apply upsert_loop_same_keys.
  - rewrite !upsert_loop_other by done.
    rewrite delete_by_source_lookup, upsert_loop_other by done.
    rewrite delete_by_source_lookup.
    destruct (coll !! id) as [r|]; simpl; [|done].
    destruct (has_source p r) eqn:Hs; simpl; [done|]. by rewrite Hs.
Qed.

(** X18: running [index_single_file] a second time on the same file leaves
    the store as the first run left it. *)
Theorem index_single_file_idempotent (file_path : string)
    (on_disk : option file_state) (coll : Collection) :
  (index_single_file count_tokens split_text path_name path_str path_file_type
     get_embeddings_batch file_path on_disk
     (index_single_file count_tokens split_text path_name path_str path_file_type
        get_embeddings_batch file_path on_disk coll).1).1
  = (index_single_file count_tokens split_text path_name path_str path_file_type
       get_embeddings_batch file_path on_disk coll).1.
Proof.
  destruct on_disk as [st|].
  - destruct (fs_text st) as [text|] eqn:Htext;
      [|unfold index_single_file; by rewrite Htext].
    destruct (decide (text = EmptyString)) as [->|Hne].
    { unfold index_single_file. by rewrite Htext. }
    rewrite !(index_single_file_unfold file_path text st _ Htext Hne).
    destruct (chunk_all _ _ _) as [|c0 chunks0] eqn:Hcs; [done|]. rewrite <- Hcs.
    destruct (get_embeddings_batch _) as [embeddings|e]; [|done].
    pose proof (upsert_after_delete_twice coll (path_str file_path)
                  (chunk_all count_tokens split_text
                     [{| path := path_str file_path; doc_content := text;
                         doc_file_type := path_file_type file_path;
                         doc_modified := fs_mtime st |}]) embeddings) as Htwice.
    simpl in Htwice.
    destruct (upsert_chunks path_name (delete_by_source coll _).1 _ _)
      as [coll1 [n|e]] eqn:Hup1; simpl in *;
      by destruct (upsert_chunks path_name (delete_by_source coll1 _).1 _ _)
        as [coll2 [n'|e']].
  - unfold index_single_file.
    pose proof (delete_by_source_again coll (path_str file_path)) as Hagain.
    destruct (delete_by_source coll (path_str file_path)) as [coll1 n].
    simpl in *. by rewrite Hagain.
Qed.

End SingleFile.

(** ** The chunks of a document *)

Section ChunkFields.
Import TextChunker.
Variable count_tokens : string → Z.
Variable split_text : string → list string.

Lemma drop_length (k : nat) (s : string) :
  String.length (PyStr.drop k s) = (String.length s - k)%nat.
Proof.
  revert s. induction k as [|k IH]; intros [|c s]; simpl; done.
Qed.

Lemma drop_drop (a b : nat) (s : string) :
  PyStr.drop a (PyStr.drop b s) = PyStr.drop (b + a) s.
Proof.
  revert s. induction b as [|b IH]; intros s; [done|].
  destruct s as [|c s]; simpl; [by destruct a | apply IH].
Qed.

(** [find_from] returns an index at which the text stands. *)
Lemma find_from_spec (sub s : string) (i j : nat) :
  PyStr.find_from sub s i = Some j →
  (i ≤ j ≤ i + String.length s)%nat
  ∧ String.prefix sub (PyStr.drop (j - i) s) = true.
Proof.
  revert i. induction s as [|c s IH]; intros i; cbn [PyStr.find_from].
  - destruct (String.prefix sub EmptyString) eqn:Hp; [|done].
    intros [= <-]. rewrite Nat.sub_diag. simpl. split; [lia | done].
  - destruct (String.prefix sub (String c s)) eqn:Hp.
    + intros [= <-]. rewrite Nat.sub_diag. simpl. split; [lia | done].
    + intros H. destruct (IH _ H) as [Hij Hpre]. split; [simpl; lia|].
      replace (j - i)%nat with (S (j - S i)) by lia. done.
Qed.

(** [s.find(sub, start)] for [start >= 0] returns [-1] or an index from
    [start] on, within [s], at which [sub] stands. *)
Lemma find_spec (s sub : string) (start : Z) :
  0 ≤ start →
  PyStr.find s sub start = -1
  ∨ (start ≤ PyStr.find s sub start ≤ PyStr.len s
     ∧ String.prefix sub (PyStr.drop (Z.to_nat (PyStr.find s sub start)) s) = true).
Proof.
  intros Hstart. unfold PyStr.find.
  destruct (Z.ltb_spec start 0) as [?|_]; [lia|].
  destruct (Z.ltb_spec (PyStr.len s) start) as [?|Hle]; [by left|].
  destruct (PyStr.find_from sub (PyStr.drop (Z.to_nat start) s) (Z.to_nat start))
    as [j|] eqn:Hj; [|by left].
  right. destruct (find_from_spec _ _ _ _ Hj) as [Hij Hpre].
  rewrite drop_length in Hij. rewrite drop_drop in Hpre.
  unfold PyStr.len in *. rewrite Nat2Z.id. split; [lia|].
  by replace (Z.to_nat start + (j - Z.to_nat start))%nat with j in Hpre by lia.
Qed.

Lemma chunk_step_located (doc : Document) (n i : nat) (text : string)
    (acc : list Chunk) (pos : Z) :
  ∃ c, chunk_step count_tokens doc n (acc, pos) (i, text)
       = (acc ++ [c], char_end c - 100)
       ∧ content c = text
       ∧ chunk_of_document count_tokens doc c
       ∧ located doc pos c.
Proof.
  pose (found := PyStr.find (doc_content doc) (search_text text)
                  (Z.max 0 (pos - 150))).
  pose (start := if found =? -1 then pos else found).
  exists {| content := text; source_path := path doc;
            file_type := doc_file_type doc; chunk_index := Z.of_nat i;
            total_chunks := Z.of_nat n; modified := doc_modified doc;
            char_start := start; char_end := start + PyStr.len text;
            headers := extract_headers (doc_content doc) start;
            token_count := count_tokens text |}.
  split; [reflexivity|]. split; [done|]. split; [by repeat split|].
  unfold located. cbn [content char_start]. unfold start.
  destruct (find_spec (doc_content doc) (search_text text) (Z.max 0 (pos - 150)))
    as [Hnone|[Hrange Hpre]]; [lia | |]; unfold found.
  - rewrite Hnone. by left.
  - destruct (Z.eqb_spec (PyStr.find (doc_content doc) (search_text text)
                            (Z.max 0 (pos - 150))) (-1)) as [_|_];
      [by left | by right].
Qed.

Lemma chunk_loop_located (doc : Document) (n : nat) (its : list (nat * string))
    (acc : list Chunk) (pos : Z) :
  ∃ new,
    (fold_left (chunk_step count_tokens doc n) its (acc, pos)).1 = acc ++ new
    ∧ content <$> new = its.*2
    ∧ Forall (chunk_of_document count_tokens doc) new
    ∧ (∀ c, new !! 0%nat = Some c → located doc pos c)
    ∧ (∀ (j : nat) prev c, new !! j = Some prev → new !! S j = Some c →
         located doc (char_end prev - 100) c).
Proof.
  revert acc pos. induction its as [|[i text] its IH]; intros acc pos.
  - exists []. simpl. rewrite app_nil_r. by repeat split.
  - cbn [fold_left].
    destruct (chunk_step_located doc n i text acc pos) as (c0 & -> & Hc0 & Hf0 & Hl0).
    destruct (IH (acc ++ [c0]) (char_end c0 - 100))
      as (new & -> & Hcontent & Hfields & Hfirst & Hnext).
    exists (c0 :: new). rewrite <- app_assoc. split; [done|].
    split; [by rewrite !fmap_cons, Hcontent, Hc0|].
    split; [by constructor|]. split.
    + by intros c [= <-].
    + intros [|j] prev c Hprev Hc; simpl in *.
      * injection Hprev as <-. by apply Hfirst.
      * by eapply Hnext.
Qed.

Lemma chunk_of_document_set_total (doc : Document) (n : Z) (c : Chunk) :
  chunk_of_document count_tokens doc c →
  chunk_of_document count_tokens doc (set_total_chunks n c).
Proof. done. Qed.

Lemma located_set_total (doc : Document) (pos n : Z) (c : Chunk) :
  located doc pos c → located doc pos (set_total_chunks n c).
Proof. done. Qed.

Lemma chunk_document_of_document (doc : Document) :
  Forall (chunk_of_document count_tokens doc)
    (chunk_document count_tokens split_text doc).
Proof.
  unfold chunk_document.
  destruct (chunk_loop_located doc (length (split_text (doc_content doc)))
              (zip (seq 0 (length (split_text (doc_content doc))))
                 (split_text (doc_content doc))) [] 0)
    as (new & -> & _ & Hfields & _ & _).
  simpl. apply Forall_fmap. eapply Forall_impl; [exact Hfields|].
  intros c Hc. by apply chunk_of_document_set_total.
Qed.

(** X19: the chunks of a document carry, in order, the texts that the
    splitter returned; each copies the path, the file type and the
    modification time of the document, ends at its start plus the length
    of its text, counts the tokens of its text, and carries the header
    lineage of its start. *)
Theorem chunk_document_fields (doc : Document) :
  content <$> chunk_document count_tokens split_text doc
  = split_text (doc_content doc)
  ∧ Forall (chunk_of_document count_tokens doc)
      (chunk_document count_tokens split_text doc).
Proof.
  split; [|apply chunk_document_of_document].
  unfold chunk_document.
  destruct (chunk_loop_located doc (length (split_text (doc_content doc)))
              (zip (seq 0 (length (split_text (doc_content doc))))
                 (split_text (doc_content doc))) [] 0)
    as (new & -> & Hcontent & _ & _ & _).
  simpl. rewrite <- list_fmap_compose.
  rewrite snd_zip in Hcontent by (rewrite length_seq; lia). by rewrite <- Hcontent.
Qed.

(** X20: where the chunks of a document start: the first at offset 0 or at an
    offset at which its leading fragment stands; each next one at the end
    of the chunk before it less 100, or at an offset at which its leading
    fragment stands, not more than 250 before that end. *)
Theorem chunk_document_positions (doc : Document) (i : nat) (c : Chunk) :
  chunk_document count_tokens split_text doc !! i = Some c →
  match i with
  | O => located doc 0 c
  | S j =>
      ∃ prev, chunk_document count_tokens split_text doc !! j = Some prev
              ∧ located doc (char_end prev - 100) c
  end.
Proof.
  unfold chunk_document.
  destruct (chunk_loop_located doc (length (split_text (doc_content doc)))
              (zip (seq 0 (length (split_text (doc_content doc))))
                 (split_text (doc_content doc))) [] 0)
    as (new & -> & _ & _ & Hfirst & Hnext).
  simpl. intros Hc.
  apply list_lookup_fmap_Some in Hc as (c' & -> & Hc').
  destruct i as [|j].
  - apply located_set_total. by apply Hfirst.
  - destruct (lookup_lt_is_Some_2 new j) as [prev Hprev].
    { apply lookup_lt_Some in Hc'. lia. }
    exists (set_total_chunks (Z.of_nat (length new)) prev). split.
    + by rewrite list_lookup_fmap, Hprev.
    + apply located_set_total. cbn [char_end set_total_chunks].
      by apply (Hnext j prev c').
Qed.

Lemma chunk_all_loop_app (documents : list Document) (acc : list Chunk) :
  fold_left (λ all_chunks doc,
               match PyStr.strip (doc_content doc) with
               | String _ _ => all_chunks ++ chunk_document count_tokens split_text doc
               | EmptyString => all_chunks
               end) documents acc
  = acc ++ chunk_all count_tokens split_text documents.
Proof.
  unfold chunk_all. revert acc.
  induction documents as [|doc documents IH]; intros acc.
  - simpl. by rewrite app_nil_r.
  - cbn [fold_left]. rewrite IH. rewrite (IH (match _ with
                                               | EmptyString => []
                                               | String _ _ => _ end)).
    destruct (PyStr.strip (doc_content doc)); [done|].
    by rewrite app_nil_l, app_assoc.
Qed.

Lemma chunk_all_bind (documents : list Document) :
  chunk_all count_tokens split_text documents
  = documents ≫= (λ doc, chunk_all count_tokens split_text [doc]).
Proof.
  induction documents as [|doc documents IH]; [done|].
  cbn [mbind list_bind]. rewrite <- IH.
  unfold chunk_all at 1. cbn [fold_left]. rewrite chunk_all_loop_app.
  unfold chunk_all at 2. cbn [fold_left].
  by destruct (PyStr.strip (doc_content doc)).
Qed.

(** X21: the chunks of a list of documents are the chunks of each document on
    its own, one document after the other: what a document contributes
    does not depend on the documents around it. *)
Theorem chunk_all_by_document (documents : list Document) :
  chunk_all count_tokens split_text documents
  = documents ≫= (λ doc, chunk_all count_tokens split_text [doc]).
Proof. apply chunk_all_bind. Qed.

End ChunkFields.

(** ** Header lines *)

Section HeaderLines.
Import TextChunker.

Lemma stack_of_lines_mono (seen seen' : list string) (st : header_stack) :
  seen ⊆ seen' → stack_of_lines seen st → stack_of_lines seen' st.
Proof.
  intros Hsub (H1 & H2 & H3). split; [|split]; intros h Hh.
  - destruct (H1 h Hh). auto.
  - destruct (H2 h Hh). auto.
  - destruct (H3 h Hh). auto.
Qed.

Lemma header_step_lines (seen : list string) (st : header_stack) (line : string) :
  stack_of_lines seen st → stack_of_lines (seen ++ [line]) (header_step st line).
Proof.
  intros Hst.
  assert (line ∈ seen ++ [line]) as Hline
    by (apply elem_of_app; right; apply list_elem_of_here).
  pose proof (stack_of_lines_mono seen (seen ++ [line]) st
                ltac:(intros x Hx; apply elem_of_app; by left) Hst)
    as (H1 & H2 & H3).
  unfold header_step.
  destruct (PyStr.startswith line "# " && negb (PyStr.startswith line "##"))
    eqn:Hl1.
  { apply andb_prop in Hl1 as [Hl1 _].
    split; [|split]; simpl; [by intros h [= <-] | done | done]. }
  destruct (PyStr.startswith line "## " && negb (PyStr.startswith line "###"))
    eqn:Hl2.
  { apply andb_prop in Hl2 as [Hl2 _].
    split; [exact H1|]. split; simpl; [by intros h [= <-] | done]. }
  destruct (PyStr.startswith line "### ") eqn:Hl3.
  { split; [exact H1|]. split; [exact H2|]. simpl. by intros h [= <-]. }
  done.
Qed.

Lemma header_loop_lines (lines seen : list string) (st : header_stack) :
  stack_of_lines seen st →
  stack_of_lines (seen ++ lines) (fold_left header_step lines st).
Proof.
  revert seen st. induction lines as [|line lines IH]; intros seen st Hst.
  - by rewrite app_nil_r.
  - cbn [fold_left]. rewrite (cons_middle line seen lines), app_assoc.
    apply IH. by apply header_step_lines.
Qed.

Lemma active_header_elem (o : option string) (h : string) :
  h ∈ (if PyStr.truthy o then option_list o else []) → o = Some h.
Proof.
  destruct o as [[|c s]|]; simpl; intros Hh.
  - by apply not_elem_of_nil in Hh.
  - by apply list_elem_of_singleton in Hh as ->.
  - by apply not_elem_of_nil in Hh.
Qed.

(** X22: the header lineage of an offset is made of lines of the text before
    the offset, each beginning as a header of level 1, 2 or 3; and it is
    read off that text alone: what follows the offset does not change
    it. *)
Theorem extract_headers_reads_before (before after : string) :
  (∀ h, h ∈ extract_headers (before +:+ after) (PyStr.len before) →
        h ∈ PyStr.split before PyStr.LF
        ∧ (PyStr.startswith h "# " = true ∨ PyStr.startswith h "## " = true
           ∨ PyStr.startswith h "### " = true))
  ∧ extract_headers (before +:+ after) (PyStr.len before)
    = extract_headers before (PyStr.len before).
Proof.
  unfold extract_headers, lines_before. rewrite slice_to_app, slice_to_whole.
  split; [|done]. intros h Hh.
  pose proof (header_loop_lines (PyStr.split before PyStr.LF) [] no_headers)
    as (H1 & H2 & H3).
  { by repeat split. }
  rewrite app_nil_l in H1, H2, H3. unfold active_headers in Hh.
  set (st := fold_left header_step (PyStr.split before PyStr.LF) no_headers) in *.
  apply elem_of_app in Hh as [Hh|Hh]; [|apply elem_of_app in Hh as [Hh|Hh]];
    apply active_header_elem in Hh.
  - destruct (H1 h Hh). auto.
  - destruct (H2 h Hh). auto.
  - destruct (H3 h Hh). auto.
Qed.

End HeaderLines.

(** ** Search results *)

Section SearchDecoding.
Import TextChunker VectorStore.
Variable chroma_query :
  Collection → list (list float) → Z → option (gmap string meta_value)
  → result QueryResult.

Lemma mapM_result_length {A B} (f : A → result B) (l : list A) (rs : list B) :
  mapM f l = Ok rs → length rs = length l.
Proof.
  revert rs. induction l as [|x l IH]; intros rs Hm.
  - by injection Hm as <-.
  - cbn in Hm. destruct (f x) as [y|e]; [|discriminate]. cbn in Hm.
    destruct (mapM f l) as [k|e] eqn:Hk; [|discriminate]. cbn in Hm.
    injection Hm as <-. simpl. by rewrite (IH k).
Qed.

Lemma search_result_at_chunk (results : QueryResult) (i : nat) (r : SearchResult) :
  search_result_at results i = Ok r →
  ∃ docs mds doc md,
    qr_documents results !! 0%nat = Some docs ∧ docs !! i = Some doc
    ∧ qr_metadatas results !! 0%nat = Some mds ∧ mds !! i = Some md
    ∧ metadata_to_chunk md doc = Ok (chunk r).
Proof.
  unfold search_result_at, getindex. intros H.
  destruct (qr_documents results !! 0%nat) as [docs|]; [|discriminate]. cbn in H.
  destruct (docs !! i) as [doc|] eqn:Hdoc; [|discriminate]. cbn in H.
  destruct (qr_metadatas results !! 0%nat) as [mds|]; [|discriminate]. cbn in H.
  destruct (mds !! i) as [md|] eqn:Hmd; [|discriminate]. cbn in H.
  destruct (qr_distances results !! 0%nat) as [ds|]; [|discriminate]. cbn in H.
  destruct (ds !! i) as [d|]; [|discriminate]. cbn in H.
  destruct (checked_score d) as [sc|]; [|discriminate]. cbn in H.
  destruct (metadata_to_chunk md doc) as [c|] eqn:Hc; [|discriminate]. cbn in H.
  injection H as <-. by exists docs, mds, doc, md.
Qed.

(** X23: a search returns one result for every id of the store's answer, in
    the order of the answer; the chunk of the result at a position is
    rebuilt, by [metadata_to_chunk], from the metadata and the document
    that the store reports at that position. *)
Theorem search_decodes_answer (coll : Collection) (query_embedding : list float)
    (n_results : Z) (filters : option (gmap string meta_value))
    (found : list SearchResult) :
  search chroma_query coll query_embedding n_results filters = Ok found →
  ∃ results,
    chroma_query coll [query_embedding] n_results (where_of filters) = Ok results
    ∧ length found = length (default [] (qr_ids results !! 0%nat))
    ∧ ∀ (i : nat) r, found !! i = Some r →
        ∃ docs mds doc md,
          qr_documents results !! 0%nat = Some docs ∧ docs !! i = Some doc
          ∧ qr_metadatas results !! 0%nat = Some mds ∧ mds !! i = Some md
          ∧ metadata_to_chunk md doc = Ok (chunk r).
Proof.
  intros H. destruct (search_results_at _ _ _ _ _ _ H) as (results & Hq & Hat).
  exists results. split; [done|]. split.
  - unfold search in H. rewrite Hq in H. cbn in H.
    destruct (qr_ids results) as [|[|id ids0] rest]; try by injection H as <-.
    apply mapM_result_length in H. by rewrite length_seq in H.
  - intros i r Hr. apply search_result_at_chunk. by apply Hat.
Qed.

End SearchDecoding.

(** ** Metadata with a key missing *)

Section MetadataKeys.
Import TextChunker VectorStore.
Variable path_name : string → string.

(** X24: of the metadata that [chunk_to_metadata] writes, [metadata_to_chunk]
    needs eight keys: with one of them missing it raises [KeyError] for
    that key. The key [file_name] is not read, and a missing [headers]
    key is read as no headers. *)
Theorem metadata_to_chunk_missing_key (c : Chunk) (text : string) :
  (∀ k, k ∈ required_keys →
        metadata_to_chunk (delete k (chunk_to_metadata path_name c)) text
        = Err (KeyError k))
  ∧ metadata_to_chunk (delete "file_name" (chunk_to_metadata path_name c)) text
    = metadata_to_chunk (chunk_to_metadata path_name c) text
  ∧ metadata_to_chunk (delete "headers" (chunk_to_metadata path_name c)) text
    = Ok {| content := text; source_path := source_path c;
            file_type := file_type c; chunk_index := chunk_index c;
            total_chunks := total_chunks c; modified := modified c;
            char_start := char_start c; char_end := char_end c;
            headers := []; token_count := token_count c |}.
Proof.
  split; [|split].
  - intros k Hk. unfold required_keys in Hk.
    repeat (apply elem_of_cons in Hk as [->|Hk]);
      [..|by apply not_elem_of_nil in Hk];
      unfold metadata_to_chunk, chunk_to_metadata, get_str, get_int, get_float,
        getitem; by simplify_map_eq.
  - unfold metadata_to_chunk, chunk_to_metadata, get_str, get_int, get_float,
      getitem. by simplify_map_eq.
  - unfold metadata_to_chunk, chunk_to_metadata, get_str, get_int, get_float,
      getitem. by simplify_map_eq.
Qed.

End MetadataKeys.

(** ** CSV extraction *)

Section CsvExtraction.
Import FileReader.

Lemma csv_loop_rows (rows : list (list string)) (rest : list (result (list string)))
    (i : nat) (lines : list string) :
  (i + length rows ≤ 101)%nat →
  csv_loop i lines ((Ok <$> rows) ++ rest)
  = csv_loop (i + length rows) (lines ++ (PyStr.join " | " <$> rows)) rest.
Proof.
  revert i lines. induction rows as [|row rows IH]; intros i lines Hi.
  - simpl. by rewrite Nat.add_0_r, app_nil_r.
  - simpl in *. unfold CSV_MAX_ROWS.
    destruct (Z.leb_spec (100 + 1) (Z.of_nat i)) as [?|_]; [lia|].
    rewrite IH by lia. rewrite <- app_assoc. simpl. f_equal. lia.
Qed.

(** X25: [extract_csv] joins the cells of a row by [" | "] and the rows by
    line feeds. It keeps the first 101 rows; when the reader yields a
    row after them, one line is added, which reads "... (101 more rows)"
    however many rows follow, and nothing after that row is read. When
    the reader raises within what is read, the text of the file is
    returned as it is. *)
Theorem extract_csv_rows (content : string) (rows : list (list string))
    (rest : list (result (list string))) :
  ((length rows ≤ 101)%nat →
   extract_csv content (Ok <$> rows)
   = PyStr.join PyStr.LF (PyStr.join " | " <$> rows))
  ∧ (∀ row, length rows = 101%nat →
       extract_csv content ((Ok <$> rows) ++ Ok row :: rest)
       = PyStr.join PyStr.LF
           ((PyStr.join " | " <$> rows) ++ ["... (101 more rows)"%string]))
  ∧ (∀ e, (length rows ≤ 101)%nat →
       extract_csv content ((Ok <$> rows) ++ Err e :: rest) = content).
Proof.
  unfold extract_csv. split; [|split].
  - intros Hlen. rewrite <- (app_nil_r (Ok <$> rows)).
    by rewrite csv_loop_rows by (simpl; lia).
  - intros row Hlen. rewrite csv_loop_rows by (simpl; lia).
    rewrite Hlen. reflexivity.
  - intros e Hlen. by rewrite csv_loop_rows by (simpl; lia).
Qed.

End CsvExtraction.

(** ** The store across runs *)

Section AcrossRuns.
Import TextChunker VectorStore Search.
Variable count_tokens : string → Z.
Variable split_text : string → list string.
Variable path_name : string → string.
Variable path_str : string → string.
Variable path_file_type : string → string.
Variable get_embeddings_batch : list string → result (list (list float)).

Lemma last_index_with {A} (P : A → Prop) `{∀ x, Decision (P x)}
    (l : list A) (i : nat) (x : A) :
  l !! i = Some x → P x →
  ∃ (j : nat) y, l !! j = Some y ∧ P y
                 ∧ ∀ (k : nat) z, l !! k = Some z → P z → (k ≤ j)%nat.
Proof.
  revert i x. induction l as [|a l IH] using rev_ind; intros i x Hi Hx; [done|].
  destruct (decide (P a)) as [Ha|Hna].
  - exists (length l), a. split; [by rewrite list_lookup_middle|]. split; [done|].
    intros k z Hk _. apply lookup_lt_Some in Hk. rewrite length_app in Hk.
    simpl in Hk. lia.
  - assert (i < length l)%nat as Hlt.
    { destruct (decide (i = length l)) as [->|Hne].
      - rewrite list_lookup_middle in Hi by done. by injection Hi as ->.
      - apply lookup_lt_Some in Hi. rewrite length_app in Hi. simpl in Hi. lia. }
    rewrite lookup_app_l in Hi by done.
    destruct (IH i x Hi Hx) as (j & y & Hj & Hy & Hlast).
    exists j, y. split; [|split; [done|]].
    + rewrite lookup_app_l; [done|]. by eapply lookup_lt_Some.
    + intros k z Hk Hz. destruct (decide (k = length l)) as [->|Hne].
      * rewrite list_lookup_middle in Hk by done. by injection Hk as ->.
      * apply (Hlast k z); [|done]. rewrite lookup_app_l in Hk; [done|].
        apply lookup_lt_Some in Hk. rewrite length_app in Hk. simpl in Hk. lia.
Qed.

Lemma well_formed_subset (coll coll' : Collection) :
  (∀ id r, coll' !! id = Some r → coll !! id = Some r) →
  well_formed path_name coll → well_formed path_name coll'.
Proof. intros Hsub Hwf id r Hr. by apply Hwf, Hsub. Qed.

Lemma well_formed_upsert (coll : Collection) (chunks : list Chunk)
    (embeddings : list (list float)) :
  well_formed path_name coll →
  well_formed path_name (upsert_chunks path_name coll chunks embeddings).1.
Proof.
  intros Hwf id r Hr.
  destruct (upsert_chunks_origin _ _ _ _ _ _ Hr) as [Hold|(c & e & _ & -> & ->)];
    [by apply Hwf|].
  by exists c, e.
Qed.

Lemma well_formed_delete (coll : Collection) (p : string) :
  well_formed path_name coll → well_formed path_name (delete_by_source coll p).1.
Proof.
  apply well_formed_subset. intros id r. rewrite delete_by_source_lookup.
  destruct (coll !! id) as [r'|]; simpl; [|done].
  by destruct (has_source p r').
Qed.

Lemma well_formed_delete_removed (coll : Collection) (to_delete : list string) :
  well_formed path_name coll →
  well_formed path_name (delete_removed coll to_delete).1.
Proof.
  apply well_formed_subset. intros id r Hr.
  unfold delete_removed in Hr. by apply delete_loop_lookup in Hr as [? _].
Qed.

Lemma vault_well_formed (documents : list Document) (force : bool)
    (coll : Collection) :
  well_formed path_name coll →
  well_formed path_name
    (index_vault count_tokens split_text path_name get_embeddings_batch
       documents force coll).1.
Proof.
  intros Hwf.
  destruct (indexed_files_of force coll) as [m|e] eqn:Hm;
    [|unfold index_vault; by rewrite Hm].
  rewrite (index_vault_unfold count_tokens split_text path_name
             get_embeddings_batch documents force coll m Hm).
  pose proof (well_formed_delete_removed coll
                (elements (dom m ∖ list_to_set (path <$> documents))) Hwf) as H1.
  destruct (filter _ documents) as [|d0 ds] eqn:Hti; [done|]. rewrite <- Hti.
  destruct (get_embeddings_batch _) as [embeddings|e]; [|done].
  pose proof (well_formed_upsert _
                (chunk_all count_tokens split_text
                   (filter (λ doc, needs_indexing force m doc = true) documents))
                embeddings H1) as H2.
  by destruct (upsert_chunks _ _ _ _) as [coll2 [n|e]].
Qed.

Lemma single_file_well_formed (file_path : string) (on_disk : option file_state)
    (coll : Collection) :
  well_formed path_name coll →
  well_formed path_name
    (index_single_file count_tokens split_text path_name path_str path_file_type
       get_embeddings_batch file_path on_disk coll).1.
Proof.
  intros Hwf. destruct on_disk as [st|].
  - destruct (fs_text st) as [text|] eqn:Htext;
      [|unfold index_single_file; by rewrite Htext].
    destruct (decide (text = EmptyString)) as [->|Hne].
    { unfold index_single_file. by rewrite Htext. }
    rewrite (index_single_file_unfold count_tokens split_text path_name path_str
               path_file_type get_embeddings_batch file_path text st coll Htext Hne).
    destruct (chunk_all _ _ _) as [|c0 chunks0] eqn:Hcs; [done|]. rewrite <- Hcs.
    destruct (get_embeddings_batch _) as [embeddings|e]; [|done].
    pose proof (well_formed_upsert _
                  (chunk_all count_tokens split_text
                     [{| path := path_str file_path; doc_content := text;
                         doc_file_type := path_file_type file_path;
                         doc_modified := fs_mtime st |}])
                  embeddings (well_formed_delete coll (path_str file_path) Hwf))
      as H2.
    by destruct (upsert_chunks _ _ _ _) as [coll2 [n|e]].
  - unfold index_single_file.
    pose proof (well_formed_delete coll (path_str file_path) Hwf) as H1.
    by destruct (delete_by_source coll (path_str file_path)) as [coll1 n].
Qed.

(** X26: the store keeps its shape: when every record is the record of a
    chunk and sits under the id of that chunk, the same holds after
    [index_vault] and after [index_single_file], whatever their outcome;
    and it holds of the empty store. *)
Theorem store_stays_well_formed (coll : Collection) :
  well_formed path_name coll →
  (∀ documents force,
     well_formed path_name
       (index_vault count_tokens split_text path_name get_embeddings_batch
          documents force coll).1)
  ∧ (∀ file_path on_disk,
       well_formed path_name
         (index_single_file count_tokens split_text path_name path_str
            path_file_type get_embeddings_batch file_path on_disk coll).1)
  ∧ well_formed path_name ∅.
Proof.
  intros Hwf. split; [|split].
  - intros documents force. by apply vault_well_formed.
  - intros file_path on_disk. by apply single_file_well_formed.
  - intros id r Hr. by rewrite lookup_empty in Hr.
Qed.

Lemma elem_of_chunk_all (documents : list Document) (c : Chunk) :
  c ∈ chunk_all count_tokens split_text documents
  ↔ ∃ doc, doc ∈ documents ∧ c ∈ chunk_all count_tokens split_text [doc].
Proof.
  rewrite (chunk_all_bind count_tokens split_text documents).
  rewrite list_elem_of_bind. split.
  - intros (doc & Hc & Hdoc). by exists doc.
  - intros (doc & Hdoc & Hc). by exists doc.
Qed.

Lemma chunk_all_single (doc : Document) (c : Chunk) :
  c ∈ chunk_all count_tokens split_text [doc] →
  c ∈ chunk_document count_tokens split_text doc.
Proof.
  intros Hc. apply chunk_all_elem in Hc as (doc' & Hdoc' & Hc).
  by apply list_elem_of_singleton in Hdoc' as ->.
Qed.

(** Two chunks of one scan with one id are one chunk, when the paths of
    the scan are distinct. *)
Lemma chunk_all_same_id (documents : list Document) (c c' : Chunk) :
  distinct_paths documents →
  c ∈ chunk_all count_tokens split_text documents →
  c' ∈ chunk_all count_tokens split_text documents →
  make_chunk_id c = make_chunk_id c' → c = c'.
Proof.
  intros Hdist Hc Hc' Hid.
  apply chunk_all_elem in Hc as (d & Hd & Hc).
  apply chunk_all_elem in Hc' as (d' & Hd' & Hc').
  apply list_elem_of_lookup in Hc as [i Hi].
  apply list_elem_of_lookup in Hc' as [i' Hi'].
  rewrite (chunk_document_at _ _ _ _ _ Hi), (chunk_document_at _ _ _ _ _ Hi') in Hid.
  apply make_id_inj in Hid as [Hp Hii].
  assert (d = d') as <- by by apply Hdist.
  assert (i = i') as <- by lia. congruence.
Qed.

Lemma upsert_chunks_holds (coll coll' : Collection) (chunks : list Chunk)
    (embeddings : list (list float)) (n : Z) (c : Chunk) :
  upsert_chunks path_name coll chunks embeddings = (coll', Ok n) →
  (∀ c', c' ∈ chunks → make_chunk_id c' = make_chunk_id c → c' = c) →
  c ∈ chunks →
  ∃ e, coll' !! make_chunk_id c = Some (record_of_chunk path_name c e).
Proof.
  intros Hup Hsame Hc.
  destruct (upsert_chunks_accepted path_name coll coll' chunks embeddings n)
    as [Hlen Hnd]; [by intros -> ; apply not_elem_of_nil in Hc | done |].
  rewrite (upsert_chunks_ok path_name _ _ _ Hlen Hnd) in Hup. injection Hup as <- _.
  apply list_elem_of_lookup in Hc as [i Hi].
  destruct (last_index_with (λ c', make_chunk_id c' = make_chunk_id c) chunks i c
              Hi eq_refl) as (j & c' & Hj & Hid & Hlast).
  assert (c' = c) as -> by (apply Hsame; [by eapply list_elem_of_lookup_2 | done]).
  destruct (lookup_lt_is_Some_2 embeddings j) as [e He].
  { rewrite Hlen. by eapply lookup_lt_Some. }
  exists e.
  apply (upsert_loop_last _ coll j (make_chunk_id c)
           (content c, (e, chunk_to_metadata path_name c))).
  - by rewrite upsert_batch_lookup, Hj, He.
  - intros k v' Hk. rewrite upsert_batch_lookup in Hk.
    destruct (chunks !! k) as [ck|] eqn:Hck; simpl in Hk; [|done].
    destruct (embeddings !! k) as [ek|]; simpl in Hk; [|done].
    injection Hk as Hidk _. by apply (Hlast k ck).
Qed.

Lemma vault_stores_chunks (documents : list Document) (force : bool)
    (coll coll' : Collection) (m : gmap string float) (stats : index_stats)
    (doc : Document) (c : Chunk) :
  distinct_paths documents →
  indexed_files_of force coll = Ok m →
  index_vault count_tokens split_text path_name get_embeddings_batch
    documents force coll = (coll', Ok stats) →
  doc ∈ documents → needs_indexing force m doc = true →
  c ∈ chunk_all count_tokens split_text [doc] →
  ∃ e, coll' !! make_chunk_id c = Some (record_of_chunk path_name c e).
Proof.
  intros Hdist Hm Hrun Hdoc Hneed Hc.
  rewrite (index_vault_unfold count_tokens split_text path_name
             get_embeddings_batch documents force coll m Hm) in Hrun.
  cbv zeta in Hrun.
  remember (filter (λ doc, needs_indexing force m doc = true) documents)
    as to_index eqn:Hti.
  assert (∀ d, d ∈ to_index → d ∈ documents) as Hsub
    by (subst to_index; intros d Hd; by apply list_elem_of_filter in Hd as [_ ?]).
  assert (doc ∈ to_index) as Hsel
    by (subst to_index; by apply list_elem_of_filter).
  clear Hti.
  assert (c ∈ chunk_all count_tokens split_text to_index) as Hin
    by (apply elem_of_chunk_all; by exists doc).
  assert (distinct_paths to_index) as Hdist'.
  { intros d1 d2 Hd1 Hd2. apply Hdist; by apply Hsub. }
  destruct to_index as [|d0 ds] eqn:Hcons; [by apply not_elem_of_nil in Hsel|].
  rewrite <- Hcons in *.
  destruct (get_embeddings_batch _) as [embeddings|e]; [|done].
  destruct (upsert_chunks _ _ _ _) as [coll2 [n|e]] eqn:Hup; [|done].
  injection Hrun as <- _.
  apply (upsert_chunks_holds _ _ _ _ _ _ Hup); [|done].
  intros c' Hc' Hid. by apply (chunk_all_same_id to_index).
Qed.

(** X27: after a successful run of [index_vault] over a scan with distinct
    paths, every chunk of every selected document is in the store, under
    its id, with its content and metadata. *)
Theorem index_vault_stores_chunks (documents : list Document) (force : bool)
    (coll coll' : Collection) (m : gmap string float) (stats : index_stats)
    (doc : Document) (c : Chunk) :
  distinct_paths documents →
  indexed_files_of force coll = Ok m →
  index_vault count_tokens split_text path_name get_embeddings_batch
    documents force coll = (coll', Ok stats) →
  doc ∈ documents → needs_indexing force m doc = true →
  c ∈ chunk_all count_tokens split_text [doc] →
  ∃ e, coll' !! make_chunk_id c = Some (record_of_chunk path_name c e).
Proof. apply vault_stores_chunks. Qed.

Lemma record_of_chunk_source (c : Chunk) (e : list float) (p : string) :
  has_source p (record_of_chunk path_name c e) = true ↔ source_path c = p.
Proof.
  rewrite has_source_true. unfold record_of_chunk, chunk_to_metadata. simpl.
  rewrite lookup_insert_eq. split; [by intros [= ->] | by intros ->].
Qed.

Lemma record_of_chunk_modified (c : Chunk) (e : list float) :
  rec_metadata (record_of_chunk path_name c e) !! "modified"
  = Some (MFloat (modified c)).
Proof. unfold record_of_chunk, chunk_to_metadata. by simplify_map_eq. Qed.

Lemma well_formed_indexed (coll : Collection) :
  well_formed path_name coll → ∃ m, get_indexed_files coll = Ok m.
Proof.
  intros Hwf. apply indexed_files_ok. intros id r Hr.
  destruct (Hwf id r Hr) as (c & e & -> & _).
  exists (source_path c), (modified c). split.
  - by apply has_source_true, record_of_chunk_source.
  - apply record_of_chunk_modified.
Qed.

(** X28: right after a successful run of [index_vault] without [force] a
    second run over the same scan finds nothing to do and leaves the
    store as it is. This holds of a store in which every record sits
    under the id of its chunk, with no NaN among the modification times,
    for a scan with distinct paths in which every selected document
    yields a chunk. *)
Theorem index_vault_second_run (documents : list Document)
    (coll coll' : Collection) (m : gmap string float) (stats : index_stats) :
  well_formed path_name coll →
  no_nan_times coll →
  distinct_paths documents →
  (∀ doc, doc ∈ documents → (doc_modified doc <=? doc_modified doc)%float = true) →
  get_indexed_files coll = Ok m →
  (∀ doc, doc ∈ documents → needs_indexing false m doc = true →
          chunk_all count_tokens split_text [doc] ≠ []) →
  index_vault count_tokens split_text path_name get_embeddings_batch
    documents false coll = (coll', Ok stats) →
  index_vault count_tokens split_text path_name get_embeddings_batch
    documents false coll'
  = (coll', Ok {| documents_scanned := Z.of_nat (length documents);
                  documents_indexed := 0; chunks_created := 0;
                  chunks_deleted := 0 |}).
Proof.
  intros Hwf Hnan Hdist Hdocs Hm Hchunks Hrun.
  assert (well_formed path_name coll') as Hwf'.
  { change coll' with (coll', @Ok index_stats stats).1. rewrite <- Hrun.
    by apply vault_well_formed. }
  destruct (well_formed_indexed coll' Hwf') as [m' Hm'].
  assert (∀ id r, coll' !! id = Some r →
            ∃ doc, doc ∈ documents ∧ has_source (path doc) r = true) as Hscan.
  { intros id r Hr.
    apply (vault_drops_vanished count_tokens split_text path_name
             get_embeddings_batch documents coll m id r Hm).
    by rewrite Hrun. }
  (* where the records of the new store come from *)
  assert (∀ id r, coll' !! id = Some r →
            coll !! id = Some r
            ∨ ∃ d c e, d ∈ documents ∧ needs_indexing false m d = true
                       ∧ c ∈ chunk_all count_tokens split_text [d]
                       ∧ r = record_of_chunk path_name c e
                       ∧ id = make_chunk_id c) as Horigin.
  { intros id r Hr.
    rewrite (index_vault_unfold count_tokens split_text path_name
               get_embeddings_batch documents false coll m Hm) in Hrun.
    cbv zeta in Hrun.
    assert (∀ id r, (delete_removed coll
                       (elements (dom m ∖ list_to_set (path <$> documents)))).1
                    !! id = Some r → coll !! id = Some r) as Hsub.
    { intros id0 r0 H0. unfold delete_removed in H0.
      by apply delete_loop_lookup in H0 as [? _]. }
    remember (filter (λ doc, needs_indexing false m doc = true) documents)
      as to_index eqn:Hti.
    assert (∀ d, d ∈ to_index → needs_indexing false m d = true ∧ d ∈ documents)
      as Hsel by (subst to_index; intros d Hd; by apply list_elem_of_filter in Hd).
    clear Hti.
    destruct to_index as [|d0 ds] eqn:Hcons.
    { injection Hrun as <- _. left. by apply Hsub. }
    rewrite <- Hcons in *.
    destruct (get_embeddings_batch _) as [embeddings|e]; [|done].
    destruct (upsert_chunks _ _ _ _) as [coll2 [n|e]] eqn:Hup; [|done].
    injection Hrun as <- _.
    assert ((upsert_chunks path_name
               (delete_removed coll
                  (elements (dom m ∖ list_to_set (path <$> documents)))).1
               (chunk_all count_tokens split_text to_index) embeddings).1 !! id
            = Some r) as Hr' by by rewrite Hup.
    destruct (upsert_chunks_origin _ _ _ _ _ _ Hr') as [?|(c & e & Hc & -> & ->)].
    - left. by apply Hsub.
    - right. apply elem_of_chunk_all in Hc as (d & Hd & Hc).
      destruct (Hsel d Hd) as [Hneed Hd']. by exists d, c, e. }
  assert (no_nan_times coll') as Hnan'.
  { intros id r t Hr Ht.
    destruct (Horigin id r Hr) as [Hold|(d & c & e & Hd & _ & Hc & -> & _)];
      [by eapply Hnan|].
    rewrite record_of_chunk_modified in Ht. injection Ht as <-.
    apply chunk_all_single in Hc.
    pose proof (proj1 (Forall_forall _ _)
                  (chunk_document_of_document count_tokens split_text d) c Hc)
      as (_ & _ & -> & _).
    by apply Hdocs. }
  destruct (indexed_files_sources _ _ Hm) as (Hdom & Hval & _).
  destruct (indexed_files_sources _ _ Hm') as (Hdom' & Hval' & _).
  apply (vault_up_to_date count_tokens split_text path_name get_embeddings_batch
           documents coll' m' Hm').
  - intros doc Hdoc. unfold needs_indexing. simpl.
    destruct (needs_indexing false m doc) eqn:Hneed.
    + (* selected: one of its chunks is in the store *)
      destruct (chunk_all count_tokens split_text [doc]) as [|c cs] eqn:Hcs;
        [by destruct (Hchunks doc Hdoc Hneed)|].
      assert (c ∈ chunk_all count_tokens split_text [doc]) as Hc
        by (rewrite Hcs; apply list_elem_of_here).
      destruct (vault_stores_chunks documents false coll coll' m stats doc c
                  Hdist Hm Hrun Hdoc Hneed Hc) as [e Hstored].
      pose proof (proj1 (Forall_forall _ _)
                    (chunk_document_of_document count_tokens split_text doc) c
                    (chunk_all_single doc c Hc)) as (Hsrc & _ & Hmod & _).
      assert (has_source (path doc) (record_of_chunk path_name c e) = true) as Hs
        by by apply record_of_chunk_source.
      destruct (m' !! path doc) as [t'|] eqn:Ht'.
      * simpl. apply float_leb_not_ltb.
        apply (indexed_files_latest coll' m' (path doc) (make_chunk_id c)
                 (record_of_chunk path_name c e) t' (doc_modified doc) Hm' Hnan' Ht'
                 Hstored Hs).
        by rewrite record_of_chunk_modified, Hmod.
      * exfalso. apply not_elem_of_dom in Ht'. apply Ht', Hdom'.
        by exists (make_chunk_id c), (record_of_chunk path_name c e).
    + (* not selected: the records of its path are those of the old store *)
      assert (∀ id r, coll' !! id = Some r → has_source (path doc) r = true →
                coll !! id = Some r) as Hback.
      { intros id r Hr Hs.
        destruct (Horigin id r Hr) as [?|(d & c & e & Hd & Hdn & Hc & -> & _)];
          [done|].
        apply record_of_chunk_source in Hs. apply chunk_all_single in Hc.
        pose proof (proj1 (Forall_forall _ _)
                      (chunk_document_of_document count_tokens split_text d) c Hc)
          as (Hsrc & _).
        assert (d = doc) as -> by (apply Hdist; [done | done | congruence]).
        congruence. }
      assert (∀ id r, coll !! id = Some r → has_source (path doc) r = true →
                coll' !! id = Some r) as Hforth.
      { intros id r Hr Hs.
        rewrite (index_vault_unfold count_tokens split_text path_name
                   get_embeddings_batch documents false coll m Hm) in Hrun.
        cbv zeta in Hrun. rewrite (delete_removed_scanned _ _ _ Hm) in Hrun.
        assert (filter (λ kr, scanned documents kr.2 = true) coll !! id = Some r)
          as Hr1.
        { apply map_lookup_filter_Some. split; [done|]. apply scanned_true.
          by exists doc. }
        remember (filter (λ doc, needs_indexing false m doc = true) documents)
          as to_index eqn:Hti.
        assert (∀ d, d ∈ to_index →
                  needs_indexing false m d = true ∧ d ∈ documents) as Hsel
          by (subst to_index; intros d Hd; by apply list_elem_of_filter in Hd).
        clear Hti.
        destruct to_index as [|d0 ds] eqn:Hcons; [by injection Hrun as <- _|].
        rewrite <- Hcons in *.
        destruct (get_embeddings_batch _) as [embeddings|e]; [|done].
        pose proof (upsert_chunks_other path_name
                      (filter (λ kr, scanned documents kr.2 = true) coll)
                      (chunk_all count_tokens split_text to_index) embeddings id)
          as Hother.
        destruct (upsert_chunks _ _ _ _) as [coll2 [n|e]] eqn:Hup; [|done].
        injection Hrun as <- _. simpl in Hother. rewrite Hother; [done|].
        intros (c & Hid & Hc)%list_elem_of_fmap.
        apply elem_of_chunk_all in Hc as (d & Hd & Hc).
        destruct (Hsel d Hd) as [Hdn Hd'].
        apply chunk_all_single in Hc.
        pose proof (proj1 (Forall_forall _ _)
                      (chunk_document_of_document count_tokens split_text d) c Hc)
          as (Hsrc & _).
        destruct (Hwf id r Hr) as (cr & er & -> & Hidr).
        apply record_of_chunk_source in Hs.
        assert (normalize_path (path d) = normalize_path (path doc)) as Hnorm.
        { rewrite Hidr in Hid. unfold make_chunk_id in Hid.
          apply make_id_inj in Hid as [Hp _]. congruence. }
        assert (d = doc) as -> by by apply Hdist.
        congruence. }
      unfold needs_indexing in Hneed. simpl in Hneed.
      destruct (m' !! path doc) as [t'|] eqn:Ht'; simpl.
      * destruct (Hval' _ _ Ht') as (id' & r' & Hr' & Hs' & Hmod').
        pose proof (Hback id' r' Hr' Hs') as Hrold.
        destruct (m !! path doc) as [t|] eqn:Ht; simpl in Hneed.
        -- destruct (Hval _ _ Ht) as (id0 & r0 & Hr0 & Hs0 & Hmod0).
           pose proof (Hforth id0 r0 Hr0 Hs0) as Hrnew.
           pose proof (indexed_files_latest coll' m' (path doc) id0 r0 t' t
                         Hm' Hnan' Ht' Hrnew Hs0 Hmod0) as Hle.
           destruct (t' <? doc_modified doc)%float eqn:Hlt; [|done].
           by rewrite (float_leb_ltb_trans _ _ _ Hle Hlt) in Hneed.
        -- exfalso. apply not_elem_of_dom in Ht. apply Ht, Hdom.
           by exists id', r'.
      * destruct (m !! path doc) as [t|] eqn:Ht; simpl in Hneed; [|done].
        exfalso. destruct (Hval _ _ Ht) as (id0 & r0 & Hr0 & Hs0 & _).
        apply not_elem_of_dom in Ht'. apply Ht', Hdom'.
        exists id0, r0. split; [by apply Hforth | done].
  - intros p Hp. apply Hdom' in Hp as (id & r & Hr & Hs).
    destruct (Hscan id r Hr) as (doc & Hdoc & Hs').
    rewrite (has_source_inj _ _ _ Hs Hs').
    apply elem_of_list_to_set, list_elem_of_fmap. by exists doc.
Qed.

End AcrossRuns.

(** ** The properties of the store and the pipeline on concrete inputs *)

Section FurtherExamples.
Import TextChunker VectorStore Search FileReader Examples.

Lemma store_a2_eq :
  store_a2
  = <["a.md::chunk_0" := record_of_chunk path_name chunk_a2_0 [300%float]]>
      (<["a.md::chunk_1" := record_of_chunk path_name chunk_a2_1 [300%float]]> ∅).
Proof. vm_compute. reflexivity. Qed.

Lemma store_a2_records (id : string) (r : IndexRecord) :
  store_a2 !! id = Some r →
  (id = "a.md::chunk_0"%string
   ∧ r = record_of_chunk path_name chunk_a2_0 [300%float])
  ∨ (id = "a.md::chunk_1"%string
     ∧ r = record_of_chunk path_name chunk_a2_1 [300%float]).
Proof.
  rewrite store_a2_eq. intros H.
  apply lookup_insert_Some in H as [[<- <-]|[_ H]]; [by left|].
  apply lookup_insert_Some in H as [[<- <-]|[_ H]]; [by right|].
  by rewrite lookup_empty in H.
Qed.

Lemma store_a2_no_nan : no_nan_times store_a2.
Proof.
  intros id r t Hr Ht.
  destruct (store_a2_records id r Hr) as [[_ ->]|[_ ->]];
    vm_compute in Ht; by injection Ht as <-.
Qed.

Lemma single_document_distinct (doc : Document) : distinct_paths [doc].
Proof.
  intros d1 d2 Hd1 Hd2 _.
  apply list_elem_of_singleton in Hd1. apply list_elem_of_singleton in Hd2.
  congruence.
Qed.

Lemma chunks_ab_ids : NoDup (make_chunk_id <$> chunks_ab).
Proof.
  apply (bool_decide_unpack (NoDup (make_chunk_id <$> chunks_ab))).
  vm_compute. reflexivity.
Qed.

Lemma upsert_chunks_stores_witness :
  (∃ coll',
     upsert_chunks path_name ∅ chunks_ab embeddings_ab
     = (coll', Ok (Z.of_nat (length chunks_ab)))
     ∧ (∀ id, id ∉ make_chunk_id <$> chunks_ab →
              coll' !! id = (∅ : Collection) !! id)
     ∧ (∀ (i : nat) c e,
          chunks_ab !! i = Some c → embeddings_ab !! i = Some e →
          coll' !! make_chunk_id c
          = Some {| rec_document := content c; rec_embedding := e;
                    rec_metadata := chunk_to_metadata path_name c |}))
  ∧ ∃ e, upsert_chunks path_name ∅ chunks_same_id embeddings_ab
         = (∅, Err e).
Proof.
  split.
  - apply (upsert_chunks_stores path_name ∅ chunks_ab embeddings_ab);
      [reflexivity | apply chunks_ab_ids].
  - apply (upsert_chunks_stores path_name ∅ chunks_same_id embeddings_ab);
      [reflexivity|].
    intros Hnd.
    apply (bool_decide_pack (NoDup (make_chunk_id <$> chunks_same_id))) in Hnd.
    vm_compute in Hnd. done.
Defined.

Lemma upsert_chunks_read_back_witness :
  ∃ r, (upsert_chunks path_name ∅ chunks_ab embeddings_ab).1
       !! make_chunk_id (chunk_of "b.md" 0 ["# B"; "## Part"]%string) = Some r
       ∧ embeddings_ab !! 1%nat = Some (rec_embedding r)
       ∧ metadata_to_chunk (rec_metadata r) (rec_document r)
         = Ok (chunk_of "b.md" 0 ["# B"; "## Part"]%string).
Proof.
  apply (upsert_chunks_read_back path_name ∅ chunks_ab embeddings_ab 1
           (chunk_of "b.md" 0 ["# B"; "## Part"]%string)).
  - reflexivity.
  - apply chunks_ab_ids.
  - reflexivity.
  - unfold int64_fields, int64. simpl. lia.
  - simpl. repeat constructor; done.
  - simpl. intros [|[|i]] h Hh Hi; simpl in *; [by injection Hh as <- | lia | lia].
Defined.

Lemma get_indexed_files_sources_witness :
  (∀ p, p ∈ dom ({["a.md" := 100%float]} : gmap string float)
        ↔ ∃ id r, store_a2 !! id = Some r ∧ has_source p r = true)
  ∧ (∀ p t, ({["a.md" := 100%float]} : gmap string float) !! p = Some t →
       ∃ id r, store_a2 !! id = Some r ∧ has_source p r = true
               ∧ rec_metadata r !! "modified" = Some (MFloat t))
  ∧ (∀ id r, store_a2 !! id = Some r →
       ∃ p, has_source p r = true
            ∧ p ∈ dom ({["a.md" := 100%float]} : gmap string float)).
Proof.
  apply (get_indexed_files_sources store_a2 {["a.md" := 100%float]}).
  vm_compute. reflexivity.
Defined.

Lemma get_indexed_files_outcome_witness :
  ∃ e, get_indexed_files (<["x" := record_no_source]> store_a2) = Err e.
Proof.
  apply (proj2 (get_indexed_files_outcome (<["x" := record_no_source]> store_a2))
           "x"%string record_no_source).
  - apply lookup_insert_eq.
  - left. reflexivity.
Defined.

Lemma get_indexed_files_latest_witness :
  get_indexed_files store_a2 = Ok {["a.md" := 100%float]}
  ∧ store_a2 !! "a.md::chunk_1" = Some record_a2_1
  ∧ (100 <=? 100)%float = true.
Proof.
  split; [vm_compute; reflexivity|]. split; [vm_compute; reflexivity|].
  apply (get_indexed_files_latest store_a2 {["a.md" := 100%float]} "a.md"
           "a.md::chunk_1" record_a2_1 100 100).
  - vm_compute. reflexivity.
  - apply store_a2_no_nan.
  - reflexivity.
  - vm_compute. reflexivity.
  - vm_compute. reflexivity.
  - vm_compute. reflexivity.
Defined.

Lemma get_collection_stats_counts_witness :
  let s := {| stats_total_chunks := 2; stats_total_files := 1;
              stats_by_type := {["md" := 2]} |} in
  get_collection_stats store_a2 = Ok s
  ∧ stats_total_chunks s = Z.of_nat (size store_a2)
  ∧ sum_counts (stats_by_type s) = stats_total_chunks s
  ∧ (∀ ty, default 0 (stats_by_type s !! ty)
           = Z.of_nat (length (filter (λ md, has_file_type ty md = true)
                                 (chroma_get_metadatas store_a2))))
  ∧ (∀ ty n, stats_by_type s !! ty = Some n → 0 < n ≤ stats_total_chunks s)
  ∧ 0 ≤ stats_total_files s ≤ stats_total_chunks s
  ∧ (∀ m, get_indexed_files store_a2 = Ok m →
          stats_total_files s = Z.of_nat (size m)).
Proof.
  split; [vm_compute; reflexivity|].
  apply (get_collection_stats_counts store_a2
           {| stats_total_chunks := 2; stats_total_files := 1;
              stats_by_type := {["md" := 2]} |}).
  vm_compute. reflexivity.
Defined.

Lemma index_vault_drops_vanished_witness :
  ∃ doc, doc ∈ [a_md_shrunk] ∧ has_source (path doc) record_a2_1 = true.
Proof.
  apply (index_vault_drops_vanished count_tokens split_text path_name
           get_embeddings_batch [a_md_shrunk] store_a2 {["a.md" := 100%float]}
           "a.md::chunk_1" record_a2_1).
  - vm_compute. reflexivity.
  - vm_compute. reflexivity.
Defined.

Lemma index_vault_statistics_witness :
  let stats := {| documents_scanned := 1; documents_indexed := 1;
                  chunks_created := 1; chunks_deleted := 0 |} in
  let to_index :=
    filter (λ doc, needs_indexing false {["a.md" := 100%float]} doc = true)
      [a_md_shrunk] in
  documents_scanned stats = Z.of_nat (length [a_md_shrunk])
  ∧ documents_indexed stats = Z.of_nat (length to_index)
  ∧ chunks_created stats
    = Z.of_nat (length (chunk_all count_tokens split_text to_index))
  ∧ chunks_deleted stats
    = Z.of_nat (size (filter (λ kr, scanned [a_md_shrunk] kr.2 = false) store_a2)).
Proof.
  apply (index_vault_statistics count_tokens split_text path_name
           get_embeddings_batch [a_md_shrunk] store_a2 store_a2_shrunk
           {["a.md" := 100%float]}).
  - vm_compute. reflexivity.
  - vm_compute. reflexivity.
Defined.

Lemma index_vault_up_to_date_witness :
  index_vault count_tokens split_text path_name get_embeddings_batch
    [a_md] false store_a2
  = (store_a2, Ok {| documents_scanned := Z.of_nat (length [a_md]);
                     documents_indexed := 0; chunks_created := 0;
                     chunks_deleted := 0 |}).
Proof.
  apply (index_vault_up_to_date count_tokens split_text path_name
           get_embeddings_batch [a_md] store_a2 {["a.md" := 100%float]}).
  - vm_compute. reflexivity.
  - intros doc Hdoc. apply list_elem_of_singleton in Hdoc as ->. reflexivity.
  - intros p Hp. apply elem_of_dom in Hp as [t Hp].
    apply lookup_singleton_Some in Hp as [<- _].
    apply elem_of_list_to_set. apply list_elem_of_here.
Defined.

Lemma index_vault_epoch_documents_witness :
  index_vault count_tokens split_text path_name get_embeddings_batch
    [epoch_md] false ∅
  = (∅, Ok {| documents_scanned := Z.of_nat (length [epoch_md]);
              documents_indexed := 0; chunks_created := 0;
              chunks_deleted := 0 |}).
Proof.
  apply (index_vault_epoch_documents count_tokens split_text path_name
           get_embeddings_batch [epoch_md]).
  intros doc Hdoc. apply list_elem_of_singleton in Hdoc as ->. reflexivity.
Defined.

Lemma index_single_file_replaces_chunk_set_witness :
  ∃ coll',
    index_single_file count_tokens split_text path_name (λ p, p)
      (λ _, "md"%string) get_embeddings_batch "a.md"
      (Some {| fs_text := Some "one"%string; fs_mtime := 200 |}) store_a2
    = (coll', Ok 1)
    ∧ dom coll' = {["a.md::chunk_0"%string]}.
Proof.
  destruct (index_single_file_replaces_chunk_set count_tokens split_text path_name
              (λ p, p) (λ _, "md"%string) get_embeddings_batch "a.md" "one"
              {| fs_text := Some "one"%string; fs_mtime := 200 |} store_a2
              [[300%float]])
    as (coll' & Hrun & _ & _).
  - reflexivity.
  - vm_compute. discriminate.
  - vm_compute. discriminate.
  - vm_compute. reflexivity.
  - reflexivity.
  - exists coll'. split; [exact Hrun|].
    assert (coll' = (index_single_file count_tokens split_text path_name (λ p, p)
                       (λ _, "md"%string) get_embeddings_batch "a.md"
                       (Some {| fs_text := Some "one"%string; fs_mtime := 200 |})
                       store_a2).1) as -> by by rewrite Hrun.
    vm_compute. reflexivity.
Defined.

Lemma index_single_file_blank_text_witness :
  index_single_file count_tokens split_text path_name (λ p, p)
    (λ _, "md"%string) get_embeddings_batch "a.md"
    (Some {| fs_text := Some "  "%string; fs_mtime := 200 |}) store_a2
  = (store_a2, Ok 0).
Proof.
  apply (index_single_file_blank_text count_tokens split_text path_name
           (λ p, p) (λ _, "md"%string) get_embeddings_batch "a.md" "  "
           {| fs_text := Some "  "%string; fs_mtime := 200 |} store_a2).
  - reflexivity.
  - reflexivity.
Defined.

Lemma chunk_document_positions_witness :
  ∃ prev, chunk_document count_tokens split_text a_md !! 0%nat = Some prev
          ∧ located a_md (char_end prev - 100) chunk_a2_1.
Proof.
  apply (chunk_document_positions count_tokens split_text a_md 1 chunk_a2_1).
  vm_compute. reflexivity.
Defined.

Lemma search_decodes_answer_witness :
  ∃ results,
    chroma_query_ab [distance_a; distance_b] ∅ [[]] 2 (where_of None) = Ok results
    ∧ length found_ab = length (default [] (qr_ids results !! 0%nat))
    ∧ ∀ (i : nat) r, found_ab !! i = Some r →
        ∃ docs mds doc md,
          qr_documents results !! 0%nat = Some docs ∧ docs !! i = Some doc
          ∧ qr_metadatas results !! 0%nat = Some mds ∧ mds !! i = Some md
          ∧ metadata_to_chunk md doc = Ok (chunk r).
Proof.
  apply (search_decodes_answer (chroma_query_ab [distance_a; distance_b]) ∅ [] 2
           None found_ab).
  vm_compute. reflexivity.
Defined.

Lemma extract_csv_rows_witness :
  extract_csv "a,b" (Ok <$> [["a"; "b"]; ["1"; "2"]]%string)
  = PyStr.join PyStr.LF (PyStr.join " | " <$> [["a"; "b"]; ["1"; "2"]]%string).
Proof.
  apply (proj1 (extract_csv_rows "a,b" [["a"; "b"]; ["1"; "2"]]%string [])).
  simpl. lia.
Defined.

Lemma store_stays_well_formed_witness :
  (∀ documents force,
     well_formed path_name
       (index_vault count_tokens split_text path_name get_embeddings_batch
          documents force ∅).1)
  ∧ (∀ file_path on_disk,
       well_formed path_name
         (index_single_file count_tokens split_text path_name (λ p, p)
            (λ _, "md"%string) get_embeddings_batch file_path on_disk ∅).1)
  ∧ well_formed path_name ∅.
Proof.
  apply (store_stays_well_formed count_tokens split_text path_name (λ p, p)
           (λ _, "md"%string) get_embeddings_batch ∅).
  intros id r Hr. by rewrite lookup_empty in Hr.
Defined.

Lemma index_vault_stores_chunks_witness :
  ∃ e, store_a2 !! make_chunk_id chunk_a2_1
       = Some (record_of_chunk path_name chunk_a2_1 e).
Proof.
  apply (index_vault_stores_chunks count_tokens split_text path_name
           get_embeddings_batch [a_md] false ∅ store_a2 ∅
           {| documents_scanned := 1; documents_indexed := 1;
              chunks_created := 2; chunks_deleted := 0 |} a_md chunk_a2_1).
  - apply single_document_distinct.
  - vm_compute. reflexivity.
  - vm_compute. reflexivity.
  - apply list_elem_of_here.
  - vm_compute. reflexivity.
  - apply (list_elem_of_lookup_2 _ 1%nat). vm_compute. reflexivity.
Defined.

Lemma index_vault_second_run_witness :
  index_vault count_tokens split_text path_name get_embeddings_batch
    [a_md] false store_a2
  = (store_a2, Ok {| documents_scanned := Z.of_nat (length [a_md]);
                     documents_indexed := 0; chunks_created := 0;
                     chunks_deleted := 0 |}).
Proof.
  apply (index_vault_second_run count_tokens split_text path_name
           get_embeddings_batch [a_md] ∅ store_a2 ∅
           {| documents_scanned := 1; documents_indexed := 1;
              chunks_created := 2; chunks_deleted := 0 |}).
  - intros id r Hr. by rewrite lookup_empty in Hr.
  - intros id r t Hr. by rewrite lookup_empty in Hr.
  - apply single_document_distinct.
  - intros doc Hdoc. apply list_elem_of_singleton in Hdoc as ->. reflexivity.
  - vm_compute. reflexivity.
  - intros doc Hdoc _. apply list_elem_of_singleton in Hdoc as ->.
    vm_compute. discriminate.
  - vm_compute. reflexivity.
Defined.

End FurtherExamples.

(** ** Failed runs, and the single-file path seen by the next full run *)

Section FailedRuns.
Import TextChunker VectorStore Search.
Variable count_tokens : string → Z.
Variable split_text : string → list string.
Variable path_name : string → string.
Variable path_str : string → string.
Variable path_file_type : string → string.
Variable get_embeddings_batch : list string → result (list (list float)).

Lemma upsert_chunks_err (coll coll' : Collection) (chunks : list Chunk)
    (embeddings : list (list float)) (e : py_error) :
  upsert_chunks path_name coll chunks embeddings = (coll', Err e) → coll' = coll.
Proof.
  unfold upsert_chunks. destruct chunks as [|c0 chunks0]; [done|].
  unfold chroma_upsert. case_bool_decide; [|by intros [= <- _]].
  case_bool_decide; [done|]. by intros [= <- _].
Qed.

(** X29: a run of [index_vault] that fails has written no chunk, but it has
    already deleted: without [force], when the store could be read, the
    records of the sources that the scan no longer has are gone and the
    records of the scanned documents are as they were; with [force], or
    when the store could not be read, the store is as it was. *)
Theorem index_vault_failure (documents : list Document) (force : bool)
    (coll : Collection) (e : py_error) :
  (index_vault count_tokens split_text path_name get_embeddings_batch
     documents force coll).2 = Err e →
  (index_vault count_tokens split_text path_name get_embeddings_batch
     documents force coll).1
  = match force, get_indexed_files coll with
    | false, Ok _ => filter (λ kr, scanned documents kr.2 = true) coll
    | _, _ => coll
    end.
Proof.
  destruct (indexed_files_of force coll) as [m|e0] eqn:Hm.
  - rewrite (index_vault_unfold count_tokens split_text path_name
               get_embeddings_batch documents force coll m Hm).
    assert ((delete_removed coll
               (elements (dom m ∖ list_to_set (path <$> documents)))).1
            = match force, get_indexed_files coll with
              | false, Ok _ => filter (λ kr, scanned documents kr.2 = true) coll
              | _, _ => coll
              end) as <-.
    { unfold indexed_files_of in Hm. destruct force; simpl in Hm.
      - injection Hm as <-.
        by rewrite dom_empty_L, difference_disjoint_L, elements_empty
          by set_solver.
      - rewrite Hm. by apply delete_removed_scanned. }
    simpl.
    destruct (filter _ documents) as [|d0 ds]; [done|].
    destruct (get_embeddings_batch _) as [embeddings|e1]; [|done].
    destruct (upsert_chunks _ _ _ _) as [coll' [n|e1]] eqn:Hup; [done|].
    intros _. simpl. by apply upsert_chunks_err in Hup.
  - unfold index_vault. rewrite Hm. intros _. simpl.
    unfold indexed_files_of in Hm. destruct force; simpl in Hm; [done|].
    by rewrite Hm.
Qed.

Lemma float_ltb_irrefl (x : float) : (x <? x)%float = false.
Proof.
  rewrite ltb_spec. unfold SFltb, SFcompare.
  destruct (Prim2SF x) as [[]|[]| |[] mx ex]; try done;
    rewrite Z.compare_refl;
    change (Pos.compare_cont Eq mx mx) with (Pos.compare mx mx);
    by rewrite ?Pos.compare_refl.
Qed.

(** X30: after [index_single_file] has indexed a file, [get_indexed_files]
    gives the file's own modification time for its path, so that the next
    run of [index_vault] without [force] does not select the file again
    as long as the scan finds it with that time. *)
Theorem index_single_file_then_scan (file_path text : string)
    (st : file_state) (coll coll' : Collection) (embeddings : list (list float))
    (n : Z) (m : gmap string float) :
  let p := path_str file_path in
  let doc := {| path := p; doc_content := text;
                doc_file_type := path_file_type file_path;
                doc_modified := fs_mtime st |} in
  let chunks := chunk_document count_tokens split_text doc in
  fs_text st = Some text →
  PyStr.strip text ≠ EmptyString →
  chunks ≠ [] →
  get_embeddings_batch (content <$> chunks) = Ok embeddings →
  length embeddings = length chunks →
  index_single_file count_tokens split_text path_name path_str path_file_type
    get_embeddings_batch file_path (Some st) coll = (coll', Ok n) →
  get_indexed_files coll' = Ok m →
  m !! p = Some (fs_mtime st)
  ∧ ∀ doc', path doc' = p → doc_modified doc' = fs_mtime st →
      needs_indexing false m doc' = false.
Proof.
  intros p doc chunks Htext Hstrip Hne Hemb Hlen Hrun Hm.
  destruct (index_single_file_replaces count_tokens split_text path_name path_str
              path_file_type get_embeddings_batch file_path text st coll
              embeddings Htext Hstrip Hne Hemb Hlen)
    as (coll1 & Hrun1 & Hids & Hrecs).
  fold p in Hids, Hrecs. fold doc in Hrecs. fold chunks in Hrecs, Hids.
  rewrite Hrun in Hrun1. injection Hrun1 as <- _.
  destruct (indexed_files_sources _ _ Hm) as (Hdom & Hval & _).
  assert (m !! p = Some (fs_mtime st)) as Hp.
  { assert (p ∈ dom m) as [t Ht]%elem_of_dom.
    { apply Hdom. destruct (proj2 (Hids (make_id p 0))) as [r Hr].
      - exists 0%nat. split; [|done]. fold doc. fold chunks.
        destruct chunks; [done | simpl; lia].
      - by exists (make_id p 0), r. }
    rewrite Ht. f_equal.
    destruct (Hval p t Ht) as (id & r & Hr & Hs & Hmod).
    destruct (proj1 (Hids id)) as (i & Hi & ->); [by exists r|].
    destruct (lookup_lt_is_Some_2 chunks i Hi) as [c Hc].
    destruct (lookup_lt_is_Some_2 embeddings i) as [emb Hemb']; [by rewrite Hlen|].
    rewrite (Hrecs i c emb Hc Hemb') in Hr. injection Hr as <-.
    simpl in Hmod. unfold chunk_to_metadata in Hmod.
    simplify_map_eq.
    pose proof (chunk_document_of_document count_tokens split_text doc) as Hall.
    rewrite Forall_forall in Hall.
    destruct (Hall c) as (_ & _ & Hmodified & _).
    { by eapply list_elem_of_lookup_2. }
    done. }
  split; [done|]. intros doc' Hpath Htime.
  unfold needs_indexing. rewrite Hpath, Hp, Htime. simpl.
  apply float_ltb_irrefl.
Qed.

End FailedRuns.

Section FailedRunExamples.
Import TextChunker VectorStore Search Examples.

Lemma index_vault_failure_witness :
  (index_vault count_tokens split_text path_name failing_embedder
     [document "b.md" "text" 100] false store_a2).1 = ∅.
Proof.
  rewrite (index_vault_failure count_tokens split_text path_name failing_embedder
             [document "b.md" "text" 100] false store_a2 (EmbeddingError "model")).
  - vm_compute. reflexivity.
  - vm_compute. reflexivity.
Defined.

Lemma index_single_file_then_scan_witness :
  needs_indexing false indexed_a_200 a_md_shrunk = false.
Proof.
  refine (proj2 (index_single_file_then_scan count_tokens split_text path_name
                   (λ p, p) (λ _, "md"%string) get_embeddings_batch "a.md" "one"
                   {| fs_text := Some "one"%string; fs_mtime := 200 |} store_a2
                   store_a_single [[300%float]] 1 indexed_a_200
                   _ _ _ _ _ _ _) a_md_shrunk _ _).
  - reflexivity.
  - vm_compute. discriminate.
  - vm_compute. discriminate.
  - vm_compute. reflexivity.
  - reflexivity.
  - vm_compute. reflexivity.
  - vm_compute. reflexivity.
  - reflexivity.
  - reflexivity.
Defined.

End FailedRunExamples.

(** ** What the full reconcile misses *)

Section ReconcileGaps.
Import TextChunker VectorStore Search.
Variable count_tokens : string → Z.
Variable split_text : string → list string.
Variable path_name : string → string.
Variable get_embeddings_batch : list string → result (list (list float)).

(** C2 fails on the code in two places. With [force] the run does not read
    the indexed-sources map, so that [to_delete] is empty and no path is
    passed to [delete_by_source]: a record of an indexed path that is
    absent from the scan is still in the store after the run. Without
    [force] a document that was not indexed before is compared with the
    time 0: when its modification time is not above 0 it is not put in
    [to_index], and the store has no record of it after the run. *)
Theorem index_vault_reconcile_gaps (documents : list Document)
    (coll : Collection) :
  (∀ p k r,
     coll !! make_id p k = Some r → has_source p r = true →
     (∀ d, d ∈ documents → normalize_path (path d) ≠ normalize_path p) →
     (index_vault count_tokens split_text path_name get_embeddings_batch
        documents true coll).1 !! make_id p k = Some r)
  ∧ (∀ m doc,
       get_indexed_files coll = Ok m →
       doc ∈ documents → m !! path doc = None →
       (0 <? doc_modified doc)%float = false →
       (∀ d, d ∈ documents → path d = path doc → d = doc) →
       ∀ id r,
         (index_vault count_tokens split_text path_name get_embeddings_batch
            documents false coll).1 !! id = Some r →
         has_source (path doc) r = false).
Proof.
  split.
  - intros p k r Hr Hs Habsent.
    rewrite (index_vault_unfold count_tokens split_text path_name
               get_embeddings_batch documents true coll ∅ eq_refl).
    rewrite dom_empty_L.
    assert ((∅ : gset string) ∖ list_to_set (path <$> documents) = ∅) as ->
      by set_solver.
    rewrite elements_empty. cbn [delete_removed fold_left fst snd].
    set (to_index := filter _ documents).
    assert (make_id p k
            ∉ make_chunk_id <$> chunk_all count_tokens split_text to_index)
      as Hfresh.
    { intros (d & i & Hd & _ & Hid)%upserted_ids.
      apply list_elem_of_filter in Hd as [_ Hd].
      apply make_id_inj in Hid as [Hp _]. by destruct (Habsent d Hd). }
    destruct to_index as [|d0 ds] eqn:Hti; [done|]. rewrite <- Hti in *.
    destruct (get_embeddings_batch _) as [embeddings|e]; [|done].
    pose proof (upsert_chunks_other path_name coll
                  (chunk_all count_tokens split_text to_index) embeddings
                  _ Hfresh) as Hup.
    destruct (upsert_chunks _ _ _ _) as [coll2 [n|e]]; simpl in *; congruence.
  - intros m doc Hm Hdoc Hnew Hold Huniq id r.
    rewrite (index_vault_unfold count_tokens split_text path_name
               get_embeddings_batch documents false coll m Hm).
    rewrite (delete_removed_scanned _ _ _ Hm).
    set (coll1 := filter _ coll).
    destruct (indexed_files_sources _ _ Hm) as (Hdom & _ & _).
    assert (∀ id r, coll1 !! id = Some r → has_source (path doc) r = false)
      as Hold1.
    { intros id' r' [Hr' _]%map_lookup_filter_Some.
      destruct (has_source (path doc) r') eqn:Hs; [|done].
      assert (path doc ∈ dom m) as Hin by (apply Hdom; eauto).
      apply elem_of_dom in Hin as [t Ht]. congruence. }
    set (to_index := filter _ documents).
    assert (doc ∉ to_index) as Hskip.
    { intros [Hneed _]%list_elem_of_filter. unfold needs_indexing in Hneed.
      rewrite Hnew in Hneed. simpl in Hneed. congruence. }
    destruct to_index as [|d0 ds] eqn:Hti; [by apply Hold1|]. rewrite <- Hti in *.
    destruct (get_embeddings_batch _) as [embeddings|e]; [|by apply Hold1].
    intros Hr.
    assert ((upsert_chunks path_name coll1
               (chunk_all count_tokens split_text to_index) embeddings).1 !! id
            = Some r) as Hr'.
    { by destruct (upsert_chunks _ _ _ _) as [coll2 [n|e]]. }
    destruct (upsert_chunks_origin _ _ _ _ _ _ Hr')
      as [?|(c & e & Hc & -> & _)]; [by eapply Hold1|].
    apply chunk_all_elem in Hc as (d & Hd & Hc).
    destruct (has_source (path doc) _) eqn:Hs; [|done].
    pose proof (proj1 (Forall_forall _ _)
                  (chunk_document_sources count_tokens split_text d) c Hc) as Hsrc.
    simpl in Hsrc.
    pose proof (has_source_chunk path_name c e) as Hs'.
    rewrite Hsrc in Hs'.
    assert (d = doc) as ->.
    { apply Huniq; [|by apply (has_source_inj _ _ _ Hs' Hs)].
      unfold to_index in Hd. by apply list_elem_of_filter in Hd as [_ ?]. }
    done.
Qed.

End ReconcileGaps.

Section ReconcileGapExamples.
Import TextChunker VectorStore Search Examples.

Lemma index_vault_reconcile_gaps_witness :
  (index_vault count_tokens split_text path_name get_embeddings_batch
     [document "b.md" "text" 100] true store_a2).1 !! make_id "a.md" 1
  = Some record_a2_1
  ∧ ∀ id r,
      (index_vault count_tokens split_text path_name get_embeddings_batch
         [epoch_md] false ∅).1 !! id = Some r →
      has_source "old.md" r = false.
Proof.
  split.
  - apply (proj1 (index_vault_reconcile_gaps count_tokens split_text path_name
                    get_embeddings_batch [document "b.md" "text" 100] store_a2)).
    + vm_compute. reflexivity.
    + vm_compute. reflexivity.
    + intros d Hd. apply list_elem_of_singleton in Hd as ->. vm_compute. discriminate.
  - apply (proj2 (index_vault_reconcile_gaps count_tokens split_text path_name
                    get_embeddings_batch [epoch_md] ∅) ∅ epoch_md).
    + vm_compute. reflexivity.
    + apply list_elem_of_here.
    + reflexivity.
    + vm_compute. reflexivity.
    + intros d Hd _. by apply list_elem_of_singleton in Hd.
Defined.

(** The two runs of the witness, evaluated: the forced run over a scan
    without [a.md] reports no chunk deleted and leaves both records of
    [a.md]; the run over a new document dated at the epoch indexes
    nothing. *)
Example reconcile_gaps_evaluated :
  let forced :=
    index_vault count_tokens split_text path_name get_embeddings_batch
      [document "b.md" "text" 100] true store_a2 in
  let epoch :=
    index_vault count_tokens split_text path_name get_embeddings_batch
      [epoch_md] false ∅ in
  forced.2 = Ok {| documents_scanned := 1; documents_indexed := 1;
                   chunks_created := 1; chunks_deleted := 0 |}
  ∧ dom forced.1 = {["a.md::chunk_0"; "a.md::chunk_1"; "b.md::chunk_0"]}
  ∧ epoch = (∅, Ok {| documents_scanned := 1; documents_indexed := 0;
                      chunks_created := 0; chunks_deleted := 0 |}).
Proof. vm_compute. repeat split; reflexivity. Qed.

End ReconcileGapExamples.
